(** * vulnix: the command-line driver [vulnix/main.py]

    A shallow embedding of the driver of vulnix, the scanner that reports
    packages of a Nix store with known security issues.  The driver is glue:
    it talks to the whitelist, the store, the NVD mirror and the terminal.
    Its functions are embedded as programs over a signature of collaborator
    calls; an interpreter runs a program against an implementation of the
    collaborators and records every call and every line of output. *)

From Stdlib Require Import String Ascii List ZArith Lia Bool Arith.
From Stdlib Require Import Permutation Sorted DecimalString OrderedTypeEx.
From ExtLib Require Import Structures.Monad.
Import ListNotations.
Import MonadNotation.

Local Open Scope list_scope.
Local Open Scope string_scope.
Local Open Scope monad_scope.

(** ** Python values used by the driver *)

(** Exceptions.  [RuntimeError] stands for the class and its subclasses, the
    ones an [except RuntimeError] clause catches; [SystemExit] is what
    [sys.exit(code)] raises; every other exception class is [OtherError]. *)
Inductive exn : Type :=
| RuntimeError (msg : string)
| SystemExit (code : Z)
| OtherError (cls msg : string).

Definition result (X : Type) : Type := (exn + X)%type.

(** A derivation as the driver reads it.  [affected_by] is a Python set of
    CVE identifiers, kept here in its iteration order. *)
Record Derivation : Type := mkDerivation {
  name : string;
  pname : string;
  version : string;
  store_path : string;
  affected_by : list string
}.

Definition set_affected_by (d : Derivation) (ids : list string) : Derivation :=
  {| name := name d; pname := pname d; version := version d;
     store_path := store_path d; affected_by := ids |}.

(** Modelled from the spec: the property [Derivation.is_affected] lives in
    vulnix/derivation.py; a derivation is affected when its [affected_by] set
    is non-empty. *)
Definition is_affected (d : Derivation) : bool :=
  match affected_by d with [] => false | _ :: _ => true end.

(** Modelled from the spec: the match type of a masked finding
    (vulnix/whitelist.py), permanent or temporary. *)
Inductive MatchType : Type := MATCH_PERM | MATCH_TEMP.

Definition matchtype_eqb (a b : MatchType) : bool :=
  match a, b with
  | MATCH_PERM, MATCH_PERM | MATCH_TEMP, MATCH_TEMP => true
  | _, _ => false
  end.

(** The fields of a whitelist rule that [print_masked] reads. *)
Record Rule : Type := mkRule {
  until : option string;
  issue_url : list string;
  comment : list string
}.

Record Masked : Type := mkMasked {
  deriv : Derivation;
  rule : Rule;
  matchtype : MatchType
}.

(** [Store.derivations] is a dict from store path to derivation, kept in
    insertion order. *)
Record Store : Type := mkStore {
  derivations : list (string * Derivation)
}.

Definition values {K V : Type} (d : list (K * V)) : list V := map snd d.

(** Log levels of the [logging] module. *)
Inductive LogLevel : Type := DEBUG | INFO | WARNING | ERROR | CRITICAL.

(** What the driver itself writes to the terminal and the logging system. *)
Inductive emission : Type :=
| Print (s : string)
| Echo (s : string) (nl : bool)
| Secho (s : string) (fg : string)
| SetLevel (logger : string) (lvl : LogLevel)
| BasicConfig (lvl : LogLevel)
| LogCritical (e : exn).

(** JSON values as [json.dumps] receives them. *)
#[warnings="-register-all"]
Inductive JSON : Type :=
| JString (s : string)
| JList (l : list JSON)
| JDict (l : list (string * JSON)).

(** ** Python built-ins *)

Definition nl : string := String (ascii_of_nat 10) EmptyString.
Definition tab : string := String (ascii_of_nat 9) EmptyString.

(** [str(n)] for a non-negative int. *)
Definition str_of_nat (n : nat) : string :=
  NilEmpty.string_of_uint (Nat.to_uint n).

(** [c * n] for a string [c]. *)
Fixpoint str_mul (c : string) (n : nat) : string :=
  match n with
  | O => EmptyString
  | S n' => c ++ str_mul c n'
  end.

(** [s.split(sep, 1)] for a one-character separator: the text before the
    first separator and the text after it, [None] when there is no
    separator (the split then has one element). *)
Fixpoint split_once (sep : ascii) (s : string) : option (string * string) :=
  match s with
  | EmptyString => None
  | String c s' =>
      if Ascii.eqb c sep then Some (EmptyString, s')
      else match split_once sep s' with
           | Some (hd, tl) => Some (String c hd, tl)
           | None => None
           end
  end.

(** [sorted]: a stable sort that only asks [<] of its elements.  An element
    goes in front of the first element it is not greater than, so equal
    elements keep their order. *)
Fixpoint insert_sorted {A : Type} (lt : A -> A -> bool) (x : A) (l : list A)
    : list A :=
  match l with
  | [] => [x]
  | y :: l' => if lt y x then y :: insert_sorted lt x l' else x :: y :: l'
  end.

Definition sorted {A : Type} (lt : A -> A -> bool) (l : list A) : list A :=
  fold_right (insert_sorted lt) [] l.

(** [sorted(l, key=key)] with string keys. *)
Definition sorted_key {A : Type} (key : A -> string) (l : list A) : list A :=
  sorted (fun a b => String.ltb (key a) (key b)) l.

(** [a <= b] on strings, as [not (b < a)]. *)
Definition str_le (a b : string) : Prop := String.ltb b a = false.

(** [d.get(k)] *)
Definition dict_get {V : Type} (k : string) (d : list (string * V)) : option V :=
  option_map snd (find (fun kv => String.eqb (fst kv) k) d).

(** [d[k] = v] on a dict kept in insertion order: an existing key keeps its
    place and gets the new value, a new key goes to the end. *)
Fixpoint dict_set {V : Type} (k : string) (v : V) (d : list (string * V))
    : list (string * V) :=
  match d with
  | [] => [(k, v)]
  | (k', v') :: d' =>
      if String.eqb k' k then (k', v) :: d' else (k', v') :: dict_set k v d'
  end.

(** [{key(x): x for x in xs}] *)
Definition dict_of {V : Type} (key : V -> string) (xs : list V)
    : list (string * V) :=
  fold_left (fun d x => dict_set (key x) x d) xs [].

(** Truth value of a list, tuple or [len(...)]. *)
Definition nonempty {A : Type} (l : list A) : bool :=
  match l with [] => false | _ :: _ => true end.

(** The module docstring. *)
Definition __doc__ : string :=
  String.concat nl
    [ "Usage: vulnix {--system | PATH [...]}";
      "";
      "vulnix is a tool that scan the NixOS store for packages with known";
      "security issues. There are three main modes of operation:";
      "";
      "";
      "* Is my NixOS system installation affected?";
      "";
      "Invoke:  vulnix --system";
      "";
      "";
      "* Is my project affected?";
      "";
      "Invoke after nix-build:  vulnix ./result";
      "";
      "";
      "See vulnix --help for a full list of options.";
      "" ].

Definition CURRENT_SYSTEM : string := "/nix/var/nix/gcroots/current-system".

(** The message of the RuntimeError that [output_json] raises. *)
Definition refusal : string :=
  "--show-whitelisted does currently not support JSON mode".

Section Driver.

(** Objects of the modules that are imported by main.py: their
    representation does not matter to the driver. *)
Variables Whitelist NVD Resource File : Type.

(** The calls into the collaborators.  A call that mutates [self] returns the
    object after the call. *)
Inductive Op : Type -> Type :=
| Whitelist_new : Op Whitelist
| Whitelist_load (wl : Resource) : Op Whitelist
| Whitelist_merge (self other : Whitelist) : Op Whitelist
| Whitelist_filter (self : Whitelist) (ds : list Derivation)
  : Op (list Derivation * list Masked)
| Whitelist_add_from (self : Whitelist) (d : Derivation) : Op Whitelist
| Whitelist_str (self : Whitelist) : Op string
| Store_new (requisites : bool) : Op Store
| Store_add_gc_roots (self : Store) : Op Store
| Store_add_path (self : Store) (path : string) : Op Store
| NVD_new (mirror cache_dir : string) : Op NVD
| NVD_enter (self : NVD) : Op unit
| NVD_update (self : NVD) : Op unit
| NVD_exit (self : NVD) (exc : option exn) : Op unit
| Timer_enter (label : string) : Op unit
| Timer_exit (label : string) (exc : option exn) : Op unit
| Derivation_check (self : Derivation) (nvd : NVD) : Op (list string)
| File_write (f : File) (s : string) : Op unit.

(** ** Programs *)

Inductive Prog (A : Type) : Type :=
| Ret (a : A)
| Raise (e : exn)
| Out (o : emission) (k : Prog A)
| Call (X : Type) (op : Op X) (k : result X -> Prog A).

Arguments Ret {A} a.
Arguments Raise {A} e.
Arguments Out {A} o k.
Arguments Call {A X} op k.

Fixpoint bind_prog {A B : Type} (p : Prog A) (f : A -> Prog B) : Prog B :=
  match p with
  | Ret a => f a
  | Raise e => Raise e
  | Out o k => Out o (bind_prog k f)
  | Call op k => Call op (fun r => bind_prog (k r) f)
  end.

#[local] Instance Monad_Prog : Monad Prog :=
  {| ret := @Ret; bind := @bind_prog |}.

(** A call raises what the collaborator raises. *)
Definition call {X : Type} (op : Op X) : Prog X :=
  Call op (fun r => match r with inl e => Raise e | inr x => Ret x end).

Definition out (o : emission) : Prog unit := Out o (Ret tt).

(** [sys.exit(code)] *)
Definition sys_exit {A : Type} (code : Z) : Prog A := Raise (SystemExit code).

(** Runs [p] and hands back how it ended. *)
Fixpoint attempt {A : Type} (p : Prog A) : Prog (result A) :=
  match p with
  | Ret a => Ret (inr a)
  | Raise e => Ret (inl e)
  | Out o k => Out o (attempt k)
  | Call op k => Call op (fun r => attempt (k r))
  end.

(** [try: p  except <class> as e: handler e], where [handler e] is [None]
    for an exception that is not of the class. *)
Definition try_except {A : Type} (p : Prog A)
    (handler : exn -> option (Prog A)) : Prog A :=
  r <- attempt p ;;
  match r with
  | inr a => Ret a
  | inl e => match handler e with Some q => q | None => Raise e end
  end.

(** [with cm: body] for a context manager whose [__exit__] returns [None]:
    [__exit__] sees the exception of the body, which is raised again after
    it. *)
Definition with_ {A : Type} (enter : Op unit) (exit : option exn -> Op unit)
    (body : Prog A) : Prog A :=
  call enter ;;
  r <- attempt body ;;
  match r with
  | inr a => call (exit None) ;; Ret a
  | inl e => call (exit (Some e)) ;; Raise e
  end.

(** [for x in xs: body x] *)
Fixpoint for_each {X : Type} (xs : list X) (body : X -> Prog unit) : Prog unit :=
  match xs with
  | [] => Ret tt
  | x :: xs' => body x ;; for_each xs' body
  end.

(** [for x in xs: acc = body acc x], for a loop that updates a local. *)
Fixpoint for_fold {X S : Type} (xs : list X) (acc : S)
    (body : S -> X -> Prog S) : Prog S :=
  match xs with
  | [] => Ret acc
  | x :: xs' => acc' <- body acc x ;; for_fold xs' acc' body
  end.

(** ** The functions of main.py *)

(** What main.py takes from outside its own text: the ordering of
    derivations ([Derivation.__lt__], used by [sorted(affected)]),
    [utils.cve_url], the version of the installed vulnix distribution, and
    [json.dumps(_, indent=1)]. *)
Variable Derivation_lt : Derivation -> Derivation -> bool.
Variable cve_url : string -> string.
Variable vulnix_version : string.
Variable json_dumps : JSON -> string.

Definition howto : Prog unit :=
  match split_once (ascii_of_nat 10) __doc__ with
  | Some (head, tail) =>
      out (Secho head "yellow") ;;
      out (Echo tail false)
  | None => Raise (OtherError "ValueError" "not enough values to unpack")
  end.

Definition init_logging (verbose : nat) : Prog unit :=
  out (SetLevel "requests" ERROR) ;;
  if (2 <=? verbose)%nat then out (BasicConfig DEBUG)
  else if (1 <=? verbose)%nat then out (BasicConfig INFO)
  else out (BasicConfig WARNING).

(** The record that [output_json] builds for one derivation. *)
Definition json_record (d : Derivation) : JSON :=
  JDict [ ("name", JString (name d));
          ("pname", JString (pname d));
          ("version", JString (version d));
          ("derivation", JString (store_path d));
          ("affected_by", JList (map JString (sorted String.ltb (affected_by d)))) ].

Definition output_json (derivations : list Derivation) (show_whitelisted : bool)
    : Prog unit :=
  if show_whitelisted then
    Raise (RuntimeError "--show-whitelisted does currently not support JSON mode")
  else
    let out_ := map json_record (sorted_key pname derivations) in
    out (Print (json_dumps (JList out_))).

Definition adv (n : nat) : string :=
  if (n =? 1)%nat then "advisory" else "advisories".

Definition print_derivation (derivation : Derivation) (verbose : nat)
    : Prog unit :=
  out (Echo (nl ++ str_mul "=" 72) true) ;;
  out (Secho (name derivation ++ nl) "yellow") ;;
  (if (1 <=? verbose)%nat then out (Secho (store_path derivation) "magenta")
   else ret tt) ;;
  out (Echo "CVEs:" true) ;;
  let fmt := if (0 <? verbose)%nat then cve_url else fun x => x in
  for_each (affected_by derivation) (fun cve_id =>
    out (Echo (tab ++ fmt cve_id) true)).

(** ['{}'.format(rule.until)] *)
Definition str_until (u : option string) : string :=
  match u with Some d => d | None => "None" end.

Definition print_masked (masked : Masked) (verbose : nat) : Prog unit :=
  out (Echo (nl ++ str_mul "-" 72) true) ;;
  let until_ :=
    if matchtype_eqb (matchtype masked) MATCH_TEMP
    then " until " ++ str_until (until (rule masked))
    else "" in
  out (Echo (name (deriv masked) ++ " (whitelisted" ++ until_ ++ ")" ++ nl) true) ;;
  (if (1 <=? verbose)%nat then out (Echo (store_path (deriv masked)) true)
   else ret tt) ;;
  out (Echo "CVEs:" true) ;;
  for_each (affected_by (deriv masked)) (fun cve_id =>
    out (Echo (tab ++ cve_url cve_id) true)) ;;
  (if nonempty (issue_url (rule masked)) then
     out (Echo "Issue URL:" true) ;;
     for_each (issue_url (rule masked)) (fun url => out (Echo (tab ++ url) true))
   else ret tt) ;;
  (if nonempty (comment (rule masked)) then
     out (Echo "Comment:" true) ;;
     for_each (comment (rule masked)) (fun c => out (Echo (tab ++ c) true))
   else ret tt).

Definition output (affected : list Derivation) (whitelisted : list Masked)
    (show_whitelisted : bool) (verbose : nat) : Prog unit :=
  let amount := List.length affected in
  if (amount =? 0)%nat && negb show_whitelisted then
    if nonempty whitelisted then
      out (Secho ("Nothing to show, but " ++ str_of_nat (List.length whitelisted)
                  ++ " left out due to whitelisting") "blue")
    else
      out (Secho "Found no advisories. Excellent!" "green")
  else
    out (Secho ("Found " ++ str_of_nat amount ++ " " ++ adv amount) "red") ;;
    for_each (sorted Derivation_lt affected) (fun derivation =>
      print_derivation derivation verbose) ;;
    if negb (nonempty whitelisted) then ret tt
    else if show_whitelisted then
      let num_wl := List.length whitelisted in
      out (Secho (nl ++ str_of_nat num_wl ++ " " ++ adv num_wl
                  ++ " masked by whitelists") "blue") ;;
      for_each whitelisted (fun masked_item => print_masked masked_item verbose)
    else
      out (Secho (nl ++ "...and " ++ str_of_nat (List.length whitelisted)
                  ++ " more whitelisted (use `--show-whitelisted` to display)")
             "blue").

(** Load derivations from nix store depending on cmdline invocation. *)
Definition populate_store (gc_roots : bool) (paths : list string)
    (requisites : bool) : Prog Store :=
  store <- call (Store_new requisites) ;;
  store <- (if gc_roots then call (Store_add_gc_roots store) else ret store) ;;
  store <- for_fold paths store (fun store path =>
             call (Store_add_path store path)) ;;
  ret store.

(** [derivation.check(nvd)] fills the [affected_by] set of the derivation;
    the derivation that [run] goes on with is the one after the call. *)
Definition run (nvd : NVD) (store : Store) : Prog (list Derivation) :=
  affected <- for_fold (values (derivations store)) []
                (fun affected derivation =>
                   ids <- call (Derivation_check derivation nvd) ;;
                   let derivation := set_affected_by derivation ids in
                   if is_affected derivation
                   then ret (affected ++ [derivation])%list
                   else ret affected) ;;
  (* weed out duplicates *)
  let unique := dict_of name affected in
  ret (values unique).

Definition with_Timer {A : Type} (label : string) (body : Prog A) : Prog A :=
  with_ (Timer_enter label) (Timer_exit label) body.

Definition main (verbose : nat) (gc_roots system : bool) (path : list string)
    (mirror cache_dir : string) (requisites : bool)
    (whitelist : list Resource) (write_whitelist : option File)
    (version json show_whitelisted default_whitelist notfixed : bool)
    : Prog unit :=
  (if version then
     out (Print ("vulnix " ++ vulnix_version)) ;;
     sys_exit 0
   else ret tt) ;;
  (if negb (gc_roots || system || nonempty path) then
     howto ;;
     sys_exit 3
   else ret tt) ;;
  init_logging verbose ;;
  let paths := path in
  let paths := if system then (paths ++ [CURRENT_SYSTEM])%list else paths in
  try_except
    (whitelist <-
       with_Timer "Load whitelists"
         (let wh_sources := whitelist in
          whitelist <- call Whitelist_new ;;
          for_fold wh_sources whitelist (fun whitelist wl =>
            loaded <- call (Whitelist_load wl) ;;
            call (Whitelist_merge whitelist loaded))) ;;
     store <- with_Timer "Load derivations"
                (populate_store gc_roots paths requisites) ;;
     nvd <- call (NVD_new mirror cache_dir) ;;
     found <-
       with_ (NVD_enter nvd) (NVD_exit nvd)
         (with_Timer "Load NVD data" (call (NVD_update nvd)) ;;
          with_Timer "Scan vulnerabilities"
            (derivs <- run nvd store ;;
             call (Whitelist_filter whitelist derivs))) ;;
     let '(affected, masked) := found in
     (if json then output_json affected show_whitelisted
      else output affected masked show_whitelisted verbose) ;;
     match write_whitelist with
     | Some f =>
         whitelist <- for_fold affected whitelist (fun whitelist d =>
                        call (Whitelist_add_from whitelist d)) ;;
         text <- call (Whitelist_str whitelist) ;;
         call (File_write f text)
     | None => ret tt
     end ;;
     if nonempty affected then sys_exit 2
     else if nonempty masked then sys_exit 1
     else sys_exit 0)
    (fun e =>
       match e with
       | RuntimeError _ => Some (out (LogCritical e) ;; sys_exit 2)
       | _ => None
       end).

(** The statements of [main] under [try], in two parts: the scan, up to the
    call of [filter], and the report, from the output on.  [main] is the
    sequence of the two (lemma [interp_main]). *)
Definition main_scan (gc_roots : bool) (paths : list string)
    (mirror cache_dir : string) (requisites : bool)
    (whitelist : list Resource)
    : Prog (Whitelist * (list Derivation * list Masked)) :=
  whitelist <-
    with_Timer "Load whitelists"
      (let wh_sources := whitelist in
       whitelist <- call Whitelist_new ;;
       for_fold wh_sources whitelist (fun whitelist wl =>
         loaded <- call (Whitelist_load wl) ;;
         call (Whitelist_merge whitelist loaded))) ;;
  store <- with_Timer "Load derivations"
             (populate_store gc_roots paths requisites) ;;
  nvd <- call (NVD_new mirror cache_dir) ;;
  found <-
    with_ (NVD_enter nvd) (NVD_exit nvd)
      (with_Timer "Load NVD data" (call (NVD_update nvd)) ;;
       with_Timer "Scan vulnerabilities"
         (derivs <- run nvd store ;;
          call (Whitelist_filter whitelist derivs))) ;;
  ret (whitelist, found).

Definition main_report (verbose : nat) (whitelist : Whitelist)
    (write_whitelist : option File) (json show_whitelisted : bool)
    (affected : list Derivation) (masked : list Masked) : Prog unit :=
  (if json then output_json affected show_whitelisted
   else output affected masked show_whitelisted verbose) ;;
  match write_whitelist with
  | Some f =>
      whitelist <- for_fold affected whitelist (fun whitelist d =>
                     call (Whitelist_add_from whitelist d)) ;;
      text <- call (Whitelist_str whitelist) ;;
      call (File_write f text)
  | None => ret tt
  end ;;
  if nonempty affected then sys_exit 2
  else if nonempty masked then sys_exit 1
  else sys_exit 0.

(** The [except RuntimeError] clause of [main]. *)
Definition main_except (e : exn) : option (Prog unit) :=
  match e with
  | RuntimeError _ => Some (out (LogCritical e) ;; sys_exit 2)
  | _ => None
  end.

(** ** Running a program *)

Inductive event : Type :=
| EvOut (o : emission)
| EvCall (X : Type) (op : Op X) (r : result X).

Arguments EvCall {X} op r.

Definition trace : Type := list event.

Section Interp.

Variable World : Type.
Variable h : forall X : Type, Op X -> World -> result X * World.

Fixpoint interp {A : Type} (p : Prog A) (w : World) : trace * result A * World :=
  match p with
  | Ret a => ([], inr a, w)
  | Raise e => ([], inl e, w)
  | Out o k =>
      let '(tr, r, w') := interp k w in (EvOut o :: tr, r, w')
  | Call op k =>
      let '(x, w1) := h _ op w in
      let '(tr, r, w') := interp (k x) w1 in
      (EvCall op x :: tr, r, w')
  end.

End Interp.

End Driver.

Arguments Whitelist_new {Whitelist NVD Resource File}.
Arguments Whitelist_load {Whitelist NVD Resource File} wl.
Arguments Whitelist_merge {Whitelist NVD Resource File} self other.
Arguments Whitelist_filter {Whitelist NVD Resource File} self ds.
Arguments Whitelist_add_from {Whitelist NVD Resource File} self d.
Arguments Whitelist_str {Whitelist NVD Resource File} self.
Arguments Store_new {Whitelist NVD Resource File} requisites.
Arguments Store_add_gc_roots {Whitelist NVD Resource File} self.
Arguments Store_add_path {Whitelist NVD Resource File} self path.
Arguments NVD_new {Whitelist NVD Resource File} mirror cache_dir.
Arguments NVD_enter {Whitelist NVD Resource File} self.
Arguments NVD_update {Whitelist NVD Resource File} self.
Arguments NVD_exit {Whitelist NVD Resource File} self exc.
Arguments Timer_enter {Whitelist NVD Resource File} label.
Arguments Timer_exit {Whitelist NVD Resource File} label exc.
Arguments Derivation_check {Whitelist NVD Resource File} self nvd.
Arguments File_write {Whitelist NVD Resource File} f s.
Arguments Ret {Whitelist NVD Resource File A} a.
Arguments Raise {Whitelist NVD Resource File A} e.
Arguments Out {Whitelist NVD Resource File A} o k.
Arguments Call {Whitelist NVD Resource File A X} op k.
Arguments EvOut {Whitelist NVD Resource File} o.
Arguments EvCall {Whitelist NVD Resource File X} op r.
Arguments bind_prog {Whitelist NVD Resource File A B} p f.
Arguments call {Whitelist NVD Resource File X} op.
Arguments out {Whitelist NVD Resource File} o.
Arguments sys_exit {Whitelist NVD Resource File A} code.
Arguments attempt {Whitelist NVD Resource File A} p.
Arguments try_except {Whitelist NVD Resource File A} p handler.
Arguments with_ {Whitelist NVD Resource File A} enter exit body.
Arguments with_Timer {Whitelist NVD Resource File A} label body.
Arguments for_each {Whitelist NVD Resource File X} xs body.
Arguments for_fold {Whitelist NVD Resource File X S} xs acc body.
Arguments howto {Whitelist NVD Resource File}.
Arguments init_logging {Whitelist NVD Resource File} verbose.
Arguments output_json {Whitelist NVD Resource File} json_dumps derivations show_whitelisted.
Arguments print_derivation {Whitelist NVD Resource File} cve_url derivation verbose.
Arguments print_masked {Whitelist NVD Resource File} cve_url masked verbose.
Arguments output {Whitelist NVD Resource File} Derivation_lt cve_url affected whitelisted
  show_whitelisted verbose.
Arguments populate_store {Whitelist NVD Resource File} gc_roots paths requisites.
Arguments run {Whitelist NVD Resource File} nvd store.
Arguments main {Whitelist NVD Resource File} Derivation_lt cve_url vulnix_version json_dumps
  verbose gc_roots system path mirror cache_dir requisites whitelist write_whitelist
  version json show_whitelisted default_whitelist notfixed.
Arguments main_scan {Whitelist NVD Resource File} gc_roots paths mirror cache_dir
  requisites whitelist.
Arguments main_report {Whitelist NVD Resource File} Derivation_lt cve_url json_dumps
  verbose whitelist write_whitelist json show_whitelisted affected masked.
Arguments main_except {Whitelist NVD Resource File} e.
Arguments interp {Whitelist NVD Resource File World} h {A} p w.

#[export] Existing Instance Monad_Prog.

(** ** Reading a trace *)

(** A call into the store, without the store it is made on. *)
Inductive StoreCall : Type :=
| StoreNew (requisites : bool)
| AddGcRoots
| AddPath (path : string).

(** An emission of [click.echo] or [click.secho]. *)
Definition is_click (o : emission) : bool :=
  match o with
  | Echo _ _ | Secho _ _ => true
  | _ => false
  end.

Section Traces.

Context {Whitelist NVD Resource File : Type}.

Local Abbreviation event := (event Whitelist NVD Resource File).

(** What the driver wrote, in order. *)
Definition emitted (tr : list event) : list emission :=
  flat_map (fun ev => match ev with EvOut o => [o] | EvCall _ _ => [] end) tr.

(** The exceptions the collaborators raised, in order. *)
Definition failures (tr : list event) : list exn :=
  flat_map (fun ev => match ev with
                      | EvCall _ (inl e) => [e]
                      | _ => []
                      end) tr.

(** The exception a collaborator raised last, if any did. *)
Definition last_failure (tr : list event) : option exn :=
  List.last (map Some (failures tr)) None.

(** The derivations [check] was called on, with the NVD it was given. *)
Definition check_calls (tr : list event) : list (Derivation * NVD) :=
  flat_map (fun ev =>
    match ev with
    | EvCall op _ =>
        match op with
        | Derivation_check d nvd => [(d, nvd)]
        | _ => []
        end
    | EvOut _ => []
    end) tr.

(** The derivations as [check] left them. *)
Definition checked (tr : list event) : list Derivation :=
  flat_map (fun ev =>
    match ev with
    | EvCall op r =>
        match op in Op _ _ _ _ X return result X -> list Derivation with
        | Derivation_check d _ => fun r =>
            match r with
            | inr ids => [set_affected_by d ids]
            | inl _ => []
            end
        | _ => fun _ => []
        end r
    | EvOut _ => []
    end) tr.

(** What [Whitelist.filter] returned. *)
Definition filter_results (tr : list event)
    : list (list Derivation * list Masked) :=
  flat_map (fun ev =>
    match ev with
    | EvCall op r =>
        match op in Op _ _ _ _ X
              return result X -> list (list Derivation * list Masked) with
        | Whitelist_filter _ _ => fun r =>
            match r with
            | inr found => [found]
            | inl _ => []
            end
        | _ => fun _ => []
        end r
    | EvOut _ => []
    end) tr.

(** The derivations [add_from] was called with. *)
Definition add_from_calls (tr : list event) : list Derivation :=
  flat_map (fun ev =>
    match ev with
    | EvCall op _ =>
        match op with
        | Whitelist_add_from _ d => [d]
        | _ => []
        end
    | EvOut _ => []
    end) tr.

(** The files written, with the text. *)
Definition file_writes (tr : list event) : list (File * string) :=
  flat_map (fun ev =>
    match ev with
    | EvCall op _ =>
        match op with
        | File_write f text => [(f, text)]
        | _ => []
        end
    | EvOut _ => []
    end) tr.

(** The events of checking [ds] with the answers [idss], and the derivations
    that come out of it. *)
Definition check_events (nvd : NVD) (ds : list Derivation)
    (idss : list (list string)) : trace Whitelist NVD Resource File :=
  map (fun p => EvCall (Derivation_check (fst p) nvd) (inr (snd p)))
      (combine ds idss).

Definition check_outcomes (ds : list Derivation) (idss : list (list string))
    : list Derivation :=
  map (fun p => set_affected_by (fst p) (snd p)) (combine ds idss).

(** The events of adding [ds] to the whitelist [wl], one after the other,
    where [wls] are the whitelists after each call; and the whitelist after
    the last call. *)
Fixpoint add_from_events (wl : Whitelist) (ds : list Derivation)
    (wls : list Whitelist) : list event :=
  match ds, wls with
  | d :: ds', wl' :: wls' =>
      EvCall (Whitelist_add_from wl d) (inr wl') :: add_from_events wl' ds' wls'
  | _, _ => []
  end.

(** An event of the scan that is neither output nor a call of [filter],
    [add_from], [str] or [write]. *)
Definition bystander (ev : event) : bool :=
  match ev with
  | EvCall op _ =>
      match op with
      | Whitelist_filter _ _ | Whitelist_add_from _ _
      | Whitelist_str _ | File_write _ _ => false
      | _ => true
      end
  | EvOut _ => false
  end.

(** The exit status [main] computes from the findings. *)
Definition findings_status (affected : list Derivation) (masked : list Masked)
    : Z :=
  if nonempty affected then 2 else if nonempty masked then 1 else 0.

(** An event of the scan: a call other than [add_from], [str] and
    [write]. *)
Definition scan_event (ev : event) : bool :=
  match ev with
  | EvCall op _ =>
      match op with
      | Whitelist_add_from _ _ | Whitelist_str _ | File_write _ _ => false
      | _ => true
      end
  | EvOut _ => false
  end.

(** What the [except RuntimeError] clause of [main] adds to a run whose
    [try] block raised [e], and how the run ends. *)
Definition caught (e : exn) : list event :=
  match e with
  | RuntimeError _ => [EvOut (LogCritical e)]
  | _ => []
  end.

Definition settle (e : exn) : result unit :=
  match e with
  | RuntimeError _ => inl (SystemExit 2)
  | _ => inl e
  end.

(** The level [init_logging] sets. *)
Definition verbosity_level (verbose : nat) : LogLevel :=
  if (2 <=? verbose)%nat then DEBUG
  else if (1 <=? verbose)%nat then INFO
  else WARNING.

(** The calls into the store, in order. *)
Definition store_calls (tr : list event) : list StoreCall :=
  flat_map (fun ev =>
    match ev with
    | EvCall op _ =>
        match op with
        | Store_new requisites => [StoreNew requisites]
        | Store_add_gc_roots _ => [AddGcRoots]
        | Store_add_path _ path => [AddPath path]
        | _ => []
        end
    | EvOut _ => []
    end) tr.

(** The whitelist sources given to [Whitelist.load]. *)
Definition loaded (tr : list event) : list Resource :=
  flat_map (fun ev =>
    match ev with
    | EvCall op _ =>
        match op with
        | Whitelist_load wl => [wl]
        | _ => []
        end
    | EvOut _ => []
    end) tr.

(** The whitelists that [Whitelist.load] returned. *)
Definition load_results (tr : list event) : list Whitelist :=
  flat_map (fun ev =>
    match ev with
    | EvCall op r =>
        match op in Op _ _ _ _ X return result X -> list Whitelist with
        | Whitelist_load _ => fun r =>
            match r with
            | inr wl => [wl]
            | inl _ => []
            end
        | _ => fun _ => []
        end r
    | EvOut _ => []
    end) tr.

(** The whitelists given to [merge] to be merged in. *)
Definition merged (tr : list event) : list Whitelist :=
  flat_map (fun ev =>
    match ev with
    | EvCall op _ =>
        match op with
        | Whitelist_merge _ other => [other]
        | _ => []
        end
    | EvOut _ => []
    end) tr.

(** The derivations given to [Whitelist.filter], call by call. *)
Definition filter_calls (tr : list event) : list (list Derivation) :=
  flat_map (fun ev =>
    match ev with
    | EvCall op _ =>
        match op with
        | Whitelist_filter _ ds => [ds]
        | _ => []
        end
    | EvOut _ => []
    end) tr.

(** The NVD contexts entered (the [__enter__] that returned) and the NVD
    contexts left (the [__exit__] that were called). *)
Definition nvd_entered (tr : list event) : list NVD :=
  flat_map (fun ev =>
    match ev with
    | EvCall op r =>
        match op in Op _ _ _ _ X return result X -> list NVD with
        | NVD_enter nvd => fun r =>
            match r with
            | inr _ => [nvd]
            | inl _ => []
            end
        | _ => fun _ => []
        end r
    | EvOut _ => []
    end) tr.

Definition nvd_exited (tr : list event) : list NVD :=
  flat_map (fun ev =>
    match ev with
    | EvCall op _ =>
        match op with
        | NVD_exit nvd _ => [nvd]
        | _ => []
        end
    | EvOut _ => []
    end) tr.

(** An event that is a line on the terminal. *)
Definition click_event (ev : event) : bool :=
  match ev with
  | EvOut o => is_click o
  | EvCall _ _ => false
  end.

(** An event that neither enters nor leaves an NVD context. *)
Definition outside_nvd (ev : event) : bool :=
  match ev with
  | EvCall op _ =>
      match op with
      | NVD_enter _ | NVD_exit _ _ => false
      | _ => true
      end
  | EvOut _ => true
  end.

(** A call into the store. *)
Definition store_event (ev : event) : bool :=
  match ev with
  | EvCall op _ =>
      match op with
      | Store_new _ | Store_add_gc_roots _ | Store_add_path _ _ => true
      | _ => false
      end
  | EvOut _ => false
  end.

(** The headings of the output: the lines written in yellow, which are the
    names of the derivations shown. *)
Definition headings (tr : list event) : list string :=
  flat_map (fun ev =>
    match ev with
    | EvOut (Secho s fg) => if String.eqb fg "yellow" then [s] else []
    | _ => []
    end) tr.

(** An event of the report: output, or a call of [add_from], [str] or
    [write]. *)
Definition report_event (ev : event) : bool :=
  match ev with
  | EvCall op _ =>
      match op with
      | Whitelist_add_from _ _ | Whitelist_str _ | File_write _ _ => true
      | _ => false
      end
  | EvOut _ => true
  end.

Section Runs.

Context {World : Type}.
Variable h : forall X : Type,
  Op Whitelist NVD Resource File X -> World -> result X * World.

(** A program whose events all satisfy [P], and that ends in an exception
    exactly when a call raised: the exception is then the one raised last. *)
Definition scans {A : Type} (P : event -> bool)
    (p : Prog Whitelist NVD Resource File A) : Prop :=
  forall w tr r w', interp h p w = (tr, r, w') ->
    forallb P tr = true /\
    match r with
    | inl e => last_failure tr = Some e
    | inr _ => failures tr = []
    end.

(** A program that only writes to the terminal. *)
Definition prints {A : Type} (p : Prog Whitelist NVD Resource File A) : Prop :=
  exists outs a, forall w, interp h p w = (map EvOut outs, inr a, w).

(** A program all of whose traces satisfy [I]. *)
Definition keeps {A : Type} (I : list event -> Prop)
    (p : Prog Whitelist NVD Resource File A) : Prop :=
  forall w tr r w', interp h p w = (tr, r, w') -> I tr.

(** A program that writes [o] in every run. *)
Definition shows {A : Type} (o : emission)
    (p : Prog Whitelist NVD Resource File A) : Prop :=
  forall w tr r w', interp h p w = (tr, r, w') -> In o (emitted tr).

(** A program that only writes to the terminal, with the headings [l]. *)
Definition heads {A : Type} (l : list string)
    (p : Prog Whitelist NVD Resource File A) : Prop :=
  exists outs a,
    (forall w, interp h p w = (map EvOut outs, inr a, w)) /\
    headings (map EvOut outs) = l.

(** A program that stops at the first call that raises, with the exception
    of the call. *)
Definition fails_fast {A : Type} (p : Prog Whitelist NVD Resource File A)
    : Prop :=
  forall w tr r w', interp h p w = (tr, r, w') ->
    match r with
    | inl e =>
        exists tr0 X (op : Op Whitelist NVD Resource File X),
          tr = (tr0 ++ [EvCall op (inl e)])%list /\ failures tr0 = []
    | inr _ => failures tr = []
    end.

End Runs.

End Traces.

(** What the operating system sees of a run of [main]: the exit status, and
    whether the interpreter printed a stack trace.  [sys.exit(code)] ends the
    process with [code]; any other exception that leaves [main] is printed
    with its stack trace and the status is 1; a return is status 0. *)
Definition exit_code {A : Type} (r : result A) : Z :=
  match r with
  | inr _ => 0
  | inl (SystemExit code) => code
  | inl _ => 1
  end%Z.

Definition stack_trace {A : Type} (r : result A) : bool :=
  match r with
  | inr _ => false
  | inl (SystemExit _) => false
  | inl _ => true
  end.

(** ** Version comparison *)

Module Version.

(** Modelled from the spec: the version matcher is not part of main.py.  A
    version is split into alternating numeric and alphabetic runs; every
    other character separates runs. *)
Inductive component : Type :=
| Num (n : N)
| Alpha (s : string).

Definition is_digit (c : ascii) : bool :=
  let n := N_of_ascii c in ((48 <=? n) && (n <=? 57))%N.

Definition is_alpha (c : ascii) : bool :=
  let n := N_of_ascii c in
  (((65 <=? n) && (n <=? 90)) || ((97 <=? n) && (n <=? 122)))%N.

Definition digit (c : ascii) : N := (N_of_ascii c - 48)%N.

(** The run being read. *)
Inductive pending : Type :=
| NoRun
| NumRun (n : N)
| AlphaRun (s : string).

Definition flush (cur : pending) : list component :=
  match cur with
  | NoRun => []
  | NumRun n => [Num n]
  | AlphaRun s => [Alpha s]
  end.

(** Modelled from the spec: splitting a version into its runs. *)
Fixpoint split_runs (cur : pending) (s : string) : list component :=
  match s with
  | EmptyString => flush cur
  | String c s' =>
      if is_digit c then
        match cur with
        | NumRun n => split_runs (NumRun (10 * n + digit c)) s'
        | _ => (flush cur ++ split_runs (NumRun (digit c)) s')%list
        end
      else if is_alpha c then
        match cur with
        | AlphaRun a => split_runs (AlphaRun (a ++ String c EmptyString)) s'
        | _ => (flush cur ++ split_runs (AlphaRun (String c EmptyString)) s')%list
        end
      else (flush cur ++ split_runs NoRun s')%list
  end.

Definition parse (v : string) : list component := split_runs NoRun v.

(** Modelled from the spec: numeric runs compare numerically, alphabetic
    runs lexicographically, and an alphabetic run (a pre-release suffix) is
    lower-valued than a numeric one. *)
Definition compare_component (a b : component) : comparison :=
  match a, b with
  | Num x, Num y => N.compare x y
  | Alpha x, Alpha y => String.compare x y
  | Alpha _, Num _ => Lt
  | Num _, Alpha _ => Gt
  end.

(** A missing trailing component is treated as zero. *)
Fixpoint pad (n : nat) (l : list component) : list component :=
  match n with
  | O => []
  | S n' =>
      match l with
      | [] => Num 0 :: pad n' []
      | x :: l' => x :: pad n' l'
      end
  end.

Fixpoint lex (a b : list component) : comparison :=
  match a, b with
  | [], [] => Eq
  | [], _ :: _ => Lt
  | _ :: _, [] => Gt
  | x :: a', y :: b' =>
      match compare_component x y with
      | Eq => lex a' b'
      | c => c
      end
  end.

(** Modelled from the spec: [compare(a, b)] of the version matcher. *)
Definition compare (a b : string) : comparison :=
  let ca := parse a in
  let cb := parse b in
  let n := Nat.max (List.length ca) (List.length cb) in
  lex (pad n ca) (pad n cb).

End Version.

(** ** A small installation to run the driver on

    Collaborators simple enough to run the driver by computation: a
    whitelist is the list of the names it masks, a whitelist source is the
    list it loads to, the store holds four derivations under every path (two
    of them with the same name), the NVD knows two products, and the world
    records the files written and whether the mirror is broken. *)
Module Toy.

Definition Whitelist : Type := list string.
Definition Resource : Type := list string.
Definition NVD : Type := (string * string)%type.
Definition File : Type := string.

Record World : Type := mkWorld {
  files : list (string * string);
  mirror_broken : bool
}.

Definition openssl_a : Derivation :=
  {| name := "openssl-1.0.1a"; pname := "openssl"; version := "1.0.1a";
     store_path := "/nix/store/aaa-openssl-1.0.1a.drv"; affected_by := [] |}.

Definition openssl_b : Derivation :=
  {| name := "openssl-1.0.1a"; pname := "openssl"; version := "1.0.1a";
     store_path := "/nix/store/bbb-openssl-1.0.1a.drv"; affected_by := [] |}.

Definition bash : Derivation :=
  {| name := "bash-4.3"; pname := "bash"; version := "4.3";
     store_path := "/nix/store/ccc-bash-4.3.drv"; affected_by := [] |}.

Definition hello : Derivation :=
  {| name := "hello-2.10"; pname := "hello"; version := "2.10";
     store_path := "/nix/store/ddd-hello-2.10.drv"; affected_by := [] |}.

Definition disk : list (string * Derivation) :=
  map (fun d => (store_path d, d)) [openssl_a; hello; bash; openssl_b].

Definition cves (product : string) : list string :=
  if String.eqb product "openssl" then ["CVE-2014-0160"; "CVE-2014-0076"]
  else if String.eqb product "bash" then ["CVE-2014-6271"]
  else [].

Definition masks (wl : Whitelist) (d : Derivation) : bool :=
  existsb (String.eqb (name d)) wl.

Definition mask (d : Derivation) : Masked :=
  {| deriv := d;
     rule := {| until := None; issue_url := []; comment := [] |};
     matchtype := MATCH_PERM |}.

Definition handle (X : Type) (op : Op Whitelist NVD Resource File X)
    (w : World) : result X * World :=
  match op in Op _ _ _ _ X return result X * World with
  | Whitelist_new => (inr [], w)
  | Whitelist_load wl => (inr wl, w)
  | Whitelist_merge self other => (inr (self ++ other)%list, w)
  | Whitelist_filter self ds =>
      (inr (filter (fun d => negb (masks self d)) ds,
            map mask (filter (masks self) ds)), w)
  | Whitelist_add_from self d => (inr (self ++ [name d])%list, w)
  | Whitelist_str self => (inr (String.concat nl self), w)
  | Store_new _ => (inr (mkStore []), w)
  | Store_add_gc_roots self => (inr self, w)
  | Store_add_path self _ => (inr (mkStore disk), w)
  | NVD_new mirror cache_dir => (inr (mirror, cache_dir), w)
  | NVD_enter _ => (inr tt, w)
  | NVD_update _ =>
      if mirror_broken w then (inl (RuntimeError "mirror unreachable"), w)
      else (inr tt, w)
  | NVD_exit _ _ => (inr tt, w)
  | Timer_enter _ => (inr tt, w)
  | Timer_exit _ _ => (inr tt, w)
  | Derivation_check self _ => (inr (cves (pname self)), w)
  | File_write f s =>
      (inr tt, {| files := (files w ++ [(f, s)])%list;
                  mirror_broken := mirror_broken w |})
  end.

Definition lt (a b : Derivation) : bool := String.ltb (name a) (name b).
Definition cve_url (cve : string) : string :=
  "https://nvd.nist.gov/vuln/detail/" ++ cve.
Definition dumps (j : JSON) : string := "<json>".

Definition nvd0 : NVD := ("https://nvd.nist.gov/feeds/", "~/.cache/vulnix").

Definition world0 : World := {| files := []; mirror_broken := false |}.
Definition world_broken : World := {| files := []; mirror_broken := true |}.

(** The driver on this installation. *)
Definition vulnix (verbose : nat) (gc_roots system : bool) (path : list string)
    (whitelist : list Resource) (write_whitelist : option File)
    (version json show_whitelisted : bool) (w : World) :=
  interp handle
    (main lt cve_url "1.10.1" dumps verbose gc_roots system path
       "https://nvd.nist.gov/feeds/" "~/.cache/vulnix" true
       whitelist write_whitelist version json show_whitelisted true false) w.

(** A scan of ./result with bash whitelisted, the findings frozen into
    whitelist.toml; a scan while the mirror is broken; and a scan with JSON
    output of whitelisted items. *)
Definition frozen_scan :=
  vulnix 0 false false ["./result"] [["bash-4.3"]] (Some "whitelist.toml")
    false false false world0.

Definition broken_scan :=
  vulnix 0 false false ["./result"] [] None false false false world_broken.

Definition json_scan :=
  vulnix 0 false false ["./result"] [] None false true true world0.

(** [run] on the store that holds [disk]. *)
Definition run_disk :=
  interp handle (run nvd0 (mkStore disk)) world0.

End Toy.

(** ** The small installation with failing calls

    As the small installation, except that the check of bash raises a
    KeyError and that the path /missing cannot be added to the store. *)
Module Faulty.

Definition handle (X : Type)
    (op : Op Toy.Whitelist Toy.NVD Toy.Resource Toy.File X)
    (w : Toy.World) : result X * Toy.World :=
  match op in Op _ _ _ _ X return result X * Toy.World with
  | Derivation_check self nvd =>
      if String.eqb (pname self) "bash"
      then (inl (OtherError "KeyError" "bash"), w)
      else Toy.handle _ (Derivation_check self nvd) w
  | Store_add_path self path =>
      if String.eqb path "/missing"
      then (inl (RuntimeError "path does not exist"), w)
      else Toy.handle _ (Store_add_path self path) w
  | op => Toy.handle _ op w
  end.

(** A scan of ./result, [run] on the store that holds [Toy.disk], and a
    store populated from the GC roots and three paths. *)
Definition scan :=
  interp handle
    (main Toy.lt Toy.cve_url "1.10.1" Toy.dumps 0 false false ["./result"]
       "https://nvd.nist.gov/feeds/" "~/.cache/vulnix" true
       [] None false false false true false) Toy.world0.

Definition run_disk :=
  interp handle (run Toy.nvd0 (mkStore Toy.disk)) Toy.world0.

Definition populate :=
  interp handle
    (populate_store true ["./result"; "/missing"; "./other"] true) Toy.world0.

End Faulty.



(** * Facts *)

(** ** Strings are totally ordered by [<] *)

Lemma str_ltb_lt a b : String.ltb a b = true <-> String_as_OT.lt a b.
Proof.
  unfold String.ltb. rewrite <- String_as_OT.cmp_lt. unfold String_as_OT.cmp.
  destruct (String.compare a b); split; congruence.
Qed.

Lemma str_ltb_irrefl a : String.ltb a a = false.
Proof.
  unfold String.ltb.
  replace (String.compare a a) with Eq; [reflexivity|].
  symmetry. apply String_as_OT.cmp_eq. reflexivity.
Qed.

Lemma str_ltb_trans a b c :
  String.ltb a b = true -> String.ltb b c = true -> String.ltb a c = true.
Proof.
  rewrite !str_ltb_lt. apply String_as_OT.lt_trans.
Qed.

Lemma str_ltb_asym a b : String.ltb a b = true -> String.ltb b a = false.
Proof.
  intros Hab. destruct (String.ltb b a) eqn:Hba; [|reflexivity].
  pose proof (str_ltb_trans _ _ _ Hab Hba) as H.
  rewrite str_ltb_irrefl in H. discriminate.
Qed.

Lemma str_ltb_total a b :
  String.ltb a b = false -> String.ltb b a = false -> a = b.
Proof.
  unfold String.ltb. intros Hab Hba.
  apply String_as_OT.cmp_eq. unfold String_as_OT.cmp.
  pose proof (String_as_OT.cmp_antisym a b) as Hanti.
  unfold String_as_OT.cmp in Hanti.
  destruct (String.compare a b); [reflexivity|discriminate|].
  destruct (String.compare b a); simpl in Hanti; discriminate.
Qed.

Lemma str_le_trans a b c : str_le a b -> str_le b c -> str_le a c.
Proof.
  unfold str_le. intros Hab Hbc.
  destruct (String.ltb c a) eqn:Hca; [|reflexivity].
  destruct (String.ltb a b) eqn:Hlt.
  - rewrite (str_ltb_trans _ _ _ Hca Hlt) in Hbc. discriminate.
  - rewrite (str_ltb_total _ _ Hlt Hab) in Hca. congruence.
Qed.

(** ** [sorted] sorts, and is stable *)

Section SortedFacts.

Context {A : Type} (lt : A -> A -> bool).

Lemma insert_sorted_perm x l : Permutation (insert_sorted lt x l) (x :: l).
Proof.
  induction l as [|y l IH]; simpl.
  - apply Permutation_refl.
  - destruct (lt y x).
    + apply perm_trans with (y :: x :: l).
      * apply perm_skip, IH.
      * apply perm_swap.
    + apply Permutation_refl.
Qed.

Lemma sorted_perm l : Permutation (sorted lt l) l.
Proof.
  induction l as [|x l IH]; simpl.
  - apply perm_nil.
  - apply perm_trans with (x :: sorted lt l).
    + apply insert_sorted_perm.
    + apply perm_skip, IH.
Qed.

Lemma sorted_length l : List.length (sorted lt l) = List.length l.
Proof. apply Permutation_length, sorted_perm. Qed.

Lemma sorted_In x l : In x (sorted lt l) <-> In x l.
Proof.
  split; apply Permutation_in;
    [apply sorted_perm | apply Permutation_sym, sorted_perm].
Qed.

(** Equal elements (none less than another) keep their order. *)
Lemma insert_sorted_filter (P : A -> bool) x l :
  (forall a b, P a = true -> P b = true -> lt a b = false) ->
  filter P (insert_sorted lt x l) = filter P (x :: l).
Proof.
  intros Heq. induction l as [|y l IH]; [reflexivity|].
  simpl. destruct (lt y x) eqn:Hyx; [|reflexivity].
  simpl in *. destruct (P y) eqn:Py.
  - destruct (P x) eqn:Px.
    + rewrite (Heq y x Py Px) in Hyx. discriminate.
    + f_equal. exact IH.
  - exact IH.
Qed.

Lemma sorted_stable (P : A -> bool) l :
  (forall a b, P a = true -> P b = true -> lt a b = false) ->
  filter P (sorted lt l) = filter P l.
Proof.
  intros Heq. induction l as [|x l IH]; [reflexivity|].
  simpl sorted. rewrite insert_sorted_filter by exact Heq.
  simpl. rewrite IH. reflexivity.
Qed.

(** With [<] a strict total order up to equivalence, the result is in
    non-decreasing order. *)
Hypothesis lt_asym : forall a b, lt a b = true -> lt b a = false.
Hypothesis le_trans :
  forall a b c, lt b a = false -> lt c b = false -> lt c a = false.

Let le (a b : A) : Prop := lt b a = false.

Lemma insert_sorted_sorted x l :
  StronglySorted le l -> StronglySorted le (insert_sorted lt x l).
Proof.
  induction 1 as [|y l Hs IH Hall]; simpl.
  - constructor; constructor.
  - destruct (lt y x) eqn:Hyx.
    + constructor; [exact IH|].
      apply Forall_forall. intros z Hz.
      apply (Permutation_in _ (insert_sorted_perm x l)) in Hz.
      destruct Hz as [<-|Hz].
      * apply lt_asym, Hyx.
      * rewrite Forall_forall in Hall. apply Hall, Hz.
    + constructor; [constructor; assumption|].
      constructor; [exact Hyx|].
      apply Forall_forall. intros z Hz.
      rewrite Forall_forall in Hall.
      apply le_trans with y; [exact Hyx | apply Hall, Hz].
Qed.

Lemma sorted_sorted l : StronglySorted le (sorted lt l).
Proof.
  induction l as [|x l IH]; simpl.
  - constructor.
  - apply insert_sorted_sorted, IH.
Qed.

End SortedFacts.

Lemma sorted_key_sorted {A : Type} (key : A -> string) (l : list A) :
  StronglySorted (fun a b => str_le (key a) (key b)) (sorted_key key l).
Proof.
  unfold sorted_key.
  apply (sorted_sorted (fun a b => String.ltb (key a) (key b))).
  - intros a b. apply str_ltb_asym.
  - intros a b c. apply str_le_trans.
Qed.

Lemma sorted_key_stable {A : Type} (key : A -> string) (k : string) (l : list A) :
  filter (fun a => String.eqb (key a) k) (sorted_key key l)
  = filter (fun a => String.eqb (key a) k) l.
Proof.
  apply sorted_stable. intros a b Ha Hb.
  apply String.eqb_eq in Ha, Hb. rewrite Ha, Hb. apply str_ltb_irrefl.
Qed.

Lemma sorted_strings_sorted (l : list string) :
  StronglySorted str_le (sorted String.ltb l).
Proof.
  apply (sorted_sorted String.ltb).
  - apply str_ltb_asym.
  - intros a b c. apply str_le_trans.
Qed.

(** ** Dicts in insertion order *)

Lemma find_append {A : Type} (f : A -> bool) (l1 l2 : list A) :
  find f (l1 ++ l2)%list
  = match find f l1 with Some x => Some x | None => find f l2 end.
Proof.
  induction l1 as [|x l1 IH]; simpl; [reflexivity|].
  destruct (f x); [reflexivity | exact IH].
Qed.

Section DictFacts.

Context {V : Type}.
Implicit Types (d : list (string * V)) (k : string) (v : V).

Lemma dict_get_set_same k v d : dict_get k (dict_set k v d) = Some v.
Proof.
  unfold dict_get. induction d as [|[k' v'] d IH]; simpl.
  - rewrite String.eqb_refl. reflexivity.
  - destruct (String.eqb k' k) eqn:E; simpl; rewrite E; [reflexivity | exact IH].
Qed.

Lemma dict_get_set_other k k' v d :
  k' <> k -> dict_get k' (dict_set k v d) = dict_get k' d.
Proof.
  intros Hne. unfold dict_get. induction d as [|[k0 v0] d IH]; simpl.
  - apply String.eqb_neq in Hne. rewrite String.eqb_sym, Hne. reflexivity.
  - destruct (String.eqb k0 k) eqn:E; simpl.
    + apply String.eqb_eq in E. subst k0.
      apply String.eqb_neq in Hne. rewrite String.eqb_sym, Hne. reflexivity.
    + destruct (String.eqb k0 k'); [reflexivity | exact IH].
Qed.

Lemma dict_set_keys k v d k' :
  In k' (map fst (dict_set k v d)) <-> k' = k \/ In k' (map fst d).
Proof.
  induction d as [|[k0 v0] d IH]; simpl.
  - intuition.
  - destruct (String.eqb k0 k) eqn:E; simpl.
    + apply String.eqb_eq in E. subst k0. intuition.
    + rewrite IH. intuition.
Qed.

Lemma dict_set_NoDup k v d :
  NoDup (map fst d) -> NoDup (map fst (dict_set k v d)).
Proof.
  induction d as [|[k0 v0] d IH]; simpl; intros Hnd.
  - constructor; [intros [] | constructor].
  - inversion Hnd as [|? ? Hnotin Hnd']; subst.
    destruct (String.eqb k0 k) eqn:E; simpl.
    + constructor; assumption.
    + constructor; [|apply IH, Hnd'].
      rewrite dict_set_keys. intros [->|Hin]; [|contradiction].
      rewrite String.eqb_refl in E. discriminate.
Qed.

Lemma dict_get_In k v d :
  NoDup (map fst d) -> (In (k, v) d <-> dict_get k d = Some v).
Proof.
  unfold dict_get. induction d as [|[k0 v0] d IH]; simpl; intros Hnd.
  - split; [intros [] | discriminate].
  - inversion Hnd as [|? ? Hnotin Hnd']; subst.
    destruct (String.eqb k0 k) eqn:E; simpl.
    + apply String.eqb_eq in E. subst k0. split.
      * intros [Heq|Hin]; [congruence|].
        exfalso. apply Hnotin. change k with (fst (k, v)). apply in_map, Hin.
      * intros Heq. left. congruence.
    + rewrite <- (IH Hnd'). split; [|tauto].
      intros [Heq|Hin]; [|exact Hin].
      inversion Heq; subst. rewrite String.eqb_refl in E. discriminate.
Qed.

Variable key : V -> string.

Lemma dict_fold_NoDup xs d :
  NoDup (map fst d) ->
  NoDup (map fst (fold_left (fun d x => dict_set (key x) x d) xs d)).
Proof.
  revert d. induction xs as [|x xs IH]; simpl; intros d Hnd.
  - exact Hnd.
  - apply IH, dict_set_NoDup, Hnd.
Qed.

(** The value under a key is the last element with that key. *)
Lemma dict_fold_get xs d k :
  dict_get k (fold_left (fun d x => dict_set (key x) x d) xs d)
  = match find (fun x => String.eqb (key x) k) (rev xs) with
    | Some x => Some x
    | None => dict_get k d
    end.
Proof.
  revert d. induction xs as [|x xs IH]; simpl; intros d.
  - reflexivity.
  - rewrite IH, find_append.
    destruct (find (fun x0 => String.eqb (key x0) k) (rev xs)); [reflexivity|].
    simpl. destruct (String.eqb (key x) k) eqn:E.
    + apply String.eqb_eq in E. subst k. apply dict_get_set_same.
    + apply dict_get_set_other. intros ->.
      rewrite String.eqb_refl in E. discriminate.
Qed.

Lemma dict_of_NoDup xs : NoDup (map fst (dict_of key xs)).
Proof. apply dict_fold_NoDup. constructor. Qed.

Lemma dict_of_get xs k :
  dict_get k (dict_of key xs) = find (fun x => String.eqb (key x) k) (rev xs).
Proof.
  unfold dict_of. rewrite dict_fold_get.
  destruct (find _ (rev xs)); reflexivity.
Qed.

Lemma dict_of_In xs k v :
  In (k, v) (dict_of key xs)
  <-> find (fun x => String.eqb (key x) k) (rev xs) = Some v.
Proof. rewrite dict_get_In by apply dict_of_NoDup. rewrite dict_of_get. tauto. Qed.

Lemma dict_of_key xs k v : In (k, v) (dict_of key xs) -> k = key v.
Proof.
  rewrite dict_of_In. intros Hf. apply find_some in Hf.
  destruct Hf as [_ Hk]. apply String.eqb_eq in Hk. congruence.
Qed.

Lemma dict_of_values_keys xs :
  map key (values (dict_of key xs)) = map fst (dict_of key xs).
Proof.
  unfold values. rewrite map_map. apply map_ext_in.
  intros [k v] Hin. simpl. symmetry. apply dict_of_key with xs, Hin.
Qed.

(** A value survives exactly when it is the last element with its key. *)
Lemma dict_of_values_In xs v :
  In v (values (dict_of key xs))
  <-> find (fun x => String.eqb (key x) (key v)) (rev xs) = Some v.
Proof.
  unfold values. rewrite in_map_iff. split.
  - intros [[k v'] [Heq Hin]]. simpl in Heq. subst v'.
    pose proof (dict_of_key _ _ _ Hin). subst k.
    apply dict_of_In, Hin.
  - intros Hf. exists (key v, v). split; [reflexivity|].
    apply dict_of_In, Hf.
Qed.

Lemma dict_of_values_NoDup xs : NoDup (map key (values (dict_of key xs))).
Proof. rewrite dict_of_values_keys. apply dict_of_NoDup. Qed.

Lemma dict_of_values_cover xs x :
  In x xs -> In (key x) (map key (values (dict_of key xs))).
Proof.
  intros Hin.
  destruct (find (fun y => String.eqb (key y) (key x)) (rev xs)) as [v|] eqn:Hf.
  - pose proof (find_some _ _ Hf) as [_ Hk]. apply String.eqb_eq in Hk.
    rewrite <- Hk. apply in_map. apply dict_of_values_In.
    rewrite Hk. exact Hf.
  - apply find_none with (x := x) in Hf; [|apply in_rev; rewrite rev_involutive; exact Hin].
    rewrite String.eqb_refl in Hf. discriminate.
Qed.

End DictFacts.

(** ** Runs of programs *)

Section InterpFacts.

Context {Whitelist NVD Resource File World : Type}.
Variable h : forall X : Type,
  Op Whitelist NVD Resource File X -> World -> result X * World.

Local Abbreviation Prog := (Prog Whitelist NVD Resource File).
Local Abbreviation trace := (trace Whitelist NVD Resource File).

Lemma interp_bind {A B : Type} (p : Prog A) (f : A -> Prog B) w :
  interp h (bind_prog p f) w
  = let '(tr1, r1, w1) := interp h p w in
    match r1 with
    | inl e => (tr1, inl e, w1)
    | inr a => let '(tr2, r2, w2) := interp h (f a) w1 in
               ((tr1 ++ tr2)%list, r2, w2)
    end.
Proof.
  revert w. induction p as [a|e|o k IH|X op k IH]; intros w; simpl.
  - destruct (interp h (f a) w) as [[tr2 r2] w2]. reflexivity.
  - reflexivity.
  - rewrite IH. destruct (interp h k w) as [[tr1 r1] w1].
    destruct r1 as [e|a]; [reflexivity|].
    destruct (interp h (f a) w1) as [[tr2 r2] w2]. reflexivity.
  - destruct (h X op w) as [x w1]. rewrite IH.
    destruct (interp h (k x) w1) as [[tr1 r1] w1'].
    destruct r1 as [e|a]; [reflexivity|].
    destruct (interp h (f a) w1') as [[tr2 r2] w2]. reflexivity.
Qed.

Lemma interp_attempt {A : Type} (p : Prog A) w :
  interp h (attempt p) w
  = let '(tr, r, w') := interp h p w in (tr, inr r, w').
Proof.
  revert w. induction p as [a|e|o k IH|X op k IH]; intros w; simpl;
    try reflexivity.
  - rewrite IH. destruct (interp h k w) as [[tr r] w']. reflexivity.
  - destruct (h X op w) as [x w1]. rewrite IH.
    destruct (interp h (k x) w1) as [[tr r] w']. reflexivity.
Qed.

Lemma interp_call {X : Type} (op : Op Whitelist NVD Resource File X) w :
  interp h (call op) w = ([EvCall op (fst (h X op w))], fst (h X op w), snd (h X op w)).
Proof.
  unfold call. simpl. destruct (h X op w) as [[e|x] w1]; reflexivity.
Qed.

Lemma interp_out (o : emission) w :
  interp h (out o) w = ([EvOut o], inr tt, w).
Proof. reflexivity. Qed.

(** [with]: enter, body, exit; the exit sees how the body ended. *)
Lemma interp_with {A : Type} enter exit (body : Prog A) w :
  interp h (with_ enter exit body) w
  = match h unit enter w with
    | (inl e, w1) => ([EvCall enter (inl e)], inl e, w1)
    | (inr u, w1) =>
        let '(trb, rb, w2) := interp h body w1 in
        let exc := match rb with inl e => Some e | inr _ => None end in
        let '(x, w3) := h unit (exit exc) w2 in
        ((EvCall enter (inr u) :: trb ++ [EvCall (exit exc) x])%list,
         match x with inl e' => inl e' | inr _ => rb end, w3)
    end.
Proof.
  unfold with_. cbn [bind ret Monad_Prog].
  rewrite interp_bind, interp_call.
  destruct (h unit enter w) as [[e|u] w1]; [reflexivity|]. cbn [fst snd].
  rewrite interp_bind, interp_attempt.
  destruct (interp h body w1) as [[trb rb] w2].
  destruct rb as [e|a]; rewrite interp_bind, interp_call.
  - destruct (h unit (exit (Some e)) w2) as [[e'|u'] w3]; reflexivity.
  - destruct (h unit (exit None) w2) as [[e'|u'] w3]; cbn [fst snd];
      reflexivity.
Qed.

Lemma interp_try_except {A : Type} (p : Prog A) handler w :
  interp h (try_except p handler) w
  = let '(tr, r, w1) := interp h p w in
    match r with
    | inr a => (tr, inr a, w1)
    | inl e =>
        match handler e with
        | Some q => let '(tr2, r2, w2) := interp h q w1 in
                    ((tr ++ tr2)%list, r2, w2)
        | None => (tr, inl e, w1)
        end
    end.
Proof.
  unfold try_except. cbn [bind ret Monad_Prog].
  rewrite interp_bind, interp_attempt.
  destruct (interp h p w) as [[tr r] w1].
  destruct r as [e|a]; simpl.
  - destruct (handler e) as [q|]; simpl.
    + destruct (interp h q w1) as [[tr2 r2] w2]. reflexivity.
    + rewrite app_nil_r. reflexivity.
  - rewrite app_nil_r. reflexivity.
Qed.

End InterpFacts.

(** ** Traces *)

Section TraceFacts.

Context {Whitelist NVD Resource File : Type}.

Local Abbreviation trace := (trace Whitelist NVD Resource File).

Implicit Types tr : trace.

Lemma failures_app tr1 tr2 :
  failures (tr1 ++ tr2) = (failures tr1 ++ failures tr2)%list.
Proof. apply flat_map_app. Qed.

Lemma emitted_app tr1 tr2 :
  emitted (tr1 ++ tr2) = (emitted tr1 ++ emitted tr2)%list.
Proof. apply flat_map_app. Qed.

Lemma filter_results_app tr1 tr2 :
  filter_results (tr1 ++ tr2) = (filter_results tr1 ++ filter_results tr2)%list.
Proof. apply flat_map_app. Qed.

Lemma add_from_calls_app tr1 tr2 :
  add_from_calls (tr1 ++ tr2) = (add_from_calls tr1 ++ add_from_calls tr2)%list.
Proof. apply flat_map_app. Qed.

Lemma file_writes_app tr1 tr2 :
  file_writes (tr1 ++ tr2) = (file_writes tr1 ++ file_writes tr2)%list.
Proof. apply flat_map_app. Qed.

Lemma last_failure_nil tr : failures tr = [] -> last_failure tr = None.
Proof. unfold last_failure. intros ->. reflexivity. Qed.

Lemma last_failure_None tr : last_failure tr = None <-> failures tr = [].
Proof.
  split; [|apply last_failure_nil].
  unfold last_failure.
  induction (failures tr) as [|e l _] using rev_ind; [reflexivity|].
  rewrite map_app. simpl map. rewrite last_last. discriminate.
Qed.

Lemma last_failure_app tr1 tr2 :
  last_failure (tr1 ++ tr2)
  = match last_failure tr2 with
    | Some e => Some e
    | None => last_failure tr1
    end.
Proof.
  unfold last_failure. rewrite failures_app, map_app.
  generalize (map Some (failures tr1)) as l1. intros l1.
  induction (failures tr2) as [|e l _] using rev_ind.
  - simpl. rewrite app_nil_r. reflexivity.
  - rewrite map_app. simpl map. rewrite app_assoc, !last_last. reflexivity.
Qed.

End TraceFacts.

(** ** [run] *)

Section RunFacts.

Context {Whitelist NVD Resource File World : Type}.
Variable h : forall X : Type,
  Op Whitelist NVD Resource File X -> World -> result X * World.

Local Abbreviation check_events := (@check_events Whitelist NVD Resource File).

Lemma checked_check_events nvd ds idss :
  checked (check_events nvd ds idss) = check_outcomes ds idss.
Proof.
  unfold check_events, check_outcomes.
  induction (combine ds idss) as [|p l IH]; simpl; [reflexivity|].
  f_equal. exact IH.
Qed.

Lemma check_calls_check_events nvd ds idss :
  List.length idss = List.length ds ->
  check_calls (check_events nvd ds idss) = map (fun d => (d, nvd)) ds.
Proof.
  unfold check_events. revert idss.
  induction ds as [|d ds IH]; intros [|ids idss] Hlen; simpl in *;
    try reflexivity; try discriminate.
  f_equal. apply IH. congruence.
Qed.

Lemma failures_check_events nvd ds idss :
  failures (check_events nvd ds idss) = [].
Proof.
  unfold check_events.
  induction (combine ds idss) as [|p l IH]; simpl; [reflexivity | exact IH].
Qed.

Lemma check_outcomes_Forall2 ds idss :
  List.length idss = List.length ds ->
  Forall2 (fun d0 d => d = set_affected_by d0 (affected_by d))
          ds (check_outcomes ds idss).
Proof.
  unfold check_outcomes. revert idss.
  induction ds as [|d ds IH]; intros [|ids idss] Hlen; simpl in *;
    try discriminate; constructor.
  - reflexivity.
  - apply IH. congruence.
Qed.

(** The loop of [run]: every derivation is checked, in order, unless a check
    raises, and the affected ones are appended to the list. *)
Lemma run_loop nvd ds : forall acc w tr r w',
  interp h
    (for_fold ds acc
       (fun affected derivation =>
          bind_prog (call (Derivation_check derivation nvd))
            (fun ids =>
               let derivation := set_affected_by derivation ids in
               if is_affected derivation
               then Ret (affected ++ [derivation])%list
               else Ret affected))) w = (tr, r, w') ->
  match r with
  | inr res =>
      exists idss, List.length idss = List.length ds /\
        tr = check_events nvd ds idss /\
        res = (acc ++ filter is_affected (check_outcomes ds idss))%list
  | inl e => last_failure tr = Some e
  end.
Proof.
  induction ds as [|d ds IH]; intros acc w tr r w' Hrun.
  - simpl in Hrun. inversion Hrun; subst. exists []. simpl.
    rewrite app_nil_r. auto.
  - cbn [for_fold bind ret Monad_Prog] in Hrun.
    rewrite interp_bind, interp_bind, interp_call in Hrun.
    destruct (h _ (Derivation_check d nvd) w) as [[e|ids] w1]; cbn [fst snd] in Hrun.
    + inversion Hrun; subst. reflexivity.
    + set (d' := set_affected_by d ids) in *.
      assert (Hbody : exists acc',
                 interp h (if is_affected d' then Ret (acc ++ [d'])%list else Ret acc) w1
                 = ([], inr acc', w1)
                 /\ acc' = (acc ++ filter is_affected [d'])%list).
      { simpl. destruct (is_affected d'); eexists; split; try reflexivity.
        rewrite app_nil_r. reflexivity. }
      destruct Hbody as (acc' & Hb & Hacc). cbv zeta in Hrun.
      fold d' in Hrun. rewrite Hb in Hrun. cbn [app] in Hrun.
      destruct (interp h (for_fold ds acc' _) w1) as [[tr2 r2] w2] eqn:Hrest.
      apply IH in Hrest. inversion Hrun; subst tr r w'. clear Hrun.
      destruct r2 as [e|res].
      * change (EvCall (Derivation_check d nvd) (inr ids) :: tr2)
          with ([EvCall (Derivation_check d nvd) (inr ids)] ++ tr2)%list.
        rewrite last_failure_app, Hrest. reflexivity.
      * destruct Hrest as (idss & Hlen & -> & ->).
        exists (ids :: idss). split; [simpl; congruence|]. split; [reflexivity|].
        subst acc'. rewrite <- app_assoc. f_equal.
        change (check_outcomes (d :: ds) (ids :: idss))
          with ([d'] ++ check_outcomes ds idss)%list.
        symmetry. apply filter_app.
Qed.

Lemma interp_run nvd store w tr r w' :
  interp h (run nvd store) w = (tr, r, w') ->
  match r with
  | inr res =>
      exists idss,
        List.length idss = List.length (values (derivations store)) /\
        tr = check_events nvd (values (derivations store)) idss /\
        res = values (dict_of name
                (filter is_affected
                   (check_outcomes (values (derivations store)) idss)))
  | inl e => last_failure tr = Some e
  end.
Proof.
  unfold run. cbn [bind ret Monad_Prog]. rewrite interp_bind.
  destruct (interp h (for_fold _ _ _) w) as [[tr1 r1] w1] eqn:Hloop.
  apply run_loop in Hloop. destruct r1 as [e|affected].
  - intros Heq. inversion Heq; subst. exact Hloop.
  - simpl. intros Heq. inversion Heq; subst.
    destruct Hloop as (idss & Hlen & -> & ->).
    exists idss. rewrite app_nil_r. auto.
Qed.

Lemma is_affected_true d : is_affected d = true <-> affected_by d <> [].
Proof.
  unfold is_affected. destruct (affected_by d); split; congruence.
Qed.

(** C3: [run] calls [check] on every derivation of the store, a derivation
    is in the result only if it is affected after its check, and the name of
    every affected derivation is in the result. *)
Theorem run_checks_every_derivation nvd store w tr r w' :
  interp h (run nvd store) w = (tr, r, w') ->
  failures tr = [] ->
  check_calls tr = map (fun d => (d, nvd)) (values (derivations store)) /\
  exists res, r = inr res /\
    (forall d, In d res -> In d (checked tr) /\ affected_by d <> []) /\
    (forall d, In d (checked tr) -> affected_by d <> [] ->
               In (name d) (map name res)).
Proof.
  intros Hrun Hok. apply interp_run in Hrun. destruct r as [e|res].
  - rewrite (last_failure_nil _ Hok) in Hrun. discriminate.
  - destruct Hrun as (idss & Hlen & -> & ->).
    rewrite check_calls_check_events by exact Hlen.
    rewrite checked_check_events.
    split; [reflexivity|]. eexists. split; [reflexivity|]. split.
    + intros d Hin. apply dict_of_values_In in Hin. apply find_some in Hin.
      destruct Hin as [Hin _]. apply in_rev in Hin.
      apply filter_In in Hin. destruct Hin as [Hin Haff].
      split; [exact Hin | apply is_affected_true, Haff].
    + intros d Hin Haff. apply dict_of_values_cover.
      apply filter_In. split; [exact Hin | apply is_affected_true, Haff].
Qed.

(** C2: the result of [run] has at most one derivation per name; every name
    of an affected derivation has exactly one representative, and that is the
    affected derivation the store yields last under the name. *)
Theorem run_one_derivation_per_name nvd store w tr res w' :
  interp h (run nvd store) w = (tr, inr res, w') ->
  let affected := filter is_affected (checked tr) in
  Forall2 (fun d0 d => d = set_affected_by d0 (affected_by d))
          (values (derivations store)) (checked tr) /\
  NoDup (map name res) /\
  (forall n, In n (map name res) <-> In n (map name affected)) /\
  (forall d, In d res
             <-> find (fun x => String.eqb (name x) (name d)) (rev affected)
                 = Some d).
Proof.
  intros Hrun. apply interp_run in Hrun.
  destruct Hrun as (idss & Hlen & -> & ->).
  rewrite checked_check_events. cbv zeta.
  split; [apply check_outcomes_Forall2, Hlen|].
  split; [apply dict_of_values_NoDup|]. split.
  - intros n. split.
    + rewrite !in_map_iff. intros (d & Hn & Hin). exists d. split; [exact Hn|].
      apply dict_of_values_In in Hin. apply find_some in Hin.
      apply in_rev, Hin.
    + rewrite in_map_iff. intros (d & <- & Hin).
      apply dict_of_values_cover, Hin.
  - intros d. apply dict_of_values_In.
Qed.

End RunFacts.

(** ** Output, usage and version *)

Section OutputFacts.

Context {Whitelist NVD Resource File World : Type}.
Variable h : forall X : Type,
  Op Whitelist NVD Resource File X -> World -> result X * World.

Variable Derivation_lt : Derivation -> Derivation -> bool.
Variables (cve_url : string -> string) (vulnix_version : string).
Variable json_dumps : JSON -> string.

(** C4: the JSON output holds one record per derivation, with the name, the
    pname, the version, the store path and the sorted list of the CVE
    identifiers of the derivation, and the records are in the order of their
    pname. *)
Theorem output_json_one_record_per_derivation derivations w :
  exists ds,
    Permutation ds derivations /\
    StronglySorted (fun a b => str_le (pname a) (pname b)) ds /\
    interp h (output_json json_dumps derivations false) w
    = ([EvOut (Print (json_dumps (JList (map json_record ds))))], inr tt, w) /\
    List.length (map json_record ds) = List.length derivations /\
    forall d, exists ids,
      Permutation ids (affected_by d) /\
      StronglySorted str_le ids /\
      json_record d
      = JDict [ ("name", JString (name d));
                ("pname", JString (pname d));
                ("version", JString (version d));
                ("derivation", JString (store_path d));
                ("affected_by", JList (map JString ids)) ].
Proof.
  exists (sorted_key pname derivations).
  split; [apply sorted_perm|].
  split; [apply sorted_key_sorted|].
  split; [reflexivity|].
  split; [rewrite length_map; apply sorted_length|].
  intros d. exists (sorted String.ltb (affected_by d)).
  split; [apply sorted_perm|].
  split; [apply sorted_strings_sorted | reflexivity].
Qed.

(** C6: without a scan target and without the version flag, [main] prints
    the usage text and exits with status 3; nothing else happens: no call to
    the whitelist, the store or the NVD. *)
Theorem no_scan_target_exits_3
    verbose mirror cache_dir requisites whitelist write_whitelist
    json show_whitelisted default_whitelist notfixed w :
  exists head tail,
    head ++ nl ++ tail = __doc__ /\
    interp h
      (main Derivation_lt cve_url vulnix_version json_dumps
         verbose false false [] mirror cache_dir requisites
         whitelist write_whitelist false json show_whitelisted
         default_whitelist notfixed) w
    = ([EvOut (Secho head "yellow"); EvOut (Echo tail false)],
       inl (SystemExit 3), w).
Proof.
  eexists. eexists. split; [|reflexivity]. reflexivity.
Qed.

(** C10: with the version flag, [main] prints the version of the package and
    exits with status 0, whatever the scan target; nothing else happens. *)
Theorem version_flag_exits_0
    verbose gc_roots system path mirror cache_dir requisites whitelist
    write_whitelist json show_whitelisted default_whitelist notfixed w :
  interp h
    (main Derivation_lt cve_url vulnix_version json_dumps
       verbose gc_roots system path mirror cache_dir requisites
       whitelist write_whitelist true json show_whitelisted
       default_whitelist notfixed) w
  = ([EvOut (Print ("vulnix " ++ vulnix_version))], inl (SystemExit 0), w).
Proof. reflexivity. Qed.

End OutputFacts.

(** ** Programs that scan, programs that print *)

Section ScanFacts.

Context {Whitelist NVD Resource File World : Type}.
Variable h : forall X : Type,
  Op Whitelist NVD Resource File X -> World -> result X * World.

Local Abbreviation Prog := (Prog Whitelist NVD Resource File).
Local Abbreviation event := (event Whitelist NVD Resource File).

Implicit Types P : event -> bool.

Lemma scans_ret {A : Type} P (a : A) : scans h P (Ret a).
Proof.
  intros w tr r w' Hrun. inversion Hrun; subst. split; reflexivity.
Qed.

Lemma scans_call {X : Type} P (op : Op Whitelist NVD Resource File X) :
  (forall r, P (EvCall op r) = true) -> scans h P (call op).
Proof.
  intros HP w tr r w' Hrun. rewrite interp_call in Hrun.
  inversion Hrun; subst. split.
  - simpl. rewrite HP. reflexivity.
  - destruct (fst (h X op w)); reflexivity.
Qed.

Lemma scans_bind {A B : Type} P (p : Prog A) (f : A -> Prog B) :
  scans h P p -> (forall a, scans h P (f a)) -> scans h P (bind_prog p f).
Proof.
  intros Hp Hf w tr r w' Hrun. rewrite interp_bind in Hrun.
  destruct (interp h p w) as [[tr1 r1] w1] eqn:H1.
  apply Hp in H1. destruct H1 as [HP1 Hr1].
  destruct r1 as [e|a].
  - inversion Hrun; subst. split; assumption.
  - destruct (interp h (f a) w1) as [[tr2 r2] w2] eqn:H2.
    apply Hf in H2. destruct H2 as [HP2 Hr2].
    inversion Hrun; subst. split.
    + rewrite forallb_app, HP1, HP2. reflexivity.
    + destruct r as [e|b].
      * rewrite last_failure_app, Hr2. reflexivity.
      * rewrite failures_app, Hr1, Hr2. reflexivity.
Qed.

Lemma scans_with {A : Type} P enter exit (body : Prog A) :
  (forall r, P (EvCall enter r) = true) ->
  (forall exc r, P (EvCall (exit exc) r) = true) ->
  scans h P body -> scans h P (with_ enter exit body).
Proof.
  intros Henter Hexit Hbody w tr r w' Hrun. rewrite interp_with in Hrun.
  destruct (h unit enter w) as [[e|u] w1].
  - inversion Hrun; subst. split; [simpl; rewrite Henter|]; reflexivity.
  - destruct (interp h body w1) as [[trb rb] w2] eqn:Hb.
    apply Hbody in Hb. destruct Hb as [HPb Hrb].
    cbv zeta in Hrun.
    set (exc := match rb with inl e => Some e | inr _ => None end) in Hrun.
    destruct (h unit (exit exc) w2) as [x w3].
    inversion Hrun; subst tr r w'. clear Hrun. split.
    + simpl. rewrite Henter, forallb_app, HPb. simpl. rewrite Hexit. reflexivity.
    + change (EvCall enter (inr u) :: trb ++ [EvCall (exit exc) x])%list
        with ([EvCall enter (inr u)] ++ trb ++ [EvCall (exit exc) x])%list.
      destruct x as [e'|u'].
      * rewrite !last_failure_app. reflexivity.
      * destruct rb as [e|a].
        -- rewrite !last_failure_app, Hrb. reflexivity.
        -- rewrite !failures_app, Hrb. reflexivity.
Qed.

Lemma scans_for_fold {X S : Type} P (xs : list X) (body : S -> X -> Prog S) :
  (forall acc x, scans h P (body acc x)) ->
  forall acc, scans h P (for_fold xs acc body).
Proof.
  intros Hbody. induction xs as [|x xs IH]; intros acc.
  - apply scans_ret.
  - apply (scans_bind P (body acc x)); [apply Hbody | exact IH].
Qed.

Lemma scans_weaken {A : Type} P Q (p : Prog A) :
  (forall ev, P ev = true -> Q ev = true) -> scans h P p -> scans h Q p.
Proof.
  intros HPQ Hp w tr r w' Hrun. apply Hp in Hrun.
  destruct Hrun as [HP Hr]. split; [|exact Hr].
  rewrite forallb_forall in *. auto.
Qed.

Lemma prints_ret {A : Type} (a : A) : prints h (Ret a).
Proof. exists [], a. reflexivity. Qed.

Lemma prints_out o : prints h (out o).
Proof. exists [o], tt. reflexivity. Qed.

Lemma prints_bind {A B : Type} (p : Prog A) (f : A -> Prog B) :
  prints h p -> (forall a, prints h (f a)) -> prints h (bind_prog p f).
Proof.
  intros (outs1 & a & Hp) Hf. destruct (Hf a) as (outs2 & b & Hfa).
  exists (outs1 ++ outs2)%list, b. intros w.
  rewrite interp_bind, Hp, Hfa, map_app. reflexivity.
Qed.

Lemma prints_for_each {X : Type} (xs : list X) (body : X -> Prog unit) :
  (forall x, prints h (body x)) -> prints h (for_each xs body).
Proof.
  intros Hbody. induction xs as [|x xs IH].
  - apply prints_ret.
  - apply (prints_bind (body x)); [apply Hbody | intros _; exact IH].
Qed.

End ScanFacts.

(** ** The scan *)

Section MainFacts.

Context {Whitelist NVD Resource File World : Type}.
Variable h : forall X : Type,
  Op Whitelist NVD Resource File X -> World -> result X * World.

Variable Derivation_lt : Derivation -> Derivation -> bool.
Variables (cve_url : string -> string) (vulnix_version : string).
Variable json_dumps : JSON -> string.

Local Abbreviation Prog := (Prog Whitelist NVD Resource File).
Local Abbreviation event := (event Whitelist NVD Resource File).

Lemma interp_init_logging verbose w :
  interp h (init_logging verbose) w
  = ([ EvOut (SetLevel "requests" ERROR);
       EvOut (BasicConfig (verbosity_level verbose)) ], inr tt, w).
Proof.
  unfold init_logging, verbosity_level.
  destruct (2 <=? verbose)%nat; [reflexivity|].
  destruct (1 <=? verbose)%nat; reflexivity.
Qed.

Ltac scans_step :=
  lazymatch goal with
  | |- scans _ _ (Ret _) => apply scans_ret
  | |- scans _ _ (call _) => apply scans_call; intros; reflexivity
  | |- scans _ _ (with_ _ _ _) =>
      apply scans_with; [intros; reflexivity | intros; reflexivity |]
  | |- scans _ _ (for_fold _ _ _) => apply scans_for_fold; intros
  | |- scans _ _ (bind_prog _ _) => apply scans_bind; [|intros]
  end.

Lemma scans_load_whitelists (whitelist : list Resource) :
  scans h bystander
    (with_Timer "Load whitelists"
       (bind_prog (call Whitelist_new)
          (fun whitelist0 : Whitelist =>
             for_fold whitelist whitelist0
               (fun (whitelist1 : Whitelist) (wl : Resource) =>
                  bind_prog (call (Whitelist_load wl))
                    (fun loaded : Whitelist =>
                       call (Whitelist_merge whitelist1 loaded)))))).
Proof. unfold with_Timer. repeat scans_step. Qed.

Lemma scans_populate_store gc_roots paths requisites :
  scans h bystander (populate_store gc_roots paths requisites).
Proof.
  unfold populate_store. cbn [bind ret Monad_Prog].
  repeat scans_step. destruct gc_roots; repeat scans_step.
Qed.

Lemma scans_run nvd store : scans h bystander (run nvd store).
Proof.
  unfold run. cbn [bind ret Monad_Prog].
  repeat scans_step. cbv zeta.
  destruct (is_affected _); apply scans_ret.
Qed.

Lemma bystander_scan_event (ev : event) :
  bystander ev = true -> scan_event ev = true.
Proof.
  destruct ev as [o|X op r]; simpl; [discriminate|].
  destruct op; simpl; congruence.
Qed.

Lemma scans_main_scan gc_roots paths mirror cache_dir requisites whitelist :
  scans h scan_event
    (main_scan gc_roots paths mirror cache_dir requisites whitelist).
Proof.
  unfold main_scan. cbn [bind ret Monad_Prog].
  apply scans_bind;
    [apply scans_weaken with (P := bystander);
       [apply bystander_scan_event | apply scans_load_whitelists]|].
  intros wl. apply scans_bind.
  { unfold with_Timer. scans_step.
    apply scans_weaken with (P := bystander);
      [apply bystander_scan_event | apply scans_populate_store]. }
  intros store. scans_step; [scans_step|]. scans_step; [|scans_step].
  scans_step. scans_step.
  { unfold with_Timer. repeat scans_step. }
  unfold with_Timer. scans_step. scans_step; [|scans_step].
  apply scans_weaken with (P := bystander);
    [apply bystander_scan_event | apply scans_run].
Qed.

Lemma bystander_filter_results (tr : list event) :
  forallb bystander tr = true ->
  emitted tr = [] /\ filter_results tr = [] /\
  add_from_calls tr = [] /\ file_writes tr = [].
Proof.
  induction tr as [|ev tr IH]; simpl; [auto|].
  intros H. apply andb_prop in H. destruct H as [Hev Htr].
  destruct (IH Htr) as (-> & -> & -> & ->).
  destruct ev as [o|X op r]; simpl in *; [discriminate|].
  destruct op; simpl in *; try discriminate; auto.
Qed.

Lemma scan_event_calls (tr : list event) :
  forallb scan_event tr = true ->
  emitted tr = [] /\ add_from_calls tr = [] /\ file_writes tr = [].
Proof.
  induction tr as [|ev tr IH]; simpl; [auto|].
  intros H. apply andb_prop in H. destruct H as [Hev Htr].
  destruct (IH Htr) as (-> & -> & ->).
  destruct ev as [o|X op r]; simpl in *; [discriminate|].
  destruct op; simpl in *; try discriminate; auto.
Qed.

(** A scan that returns has called [filter] last, before it left the timer
    and the NVD. *)
Lemma main_scan_returns gc_roots paths mirror cache_dir requisites whitelist
    w tr wl affected masked w' :
  interp h (main_scan gc_roots paths mirror cache_dir requisites whitelist) w
  = (tr, inr (wl, (affected, masked)), w') ->
  exists tr0 derivs nvd,
    tr = (tr0 ++ [ EvCall (Whitelist_filter wl derivs) (inr (affected, masked));
                   EvCall (Timer_exit "Scan vulnerabilities" None) (inr tt);
                   EvCall (NVD_exit nvd None) (inr tt) ])%list /\
    forallb bystander tr0 = true.
Proof.
  unfold main_scan. cbn [bind ret Monad_Prog]. rewrite interp_bind.
  destruct (interp h (with_Timer "Load whitelists" _) w)
    as [[trA [e|wl0]] wA] eqn:HA; [discriminate|].
  apply scans_load_whitelists in HA. destruct HA as [HPA _].
  rewrite interp_bind.
  destruct (interp h (with_Timer "Load derivations" _) wA)
    as [[trB [e|store]] wB] eqn:HB; [discriminate|].
  assert (HPB : forallb bystander trB = true).
  { revert HB. unfold with_Timer. intros HB.
    eapply (scans_with h bystander) in HB; [apply HB | reflexivity | reflexivity |].
    apply scans_populate_store. }
  clear HB. rewrite interp_bind, interp_call.
  destruct (h _ (NVD_new mirror cache_dir) wB) as [[e|nvd] wC]; cbn [fst snd];
    [discriminate|].
  rewrite interp_bind, interp_with.
  destruct (h unit (NVD_enter nvd) wC) as [[e|u] wD]; [discriminate|].
  rewrite interp_bind.
  destruct (interp h (with_Timer "Load NVD data" _) wD)
    as [[trU [e|uU]] wU] eqn:HU.
  { cbv zeta. destruct (h unit (NVD_exit nvd (Some e)) wU) as [[e'|u'] wX];
      discriminate. }
  assert (HPU : forallb bystander trU = true).
  { revert HU. unfold with_Timer. intros HU.
    eapply (scans_with h bystander) in HU; [apply HU | reflexivity | reflexivity |].
    apply scans_call. reflexivity. }
  clear HU. unfold with_Timer at 1. rewrite interp_with.
  destruct (h unit (Timer_enter "Scan vulnerabilities") wU) as [[e|uT] wT].
  { cbv zeta. destruct (h unit (NVD_exit nvd (Some e)) wT) as [[e'|u'] wX];
      discriminate. }
  rewrite interp_bind.
  destruct (interp h (run nvd store) wT) as [[trR [e|derivs]] wR] eqn:HR.
  { cbv zeta.
    destruct (h unit (Timer_exit "Scan vulnerabilities" (Some e)) wR)
      as [[e1|u1] wX1];
      [destruct (h unit (NVD_exit nvd (Some e1)) wX1) as [[e'|u'] wX]
      |destruct (h unit (NVD_exit nvd (Some e)) wX1) as [[e'|u'] wX]];
      discriminate. }
  apply scans_run in HR. destruct HR as [HPR _].
  rewrite interp_call.
  destruct (h _ (Whitelist_filter wl0 derivs) wR) as [[e|found] wF];
    cbn [fst snd]; cbv zeta.
  { destruct (h unit (Timer_exit "Scan vulnerabilities" (Some e)) wF)
      as [[e1|u1] wX1];
      [destruct (h unit (NVD_exit nvd (Some e1)) wX1) as [[e'|u'] wX]
      |destruct (h unit (NVD_exit nvd (Some e)) wX1) as [[e'|u'] wX]];
      discriminate. }
  destruct (h unit (Timer_exit "Scan vulnerabilities" None) wF)
    as [[e1|u1] wX1].
  { destruct (h unit (NVD_exit nvd (Some e1)) wX1) as [[e'|u'] wX];
      discriminate. }
  destruct (h unit (NVD_exit nvd None) wX1) as [[e'|u'] wX]; [discriminate|].
  cbn [interp]. intros Heq. inversion Heq; subst. clear Heq.
  destruct u, uT, u1, u'.
  exists (trA ++ trB ++ [EvCall (NVD_new mirror cache_dir) (inr nvd)]
          ++ EvCall (NVD_enter nvd) (inr tt) :: trU
          ++ EvCall (Timer_enter "Scan vulnerabilities") (inr tt) :: trR)%list,
    derivs, nvd.
  split.
  - rewrite app_nil_r. repeat (rewrite <- ?app_assoc; cbn [app]).
    reflexivity.
  - rewrite !forallb_app. cbn [forallb]. rewrite !forallb_app.
    cbn [forallb]. rewrite HPA, HPB, HPU, HPR. reflexivity.
Qed.

(** ** The report *)

Lemma last_nonempty {A : Type} (x : A) (l : list A) (d d' : A) :
  List.last (x :: l) d = List.last (x :: l) d'.
Proof.
  revert x. induction l as [|y l IH]; intros x; [reflexivity|].
  change (List.last (y :: l) d = List.last (y :: l) d'). apply IH.
Qed.

Lemma add_from_loop ds : forall wl w tr r w',
  interp h
    (for_fold ds wl
       (fun (whitelist : Whitelist) (d : Derivation) =>
          call (Whitelist_add_from whitelist d))) w = (tr, r, w') ->
  match r with
  | inr wl' =>
      exists wls, List.length wls = List.length ds /\
        tr = add_from_events wl ds wls /\ wl' = List.last wls wl
  | inl e => last_failure tr = Some e
  end.
Proof.
  induction ds as [|d ds IH]; intros wl w tr r w' Hrun.
  - simpl in Hrun. inversion Hrun; subst. exists []. auto.
  - cbn [for_fold bind ret Monad_Prog] in Hrun.
    rewrite interp_bind, interp_call in Hrun.
    destruct (h _ (Whitelist_add_from wl d) w) as [[e|wl1] w1];
      cbn [fst snd] in Hrun.
    + inversion Hrun; subst. reflexivity.
    + destruct (interp h (for_fold ds wl1 _) w1) as [[tr2 r2] w2] eqn:Hrest.
      apply IH in Hrest. inversion Hrun; subst tr r w'. clear Hrun.
      destruct r2 as [e|wl'].
      * change (EvCall (Whitelist_add_from wl d) (inr wl1) :: tr2)
          with ([EvCall (Whitelist_add_from wl d) (inr wl1)] ++ tr2)%list.
        rewrite last_failure_app, Hrest. reflexivity.
      * destruct Hrest as (wls & Hlen & -> & ->).
        exists (wl1 :: wls). split; [simpl; congruence|].
        split; [reflexivity|].
        destruct wls as [|wl2 wls]; [reflexivity|].
        change (List.last (wl1 :: wl2 :: wls) wl) with (List.last (wl2 :: wls) wl).
        apply last_nonempty.
Qed.

Lemma failures_add_from_events wl ds wls :
  failures (add_from_events wl ds wls : list event) = [].
Proof.
  revert wl wls. induction ds as [|d ds IH]; intros wl [|wl' wls]; simpl; auto.
Qed.

Lemma add_from_calls_add_from_events wl ds wls :
  List.length wls = List.length ds ->
  add_from_calls (add_from_events wl ds wls : list event) = ds.
Proof.
  revert wl wls. induction ds as [|d ds IH]; intros wl [|wl' wls] Hlen;
    simpl in *; try discriminate; [reflexivity|].
  f_equal. apply IH. congruence.
Qed.

Lemma prints_print_derivation derivation verbose :
  prints h (print_derivation cve_url derivation verbose).
Proof.
  unfold print_derivation. cbn [bind ret Monad_Prog].
  repeat (apply prints_bind; [try apply prints_out | intros]).
  - destruct (1 <=? verbose)%nat; [apply prints_out | apply prints_ret].
  - apply prints_for_each. intros. apply prints_out.
Qed.

Lemma prints_print_masked masked verbose :
  prints h (print_masked cve_url masked verbose).
Proof.
  unfold print_masked. cbn [bind ret Monad_Prog].
  repeat (apply prints_bind; [try apply prints_out | intros]).
  - destruct (1 <=? verbose)%nat; [apply prints_out | apply prints_ret].
  - apply prints_for_each. intros. apply prints_out.
  - destruct (nonempty (issue_url _)); [|apply prints_ret].
    apply prints_bind; [apply prints_out | intros].
    apply prints_for_each. intros. apply prints_out.
  - destruct (nonempty (comment _)); [|apply prints_ret].
    apply prints_bind; [apply prints_out | intros].
    apply prints_for_each. intros. apply prints_out.
Qed.

Lemma prints_output affected whitelisted show_whitelisted verbose :
  prints h (output Derivation_lt cve_url affected whitelisted
              show_whitelisted verbose).
Proof.
  unfold output. cbn [bind ret Monad_Prog]. cbv zeta.
  destruct ((List.length affected =? 0)%nat && negb show_whitelisted).
  - destruct (nonempty whitelisted); apply prints_out.
  - apply prints_bind; [apply prints_out | intros].
    apply prints_bind;
      [apply prints_for_each; intros; apply prints_print_derivation | intros].
    destruct (negb (nonempty whitelisted)); [apply prints_ret|].
    destruct show_whitelisted; [|apply prints_out].
    apply prints_bind; [apply prints_out | intros].
    apply prints_for_each. intros. apply prints_print_masked.
Qed.

Lemma interp_findings_exit (affected : list Derivation) (masked : list Masked) w :
  interp h
    (if nonempty affected then sys_exit 2
     else if nonempty masked then sys_exit 1 else sys_exit 0 : Prog unit) w
  = ([], inl (SystemExit (findings_status affected masked)), w).
Proof.
  unfold findings_status.
  destruct (nonempty affected); [reflexivity|].
  destruct (nonempty masked); reflexivity.
Qed.

(** JSON output of whitelisted items is refused before anything is
    written. *)
Lemma main_report_json_show_whitelisted verbose wl write_whitelist
    affected masked w :
  interp h
    (main_report Derivation_lt cve_url json_dumps verbose wl write_whitelist
       true true affected masked) w
  = ([],
     inl (RuntimeError "--show-whitelisted does currently not support JSON mode"),
     w).
Proof. reflexivity. Qed.

(** Otherwise the report writes its output, then the whitelist if asked to,
    and exits with the status of the findings, unless a call raises while
    the whitelist is written. *)
Lemma main_report_spec verbose wl write_whitelist json show_whitelisted
    affected masked w tr r w' :
  json && show_whitelisted = false ->
  interp h
    (main_report Derivation_lt cve_url json_dumps verbose wl write_whitelist
       json show_whitelisted affected masked) w = (tr, r, w') ->
  exists outs tr_w e,
    tr = (map EvOut outs ++ tr_w)%list /\ r = inl e /\
    (json = true ->
     outs = [Print (json_dumps
                      (JList (map json_record (sorted_key pname affected))))]) /\
    (last_failure tr_w = Some e \/
     (e = SystemExit (findings_status affected masked) /\
      match write_whitelist with
      | None => tr_w = []
      | Some f =>
          exists wls text,
            List.length wls = List.length affected /\
            tr_w = (add_from_events wl affected wls
                    ++ [ EvCall (Whitelist_str (List.last wls wl)) (inr text);
                         EvCall (File_write f text) (inr tt) ])%list
      end)).
Proof.
  intros Hmode. unfold main_report. cbn [bind ret Monad_Prog].
  assert (Hout : exists outs,
            (forall w0,
               interp h
                 (if json then output_json json_dumps affected show_whitelisted
                  else output Derivation_lt cve_url affected masked
                         show_whitelisted verbose) w0
               = (map EvOut outs, inr tt, w0)) /\
            (json = true ->
             outs = [Print (json_dumps
                      (JList (map json_record (sorted_key pname affected))))])).
  { destruct json.
    - simpl in Hmode. subst show_whitelisted.
      exists [Print (json_dumps
                       (JList (map json_record (sorted_key pname affected))))].
      split; [intros w0; reflexivity | intros _; reflexivity].
    - destruct (prints_output affected masked show_whitelisted verbose)
        as (outs & [] & Hp).
      exists outs. split; [exact Hp | discriminate]. }
  destruct Hout as (outs & Hout & Hjson).
  rewrite interp_bind, Hout, interp_bind.
  destruct write_whitelist as [f|].
  - rewrite interp_bind.
    destruct (interp h (for_fold affected wl _) w) as [[trA rA] wA] eqn:HA.
    apply add_from_loop in HA. destruct rA as [e|wl'].
    { intros Heq. inversion Heq; subst.
      exists outs, trA, e. auto. }
    destruct HA as (wls & Hlen & -> & ->).
    rewrite interp_bind, interp_call.
    destruct (h _ (Whitelist_str (List.last wls wl)) wA) as [[e|text] wS];
      cbn [fst snd].
    { intros Heq. inversion Heq; subst.
      eexists outs, _, e. split; [reflexivity|]. split; [reflexivity|].
      split; [exact Hjson|]. left.
      rewrite last_failure_app. reflexivity. }
    rewrite interp_call.
    destruct (h _ (File_write f text) wS) as [[e|u] wW]; cbn [fst snd].
    { intros Heq. inversion Heq; subst.
      eexists outs, _, e. split; [reflexivity|]. split; [reflexivity|].
      split; [exact Hjson|]. left.
      rewrite !last_failure_app. reflexivity. }
    rewrite interp_findings_exit. intros Heq. inversion Heq; subst.
    destruct u.
    eexists outs, _, _. split; [reflexivity|]. split; [reflexivity|].
    split; [exact Hjson|]. right. split; [reflexivity|].
    exists wls, text. split; [exact Hlen|].
    rewrite app_nil_r. reflexivity.
  - cbn [interp]. rewrite interp_findings_exit.
    intros Heq. inversion Heq; subst.
    exists outs, [], (SystemExit (findings_status affected masked)).
    split; [reflexivity|]. split; [reflexivity|].
    split; [exact Hjson|]. right. split; reflexivity.
Qed.

(** [main] with a scan target and without the version flag: logging is set
    up, then the scan and the report run under [try]. *)
Lemma interp_main verbose gc_roots system path mirror cache_dir requisites
    whitelist write_whitelist json show_whitelisted default_whitelist notfixed w :
  gc_roots || system || nonempty path = true ->
  interp h
    (main Derivation_lt cve_url vulnix_version json_dumps
       verbose gc_roots system path mirror cache_dir requisites
       whitelist write_whitelist false json show_whitelisted
       default_whitelist notfixed) w
  = let paths := if system then (path ++ [CURRENT_SYSTEM])%list else path in
    let '(tr, r, w1) :=
      interp h
        (try_except
           (bind_prog
              (main_scan gc_roots paths mirror cache_dir requisites whitelist)
              (fun x =>
                 main_report Derivation_lt cve_url json_dumps verbose (fst x)
                   write_whitelist json show_whitelisted
                   (fst (snd x)) (snd (snd x))))
           main_except) w in
    ((EvOut (SetLevel "requests" ERROR)
      :: EvOut (BasicConfig (verbosity_level verbose)) :: tr)%list, r, w1).
Proof.
  intros Htarget. unfold main. rewrite Htarget.
  cbn [negb bind ret Monad_Prog bind_prog].
  rewrite interp_bind, interp_init_logging. cbv zeta.
  set (paths := if system then (path ++ [CURRENT_SYSTEM])%list else path).
  change (fun e : exn =>
            match e with
            | RuntimeError _ =>
                Some (bind_prog (out (LogCritical e)) (fun _ : unit => sys_exit 2))
            | _ => None
            end)
    with (@main_except Whitelist NVD Resource File).
  rewrite !interp_try_except.
  match goal with
  | |- context [interp h ?b w] =>
      assert (Hbody :
        interp h b w
        = interp h
            (bind_prog
               (main_scan gc_roots paths mirror cache_dir requisites whitelist)
               (fun x =>
                  main_report Derivation_lt cve_url json_dumps verbose (fst x)
                    write_whitelist json show_whitelisted
                    (fst (snd x)) (snd (snd x)))) w)
  end.
  { unfold main_scan, main_report. cbn [bind ret Monad_Prog].
    repeat (rewrite ?interp_bind;
            match goal with
            | |- context [interp h ?p ?w0] =>
                lazymatch p with
                | bind_prog _ _ => fail
                | Ret _ => fail
                | _ => destruct (interp h p w0) as [[? [?|?]] ?]
                end
            end;
            repeat match goal with
                   | x : (list Derivation * list Masked)%type |- _ => destruct x
                   end;
            cbn [interp fst snd];
            rewrite <- ?app_assoc, ?app_nil_r; try reflexivity). }
  rewrite Hbody. reflexivity.
Qed.

(** ** Runs of [main] *)

Lemma failures_outs outs : failures (map EvOut outs : list event) = [].
Proof. induction outs as [|o outs IH]; simpl; auto. Qed.

Lemma emitted_outs outs : emitted (map EvOut outs : list event) = outs.
Proof. induction outs as [|o outs IH]; simpl; congruence. Qed.

Lemma filter_results_outs outs :
  filter_results (map EvOut outs : list event) = [].
Proof. induction outs as [|o outs IH]; simpl; auto. Qed.

Lemma add_from_calls_outs outs :
  add_from_calls (map EvOut outs : list event) = [].
Proof. induction outs as [|o outs IH]; simpl; auto. Qed.

Lemma file_writes_outs outs : file_writes (map EvOut outs : list event) = [].
Proof. induction outs as [|o outs IH]; simpl; auto. Qed.

Lemma filter_results_add_from_events wl ds wls :
  filter_results (add_from_events wl ds wls : list event) = [].
Proof.
  revert wl wls. induction ds as [|d ds IH]; intros wl [|wl' wls]; simpl; auto.
Qed.

Lemma file_writes_add_from_events wl ds wls :
  file_writes (add_from_events wl ds wls : list event) = [].
Proof.
  revert wl wls. induction ds as [|d ds IH]; intros wl [|wl' wls]; simpl; auto.
Qed.

Lemma failures_caught e : failures (caught e : list event) = [].
Proof. destruct e; reflexivity. Qed.

Lemma last_failure_main (o1 o2 : emission) (body : list event) e :
  last_failure (EvOut o1 :: EvOut o2 :: body ++ caught e)%list
  = last_failure body.
Proof.
  unfold last_failure.
  change (EvOut o1 :: EvOut o2 :: body ++ caught e)%list
    with ([EvOut o1; EvOut o2] ++ body ++ caught e)%list.
  rewrite !failures_app, failures_caught, app_nil_r. reflexivity.
Qed.

Lemma failures_main (o1 o2 : emission) (body : list event) e :
  failures (EvOut o1 :: EvOut o2 :: body ++ caught e)%list = failures body.
Proof.
  change (EvOut o1 :: EvOut o2 :: body ++ caught e)%list
    with ([EvOut o1; EvOut o2] ++ body ++ caught e)%list.
  rewrite !failures_app, failures_caught, app_nil_r. reflexivity.
Qed.

Lemma interp_main_except e (trB : list event) w :
  match main_except e with
  | Some q =>
      let '(tr2, r2, w2) := interp h (q : Prog unit) w in
      ((trB ++ tr2)%list, r2, w2)
  | None => (trB, inl e, w)
  end
  = ((trB ++ caught e)%list, settle e, w).
Proof. destruct e; simpl; rewrite ?app_nil_r; reflexivity. Qed.

(** How a run of [main] with a scan target ends: a call raised, or JSON
    output of whitelisted items was refused, or the run went through. *)
Lemma main_outcome verbose gc_roots system path mirror cache_dir requisites
    whitelist write_whitelist json show_whitelisted default_whitelist notfixed
    w tr r w' :
  gc_roots || system || nonempty path = true ->
  interp h
    (main Derivation_lt cve_url vulnix_version json_dumps
       verbose gc_roots system path mirror cache_dir requisites
       whitelist write_whitelist false json show_whitelisted
       default_whitelist notfixed) w = (tr, r, w') ->
  exists body e,
    tr = (EvOut (SetLevel "requests" ERROR)
          :: EvOut (BasicConfig (verbosity_level verbose))
          :: body ++ caught e)%list /\
    r = settle e /\
    ((last_failure body = Some e /\
      (emitted body = [] \/ json && show_whitelisted = false)) \/
     (json && show_whitelisted = true /\ e = RuntimeError refusal /\
      failures body = [] /\ emitted body = []) \/
     (json && show_whitelisted = false /\
      exists tr0 wl derivs nvd affected masked outs tr_w,
        body = (tr0
                ++ [ EvCall (Whitelist_filter wl derivs) (inr (affected, masked));
                     EvCall (Timer_exit "Scan vulnerabilities" None) (inr tt);
                     EvCall (NVD_exit nvd None) (inr tt) ]
                ++ map EvOut outs ++ tr_w)%list /\
        forallb bystander tr0 = true /\
        failures body = [] /\
        e = SystemExit (findings_status affected masked) /\
        (json = true ->
         outs = [Print (json_dumps
                    (JList (map json_record (sorted_key pname affected))))]) /\
        match write_whitelist with
        | None => tr_w = []
        | Some f =>
            exists wls text,
              List.length wls = List.length affected /\
              tr_w = (add_from_events wl affected wls
                      ++ [ EvCall (Whitelist_str (List.last wls wl)) (inr text);
                           EvCall (File_write f text) (inr tt) ])%list
        end)).
Proof.
  intros Htarget. rewrite (interp_main _ _ _ _ _ _ _ _ _ _ _ _ _ _ Htarget).
  cbv zeta. set (paths := if system then _ else _).
  rewrite interp_try_except, interp_bind.
  destruct (interp h (main_scan _ _ _ _ _ _) w) as [[trS rS] wS] eqn:HS.
  pose proof (scans_main_scan _ _ _ _ _ _ _ _ _ _ HS) as [HPS HfS].
  apply scan_event_calls in HPS. destruct HPS as (HemS & _ & _).
  destruct rS as [e|[wl [affected masked]]].
  - (* the scan raised *)
    rewrite interp_main_except. intros Heq. inversion Heq; subst.
    exists trS, e. split; [reflexivity|]. split; [reflexivity|].
    left. auto.
  - (* the scan returned *)
    apply main_scan_returns in HS.
    destruct HS as (tr0 & derivs & nvd & -> & HP0).
    cbn [fst snd].
    destruct (interp h (main_report _ _ _ _ _ _ _ _ _ _) wS)
      as [[trR rR] wR] eqn:HR.
    destruct (json && show_whitelisted) eqn:Hmode.
    + (* refused *)
      apply andb_prop in Hmode. destruct Hmode as [-> ->].
      rewrite main_report_json_show_whitelisted in HR.
      inversion HR; subst. rewrite app_nil_r.
      cbn [main_except interp bind ret Monad_Prog bind_prog out sys_exit].
      intros Heq. inversion Heq; subst.
      eexists _, (RuntimeError refusal).
      split; [reflexivity|]. split; [reflexivity|].
      right. left. auto.
    + apply main_report_spec in HR; [|exact Hmode].
      destruct HR as (outs & tr_w & e & -> & -> & Hjson & Hend).
      rewrite interp_main_except. intros Heq. inversion Heq; subst. clear Heq.
      eexists _, e. split; [reflexivity|]. split; [reflexivity|].
      destruct Hend as [Hfail|[-> Hww]].
      * left. split; [|right; reflexivity].
        rewrite !last_failure_app, Hfail. reflexivity.
      * right. right. split; [reflexivity|].
        exists tr0, wl, derivs, nvd, affected, masked, outs, tr_w.
        split; [rewrite <- app_assoc; reflexivity|].
        split; [exact HP0|]. split; [|auto].
        rewrite failures_app, HfS, failures_app, failures_outs. simpl.
        destruct write_whitelist as [f|]; [|subst tr_w; reflexivity].
        destruct Hww as (wls & text & _ & ->).
        rewrite failures_app, failures_add_from_events. reflexivity.
Qed.

Lemma filter_results_main (o1 o2 : emission) (body : list event) e :
  filter_results (EvOut o1 :: EvOut o2 :: body ++ caught e)%list
  = filter_results body.
Proof.
  change (EvOut o1 :: EvOut o2 :: body ++ caught e)%list
    with ([EvOut o1; EvOut o2] ++ body ++ caught e)%list.
  rewrite !filter_results_app.
  destruct e; simpl; rewrite app_nil_r; reflexivity.
Qed.

Lemma add_from_calls_main (o1 o2 : emission) (body : list event) e :
  add_from_calls (EvOut o1 :: EvOut o2 :: body ++ caught e)%list
  = add_from_calls body.
Proof.
  change (EvOut o1 :: EvOut o2 :: body ++ caught e)%list
    with ([EvOut o1; EvOut o2] ++ body ++ caught e)%list.
  rewrite !add_from_calls_app.
  destruct e; simpl; rewrite app_nil_r; reflexivity.
Qed.

Lemma file_writes_main (o1 o2 : emission) (body : list event) e :
  file_writes (EvOut o1 :: EvOut o2 :: body ++ caught e)%list
  = file_writes body.
Proof.
  change (EvOut o1 :: EvOut o2 :: body ++ caught e)%list
    with ([EvOut o1; EvOut o2] ++ body ++ caught e)%list.
  rewrite !file_writes_app.
  destruct e; simpl; rewrite app_nil_r; reflexivity.
Qed.

Lemma emitted_main (o1 o2 : emission) (body : list event) e :
  emitted (EvOut o1 :: EvOut o2 :: body ++ caught e)%list
  = (o1 :: o2 :: emitted body ++ emitted (caught e : list event))%list.
Proof.
  change (EvOut o1 :: EvOut o2 :: body ++ caught e)%list
    with ([EvOut o1; EvOut o2] ++ body ++ caught e)%list.
  rewrite !emitted_app. reflexivity.
Qed.

(** C1: a run that no collaborator disturbs, and that is not asked for
    JSON output of whitelisted items, exits with status 2 when [filter]
    returned affected derivations, else with status 1 when it returned
    masked ones, else with status 0. *)
Theorem exit_status_reflects_findings
    verbose gc_roots system path mirror cache_dir requisites
    whitelist write_whitelist json show_whitelisted default_whitelist notfixed
    w tr r w' :
  gc_roots || system || nonempty path = true ->
  interp h
    (main Derivation_lt cve_url vulnix_version json_dumps
       verbose gc_roots system path mirror cache_dir requisites
       whitelist write_whitelist false json show_whitelisted
       default_whitelist notfixed) w = (tr, r, w') ->
  failures tr = [] ->
  json && show_whitelisted = false ->
  exists affected masked,
    filter_results tr = [(affected, masked)] /\
    r = inl (SystemExit
               match affected, masked with
               | _ :: _, _ => 2
               | [], _ :: _ => 1
               | [], [] => 0
               end).
Proof.
  intros Htarget Hrun Hok Hmode.
  destruct (main_outcome _ _ _ _ _ _ _ _ _ _ _ _ _ _ _ _ _ Htarget Hrun)
    as (body & e & -> & -> & Hcase).
  rewrite failures_main in Hok.
  destruct Hcase as [[Hfail _]|[[Hm _]|[_ Hdone]]].
  - rewrite (last_failure_nil _ Hok) in Hfail. discriminate.
  - congruence.
  - destruct Hdone as (tr0 & wl & derivs & nvd & affected & masked & outs
                       & tr_w & -> & HP0 & _ & -> & _ & Hww).
    exists affected, masked. split.
    + apply bystander_filter_results in HP0. destruct HP0 as (_ & Hf0 & _ & _).
      rewrite filter_results_main, !filter_results_app, Hf0, filter_results_outs.
      destruct write_whitelist as [f|].
      * destruct Hww as (wls & text & _ & ->).
        rewrite filter_results_app, filter_results_add_from_events. reflexivity.
      * subst tr_w. reflexivity.
    + unfold findings_status. destruct affected, masked; reflexivity.
Qed.

(** C5: when the exception that leaves the scan and the report is a
    RuntimeError, raised by a collaborator or by [output_json], [main] logs
    it at critical severity and exits with status 2, without a stack
    trace. *)
Theorem runtime_error_exits_2
    verbose gc_roots system path mirror cache_dir requisites
    whitelist write_whitelist json show_whitelisted default_whitelist notfixed
    w tr r w' msg :
  gc_roots || system || nonempty path = true ->
  interp h
    (main Derivation_lt cve_url vulnix_version json_dumps
       verbose gc_roots system path mirror cache_dir requisites
       whitelist write_whitelist false json show_whitelisted
       default_whitelist notfixed) w = (tr, r, w') ->
  last_failure tr = Some (RuntimeError msg) \/
  (failures tr = [] /\ json && show_whitelisted = true /\ msg = refusal) ->
  r = inl (SystemExit 2) /\
  exit_code r = 2%Z /\
  stack_trace r = false /\
  exists outs, emitted tr = (outs ++ [LogCritical (RuntimeError msg)])%list.
Proof.
  intros Htarget Hrun Hraised.
  destruct (main_outcome _ _ _ _ _ _ _ _ _ _ _ _ _ _ _ _ _ Htarget Hrun)
    as (body & e & -> & -> & Hcase).
  rewrite last_failure_main, failures_main in Hraised.
  assert (He : e = RuntimeError msg).
  { destruct Hraised as [Hlast|(Hok & Hm & ->)].
    - destruct Hcase as [[Hfail _]|[(_ & _ & Hok & _)|[_ Hdone]]].
      + congruence.
      + rewrite (last_failure_nil _ Hok) in Hlast. discriminate.
      + destruct Hdone as (tr0 & wl & derivs & nvd & affected & masked & outs
                           & tr_w & _ & _ & Hok & _).
        rewrite (last_failure_nil _ Hok) in Hlast. discriminate.
    - destruct Hcase as [[Hfail _]|[(_ & -> & _)|[Hm' _]]].
      + rewrite (last_failure_nil _ Hok) in Hfail. discriminate.
      + reflexivity.
      + congruence. }
  subst e. split; [reflexivity|]. split; [reflexivity|].
  split; [reflexivity|].
  exists (SetLevel "requests" ERROR :: BasicConfig (verbosity_level verbose)
          :: emitted body).
  rewrite emitted_main. reflexivity.
Qed.

(** C7: with the write-whitelist option, a run that no collaborator
    disturbs calls [add_from] after [filter], once for each affected
    derivation that [filter] returned, in order, and for nothing else; then
    it writes the text of the resulting whitelist to the file. *)
Theorem write_whitelist_adds_affected
    verbose gc_roots system path mirror cache_dir requisites
    whitelist f json show_whitelisted default_whitelist notfixed
    w tr r w' :
  gc_roots || system || nonempty path = true ->
  interp h
    (main Derivation_lt cve_url vulnix_version json_dumps
       verbose gc_roots system path mirror cache_dir requisites
       whitelist (Some f) false json show_whitelisted
       default_whitelist notfixed) w = (tr, r, w') ->
  failures tr = [] ->
  json && show_whitelisted = false ->
  exists tr0 wl derivs affected masked wls text,
    List.length wls = List.length affected /\
    tr = (tr0 ++ add_from_events wl affected wls
          ++ [ EvCall (Whitelist_str (List.last wls wl)) (inr text);
               EvCall (File_write f text) (inr tt) ])%list /\
    In (EvCall (Whitelist_filter wl derivs) (inr (affected, masked))) tr0 /\
    filter_results tr0 = [(affected, masked)] /\
    add_from_calls tr0 = [] /\
    file_writes tr0 = [] /\
    add_from_calls tr = affected /\
    file_writes tr = [(f, text)].
Proof.
  intros Htarget Hrun Hok Hmode.
  destruct (main_outcome _ _ _ _ _ _ _ _ _ _ _ _ _ _ _ _ _ Htarget Hrun)
    as (body & e & -> & -> & Hcase).
  rewrite failures_main in Hok.
  destruct Hcase as [[Hfail _]|[[Hm _]|[_ Hdone]]].
  - rewrite (last_failure_nil _ Hok) in Hfail. discriminate.
  - congruence.
  - destruct Hdone as (tr0 & wl & derivs & nvd & affected & masked & outs
                       & tr_w & -> & HP0 & _ & -> & _ & Hww).
    destruct Hww as (wls & text & Hlen & ->).
    apply bystander_filter_results in HP0.
    destruct HP0 as (_ & Hf0 & Ha0 & Hw0).
    set (filtered := EvCall (Whitelist_filter wl derivs) (inr (affected, masked))).
    exists (EvOut (SetLevel "requests" ERROR)
            :: EvOut (BasicConfig (verbosity_level verbose))
            :: tr0
            ++ [ filtered;
                 EvCall (Timer_exit "Scan vulnerabilities" None) (inr tt);
                 EvCall (NVD_exit nvd None) (inr tt) ]
            ++ map EvOut outs)%list,
      wl, derivs, affected, masked, wls, text.
    split; [exact Hlen|]. split.
    { cbn [caught]. rewrite app_nil_r.
      cbn [app]. do 2 f_equal. rewrite <- !app_assoc. reflexivity. }
    split.
    { right. right. apply in_or_app. right. left. reflexivity. }
    split.
    { change (filter_results
                ([EvOut (SetLevel "requests" ERROR);
                  EvOut (BasicConfig (verbosity_level verbose))]
                 ++ tr0
                 ++ [ filtered;
                      EvCall (Timer_exit "Scan vulnerabilities" None) (inr tt);
                      EvCall (NVD_exit nvd None) (inr tt) ]
                 ++ map EvOut outs)%list = [(affected, masked)]).
      rewrite !filter_results_app, Hf0, filter_results_outs. reflexivity. }
    split.
    { change (add_from_calls
                ([EvOut (SetLevel "requests" ERROR);
                  EvOut (BasicConfig (verbosity_level verbose))]
                 ++ tr0
                 ++ [ filtered;
                      EvCall (Timer_exit "Scan vulnerabilities" None) (inr tt);
                      EvCall (NVD_exit nvd None) (inr tt) ]
                 ++ map EvOut outs)%list = []).
      rewrite !add_from_calls_app, Ha0, add_from_calls_outs. reflexivity. }
    split.
    { change (file_writes
                ([EvOut (SetLevel "requests" ERROR);
                  EvOut (BasicConfig (verbosity_level verbose))]
                 ++ tr0
                 ++ [ filtered;
                      EvCall (Timer_exit "Scan vulnerabilities" None) (inr tt);
                      EvCall (NVD_exit nvd None) (inr tt) ]
                 ++ map EvOut outs)%list = []).
      rewrite !file_writes_app, Hw0, file_writes_outs. reflexivity. }
    split.
    { rewrite add_from_calls_main, !add_from_calls_app, Ha0, add_from_calls_outs.
      rewrite add_from_calls_add_from_events by exact Hlen.
      simpl. rewrite app_nil_r. reflexivity. }
    rewrite file_writes_main, !file_writes_app, Hw0, file_writes_outs.
    rewrite file_writes_add_from_events. reflexivity.
Qed.

(** C9: JSON output together with the show-whitelisted option:
    [output_json] raises a RuntimeError before it writes anything; a run of
    [main] never prints JSON, and when no collaborator raises it logs the
    error and exits with status 2, whatever [filter] found. *)
Theorem json_show_whitelisted_is_refused
    verbose gc_roots system path mirror cache_dir requisites
    whitelist write_whitelist default_whitelist notfixed
    w tr r w' :
  gc_roots || system || nonempty path = true ->
  interp h
    (main Derivation_lt cve_url vulnix_version json_dumps
       verbose gc_roots system path mirror cache_dir requisites
       whitelist write_whitelist false true true
       default_whitelist notfixed) w = (tr, r, w') ->
  (forall derivations w0,
     interp h (output_json json_dumps derivations true) w0
     = ([], inl (RuntimeError refusal), w0)) /\
  (forall text, ~ In (Print text) (emitted tr)) /\
  (failures tr = [] ->
   r = inl (SystemExit 2) /\
   exists outs, emitted tr = (outs ++ [LogCritical (RuntimeError refusal)])%list).
Proof.
  intros Htarget Hrun.
  destruct (main_outcome _ _ _ _ _ _ _ _ _ _ _ _ _ _ _ _ _ Htarget Hrun)
    as (body & e & -> & -> & Hcase).
  split; [reflexivity|].
  assert (Hem : emitted body = []).
  { destruct Hcase as [[_ [Hem|Hm]]|[(_ & _ & _ & Hem)|[Hm _]]];
      try discriminate; exact Hem. }
  split.
  - intros text. rewrite emitted_main, Hem. simpl.
    intros [Hin|[Hin|Hin]]; try discriminate.
    destruct e; simpl in Hin; try contradiction.
    destruct Hin as [Hin|[]]. discriminate.
  - rewrite failures_main. intros Hok.
    destruct Hcase as [[Hfail _]|[(_ & -> & _)|[Hm _]]].
    + rewrite (last_failure_nil _ Hok) in Hfail. discriminate.
    + split; [reflexivity|].
      exists [SetLevel "requests" ERROR; BasicConfig (verbosity_level verbose)].
      rewrite emitted_main, Hem. reflexivity.
    + discriminate.
Qed.

End MainFacts.

(** ** Version comparison *)

Module VersionFacts.

Import Version.

Lemma compare_component_refl x : compare_component x x = Eq.
Proof.
  destruct x as [n|s]; simpl.
  - apply N.compare_refl.
  - apply String_as_OT.cmp_eq. reflexivity.
Qed.

Lemma compare_component_eq x y : compare_component x y = Eq -> x = y.
Proof.
  destruct x as [n|s], y as [m|t]; simpl; try discriminate; intros H.
  - apply N.compare_eq in H. congruence.
  - apply String_as_OT.cmp_eq in H. congruence.
Qed.

Lemma compare_component_antisym x y :
  compare_component x y = CompOpp (compare_component y x).
Proof.
  destruct x as [n|s], y as [m|t]; simpl; try reflexivity.
  - apply N.compare_antisym.
  - apply String_as_OT.cmp_antisym.
Qed.

Lemma compare_component_lt_trans x y z :
  compare_component x y = Lt -> compare_component y z = Lt ->
  compare_component x z = Lt.
Proof.
  destruct x as [n|s], y as [m|t], z as [k|u]; simpl;
    try discriminate; try reflexivity.
  - rewrite !N.compare_lt_iff. apply N.lt_trans.
  - intros H1 H2. apply String_as_OT.cmp_lt.
    apply String_as_OT.lt_trans with t; apply String_as_OT.cmp_lt; assumption.
Qed.

Lemma lex_refl a : lex a a = Eq.
Proof.
  induction a as [|x a IH]; simpl; [reflexivity|].
  rewrite compare_component_refl. exact IH.
Qed.

Lemma lex_eq a : forall b, lex a b = Eq -> a = b.
Proof.
  induction a as [|x a IH]; intros [|y b]; simpl; try discriminate;
    [reflexivity|].
  destruct (compare_component x y) eqn:E; try discriminate.
  intros H. apply compare_component_eq in E. apply IH in H. congruence.
Qed.

Lemma lex_antisym a : forall b, lex a b = CompOpp (lex b a).
Proof.
  induction a as [|x a IH]; intros [|y b]; simpl; try reflexivity.
  rewrite (compare_component_antisym x y).
  destruct (compare_component y x); simpl; [apply IH | reflexivity | reflexivity].
Qed.

Lemma lex_lt_trans a : forall b c, lex a b = Lt -> lex b c = Lt -> lex a c = Lt.
Proof.
  induction a as [|x a IH]; intros [|y b] [|z c]; simpl;
    try discriminate; try reflexivity.
  destruct (compare_component x y) eqn:Exy; try discriminate.
  - apply compare_component_eq in Exy. subst y.
    destruct (compare_component x z); try discriminate; [apply IH | reflexivity].
  - destruct (compare_component y z) eqn:Eyz; try discriminate.
    + apply compare_component_eq in Eyz. subst z. rewrite Exy. reflexivity.
    + rewrite (compare_component_lt_trans _ _ _ Exy Eyz). reflexivity.
Qed.

(** Padding further than both versions reach changes nothing. *)
Lemma lex_pad_more k n : forall a b,
  List.length a <= n -> List.length b <= n ->
  lex (pad (n + k) a) (pad (n + k) b) = lex (pad n a) (pad n b).
Proof.
  induction n as [|n IH]; intros a b Ha Hb.
  - destruct a; [|simpl in Ha; lia]. destruct b; [|simpl in Hb; lia].
    simpl. apply lex_refl.
  - destruct a as [|x a], b as [|y b]; cbn [List.length] in Ha, Hb;
      cbn [pad lex Nat.add].
    + rewrite compare_component_refl. apply IH; simpl; lia.
    + destruct (compare_component (Num 0) y); try reflexivity.
      apply IH; simpl; lia.
    + destruct (compare_component x (Num 0)); try reflexivity.
      apply IH; simpl; lia.
    + destruct (compare_component x y); try reflexivity.
      apply IH; lia.
Qed.

Lemma compare_padded n a b :
  List.length (parse a) <= n -> List.length (parse b) <= n ->
  compare a b = lex (pad n (parse a)) (pad n (parse b)).
Proof.
  intros Ha Hb. unfold compare. cbv zeta.
  set (m := Nat.max (List.length (parse a)) (List.length (parse b))).
  replace n with (m + (n - m)) by lia.
  symmetry. apply lex_pad_more; lia.
Qed.

Lemma compare_refl v : compare v v = Eq.
Proof. unfold compare. apply lex_refl. Qed.

Lemma compare_antisym a b : compare a b = CompOpp (compare b a).
Proof.
  unfold compare. cbv zeta. rewrite (Nat.max_comm (List.length (parse b))).
  apply lex_antisym.
Qed.

Lemma compare_lt_trans a b c :
  compare a b = Lt -> compare b c = Lt -> compare a c = Lt.
Proof.
  set (n := Nat.max (List.length (parse a))
              (Nat.max (List.length (parse b)) (List.length (parse c)))).
  rewrite (compare_padded n a b), (compare_padded n b c),
    (compare_padded n a c) by lia.
  apply lex_lt_trans.
Qed.

Lemma compare_eq_compat a b c :
  compare a b = Eq -> compare a c = compare b c.
Proof.
  set (n := Nat.max (List.length (parse a))
              (Nat.max (List.length (parse b)) (List.length (parse c)))).
  rewrite (compare_padded n a b), (compare_padded n b c),
    (compare_padded n a c) by lia.
  intros H. apply lex_eq in H. rewrite H. reflexivity.
Qed.

End VersionFacts.

(** C8: version comparison is a total order up to equivalence: a version is
    equal to itself, the comparison of [b] with [a] is the opposite of the
    comparison of [a] with [b], less-than is transitive, equal versions
    compare alike with every version (so equality is transitive too),
    "1.2" is equal to "1.2.0", and "1.2-rc1" is less than "1.2". *)
Theorem version_compare_total_order :
  (forall v, Version.compare v v = Eq) /\
  (forall a b, Version.compare a b = CompOpp (Version.compare b a)) /\
  (forall a b c, Version.compare a b = Lt -> Version.compare b c = Lt ->
                 Version.compare a c = Lt) /\
  (forall a b c, Version.compare a b = Eq -> Version.compare b c = Eq ->
                 Version.compare a c = Eq) /\
  (forall a b c, Version.compare a b = Eq ->
                 Version.compare a c = Version.compare b c) /\
  Version.compare "1.2" "1.2.0" = Eq /\
  Version.compare "1.2-rc1" "1.2" = Lt.
Proof.
  split; [exact VersionFacts.compare_refl|].
  split; [exact VersionFacts.compare_antisym|].
  split; [exact VersionFacts.compare_lt_trans|].
  split.
  { intros a b c Hab Hbc.
    rewrite (VersionFacts.compare_eq_compat a b c Hab). exact Hbc. }
  split; [exact VersionFacts.compare_eq_compat|].
  split; reflexivity.
Qed.

(** * Further properties of the driver *)

Section MoreMainFacts.

Context {Whitelist NVD Resource File World : Type}.
Variable h : forall X : Type,
  Op Whitelist NVD Resource File X -> World -> result X * World.

Variable Derivation_lt : Derivation -> Derivation -> bool.
Variables (cve_url : string -> string) (vulnix_version : string).
Variable json_dumps : JSON -> string.

Local Abbreviation Prog := (Prog Whitelist NVD Resource File).
Local Abbreviation event := (event Whitelist NVD Resource File).

(** X1: the verbosity counts up to two: with more than two [-v] flags,
    [main] is the same program as with two. *)
Theorem verbosity_saturates
    verbose gc_roots system path mirror cache_dir requisites
    (whitelist : list Resource) (write_whitelist : option File)
    version json show_whitelisted default_whitelist notfixed :
  2 <= verbose ->
  main (Whitelist := Whitelist) (NVD := NVD)
    Derivation_lt cve_url vulnix_version json_dumps
    verbose gc_roots system path mirror cache_dir requisites
    whitelist write_whitelist version json show_whitelisted
    default_whitelist notfixed
  = main Derivation_lt cve_url vulnix_version json_dumps
      2 gc_roots system path mirror cache_dir requisites
      whitelist write_whitelist version json show_whitelisted
      default_whitelist notfixed.
Proof.
  intros Hv.
  unfold main, init_logging, output, print_derivation, print_masked.
  replace (2 <=? verbose)%nat with true
    by (symmetry; apply Nat.leb_le; lia).
  replace (1 <=? verbose)%nat with true
    by (symmetry; apply Nat.leb_le; lia).
  replace (0 <? verbose)%nat with true
    by (symmetry; apply Nat.ltb_lt; lia).
  reflexivity.
Qed.

Lemma emitted_add_from_events wl ds wls :
  emitted (add_from_events wl ds wls : list event) = [].
Proof.
  revert wl wls. induction ds as [|d ds IH]; intros wl [|wl' wls]; simpl; auto.
Qed.

(** X2: [main] never returns and never lets a RuntimeError out: every run
    ends in [sys.exit] or in an exception of another class. *)
Theorem main_never_returns
    verbose gc_roots system path mirror cache_dir requisites
    whitelist write_whitelist version json show_whitelisted
    default_whitelist notfixed w tr r w' :
  interp h
    (main Derivation_lt cve_url vulnix_version json_dumps
       verbose gc_roots system path mirror cache_dir requisites
       whitelist write_whitelist version json show_whitelisted
       default_whitelist notfixed) w = (tr, r, w') ->
  exists e, r = inl e /\ forall msg, e <> RuntimeError msg.
Proof.
  intros Hrun. destruct version.
  - inversion Hrun; subst. exists (SystemExit 0). split; [reflexivity|].
    discriminate.
  - destruct (gc_roots || system || nonempty path) eqn:Htarget.
    + destruct (main_outcome h _ _ _ _ _ _ _ _ _ _ _ _ _ _ _ _ _ _ _ _ _
                  Htarget Hrun) as (body & e & _ & -> & _).
      destruct e as [msg|code|cls msg]; simpl.
      * exists (SystemExit 2). split; [reflexivity | discriminate].
      * exists (SystemExit code). split; [reflexivity | discriminate].
      * exists (OtherError cls msg). split; [reflexivity | discriminate].
    + destruct gc_roots; [discriminate|]. destruct system; [discriminate|].
      destruct path; [|discriminate].
      lazy in Hrun. inversion Hrun; subst.
      exists (SystemExit 3). split; [reflexivity | discriminate].
Qed.

(** X3: an exception of a collaborator that is not a RuntimeError is not
    handled: it leaves [main] as it was raised (a [SystemExit] of a
    collaborator ends the process with its code, any other exception with a
    stack trace). *)
Theorem other_exceptions_leave_main
    verbose gc_roots system path mirror cache_dir requisites
    whitelist write_whitelist json show_whitelisted
    default_whitelist notfixed w tr r w' e :
  gc_roots || system || nonempty path = true ->
  interp h
    (main Derivation_lt cve_url vulnix_version json_dumps
       verbose gc_roots system path mirror cache_dir requisites
       whitelist write_whitelist false json show_whitelisted
       default_whitelist notfixed) w = (tr, r, w') ->
  last_failure tr = Some e ->
  (forall msg, e <> RuntimeError msg) ->
  r = inl e /\
  stack_trace r = match e with SystemExit _ => false | _ => true end.
Proof.
  intros Htarget Hrun Hlast Hclass.
  destruct (main_outcome h _ _ _ _ _ _ _ _ _ _ _ _ _ _ _ _ _ _ _ _ _
              Htarget Hrun) as (body & e' & -> & -> & Hcase).
  rewrite last_failure_main in Hlast.
  assert (e' = e) as ->.
  { destruct Hcase as [[Hfail _]|[(_ & _ & Hok & _)|[_ Hdone]]].
    - congruence.
    - rewrite (last_failure_nil _ Hok) in Hlast. discriminate.
    - destruct Hdone as (tr0 & wl & derivs & nvd & affected & masked & outs
                         & tr_w & _ & _ & Hok & _).
      rewrite (last_failure_nil _ Hok) in Hlast. discriminate. }
  destruct e as [msg|code|cls msg]; [|split; reflexivity..].
  exfalso. apply (Hclass msg). reflexivity.
Qed.

(** X4: in JSON mode a run that no collaborator disturbs prints one thing:
    the JSON document of the affected derivations that [filter] returned.
    Nothing about masked findings and no human-readable line is mixed in. *)
Theorem json_mode_prints_one_document
    verbose gc_roots system path mirror cache_dir requisites
    whitelist write_whitelist default_whitelist notfixed w tr r w' :
  gc_roots || system || nonempty path = true ->
  interp h
    (main Derivation_lt cve_url vulnix_version json_dumps
       verbose gc_roots system path mirror cache_dir requisites
       whitelist write_whitelist false true false
       default_whitelist notfixed) w = (tr, r, w') ->
  failures tr = [] ->
  exists affected masked,
    filter_results tr = [(affected, masked)] /\
    emitted tr
    = [ SetLevel "requests" ERROR;
        BasicConfig (verbosity_level verbose);
        Print (json_dumps
                 (JList (map json_record (sorted_key pname affected)))) ].
Proof.
  intros Htarget Hrun Hok.
  destruct (main_outcome h _ _ _ _ _ _ _ _ _ _ _ _ _ _ _ _ _ _ _ _ _
              Htarget Hrun) as (body & e & -> & -> & Hcase).
  rewrite failures_main in Hok.
  destruct Hcase as [[Hfail _]|[[Hm _]|[_ Hdone]]].
  - rewrite (last_failure_nil _ Hok) in Hfail. discriminate.
  - discriminate.
  - destruct Hdone as (tr0 & wl & derivs & nvd & affected & masked & outs
                       & tr_w & -> & HP0 & _ & -> & Hjson & Hww).
    rewrite (Hjson eq_refl).
    apply bystander_filter_results in HP0.
    destruct HP0 as (Hem0 & Hf0 & _ & _).
    exists affected, masked.
    assert (Hw : emitted tr_w = [] /\ filter_results tr_w = []).
    { destruct write_whitelist as [f|].
      - destruct Hww as (wls & text & _ & ->).
        rewrite emitted_app, filter_results_app, emitted_add_from_events,
          filter_results_add_from_events. split; reflexivity.
      - subst tr_w. split; reflexivity. }
    destruct Hw as [Hemw Hfw]. split.
    + rewrite filter_results_main, !filter_results_app, Hf0, Hfw.
      reflexivity.
    + rewrite emitted_main, !emitted_app, Hem0, Hemw. reflexivity.
Qed.

End MoreMainFacts.

(** ** More about dicts *)

Lemma dict_set_fresh {V : Type} (k : string) (v : V) (d : list (string * V)) :
  ~ In k (map fst d) -> dict_set k v d = (d ++ [(k, v)])%list.
Proof.
  induction d as [|[k' v'] d IH]; simpl; intros Hfresh; [reflexivity|].
  destruct (String.eqb k' k) eqn:E.
  - apply String.eqb_eq in E. tauto.
  - rewrite IH by tauto. reflexivity.
Qed.

Lemma dict_fold_fresh {V : Type} (key : V -> string) (xs : list V) :
  forall d,
    NoDup (map fst d ++ map key xs) ->
    fold_left (fun d x => dict_set (key x) x d) xs d
    = (d ++ map (fun x => (key x, x)) xs)%list.
Proof.
  induction xs as [|x xs IH]; simpl; intros d Hnd.
  - rewrite app_nil_r. reflexivity.
  - pose proof (NoDup_remove_2 _ _ _ Hnd) as Hfresh.
    rewrite dict_set_fresh
      by (intros Hin; apply Hfresh; apply in_or_app; left; exact Hin).
    rewrite IH.
    + rewrite <- app_assoc. reflexivity.
    + rewrite map_app. simpl. rewrite <- app_assoc. exact Hnd.
Qed.

Lemma dict_of_distinct {V : Type} (key : V -> string) (xs : list V) :
  NoDup (map key xs) -> values (dict_of key xs) = xs.
Proof.
  intros Hnd. unfold dict_of. rewrite dict_fold_fresh by exact Hnd.
  unfold values. simpl. rewrite map_map. simpl. apply map_id.
Qed.

(** ** More about [run] *)

Section MoreRunFacts.

Context {Whitelist NVD Resource File World : Type}.
Variable h : forall X : Type,
  Op Whitelist NVD Resource File X -> World -> result X * World.

Local Abbreviation check_events := (@check_events Whitelist NVD Resource File).

(** X5: when the affected derivations have distinct names, [run] drops
    nothing: it returns the affected derivations as the store yields
    them. *)
Theorem run_keeps_distinct_names nvd store w tr res w' :
  interp h (run nvd store) w = (tr, inr res, w') ->
  NoDup (map name (filter is_affected (checked tr))) ->
  res = filter is_affected (checked tr).
Proof.
  intros Hrun. apply interp_run in Hrun.
  destruct Hrun as (idss & Hlen & -> & ->).
  rewrite checked_check_events. apply dict_of_distinct.
Qed.

(** The loop of [run] when a check raises: the derivations before it were
    checked, the ones after it are not. *)
Lemma run_loop_raises nvd ds : forall acc w tr e w',
  interp h
    (for_fold ds acc
       (fun affected derivation =>
          bind_prog (call (Derivation_check derivation nvd))
            (fun ids =>
               let derivation := set_affected_by derivation ids in
               if is_affected derivation
               then Ret (affected ++ [derivation])%list
               else Ret affected))) w = (tr, inl e, w') ->
  exists ds1 d ds2 idss,
    ds = (ds1 ++ d :: ds2)%list /\
    List.length idss = List.length ds1 /\
    tr = (check_events nvd ds1 idss
          ++ [EvCall (Derivation_check d nvd) (inl e)])%list.
Proof.
  induction ds as [|d ds IH]; intros acc w tr e w' Hrun.
  - discriminate.
  - cbn [for_fold bind ret Monad_Prog] in Hrun.
    rewrite interp_bind, interp_bind, interp_call in Hrun.
    destruct (h _ (Derivation_check d nvd) w) as [[e0|ids] w1];
      cbn [fst snd] in Hrun.
    + inversion Hrun; subst. exists [], d, ds, []. auto.
    + cbv zeta in Hrun.
      destruct (is_affected (set_affected_by d ids));
        cbn [interp app] in Hrun;
        match type of Hrun with
        | context [interp h (for_fold ds ?a ?b) w1] =>
            destruct (interp h (for_fold ds a b) w1) as [[tr2 r2] w2] eqn:Hrest
        end;
        (destruct r2 as [e2|res]; [|discriminate]);
        inversion Hrun; subst; apply IH in Hrest;
        destruct Hrest as (ds1 & d' & ds2 & idss & -> & Hlen & ->);
        exists (d :: ds1), d', ds2, (ids :: idss);
        (split; [reflexivity|]); (split; [simpl; congruence | reflexivity]).
Qed.

Lemma check_calls_app (tr1 tr2 : trace Whitelist NVD Resource File) :
  check_calls (tr1 ++ tr2) = (check_calls tr1 ++ check_calls tr2)%list.
Proof. apply flat_map_app. Qed.

Lemma checked_app (tr1 tr2 : trace Whitelist NVD Resource File) :
  checked (tr1 ++ tr2) = (checked tr1 ++ checked tr2)%list.
Proof. apply flat_map_app. Qed.

(** X6: when a check raises, [run] raises the same exception at once: the
    derivations the store yields before it were checked, in order, the
    failing check is the last thing that happens, and the derivations after
    it are not checked. *)
Theorem run_stops_at_failing_check nvd store w tr e w' :
  interp h (run nvd store) w = (tr, inl e, w') ->
  exists ds1 d ds2 tr0,
    values (derivations store) = (ds1 ++ d :: ds2)%list /\
    tr = (tr0 ++ [EvCall (Derivation_check d nvd) (inl e)])%list /\
    check_calls tr0 = map (fun d => (d, nvd)) ds1 /\
    List.length (checked tr0) = List.length ds1 /\
    failures tr = [e].
Proof.
  unfold run. cbn [bind ret Monad_Prog]. rewrite interp_bind.
  destruct (interp h (for_fold _ _ _) w) as [[tr1 r1] w1] eqn:Hloop.
  destruct r1 as [e1|affected]; [|discriminate].
  intros Heq. inversion Heq; subst. clear Heq.
  apply run_loop_raises in Hloop.
  destruct Hloop as (ds1 & d & ds2 & idss & Hds & Hlen & ->).
  exists ds1, d, ds2, (check_events nvd ds1 idss).
  split; [exact Hds|]. split; [reflexivity|].
  split; [apply check_calls_check_events, Hlen|].
  split.
  - rewrite checked_check_events. unfold check_outcomes.
    rewrite length_map, length_combine, Hlen. apply Nat.min_id.
  - rewrite failures_app, failures_check_events. reflexivity.
Qed.

End MoreRunFacts.

(** ** Invariants of traces *)

Section KeepsFacts.

Context {Whitelist NVD Resource File World : Type}.
Variable h : forall X : Type,
  Op Whitelist NVD Resource File X -> World -> result X * World.

Local Abbreviation Prog := (Prog Whitelist NVD Resource File).
Local Abbreviation event := (event Whitelist NVD Resource File).

(** An invariant that holds of the empty trace and of the concatenation of
    two traces it holds of. *)
Variable I : list event -> Prop.
Hypothesis I_nil : I [].
Hypothesis I_app : forall tr1 tr2, I tr1 -> I tr2 -> I (tr1 ++ tr2)%list.

Lemma keeps_ret {A : Type} (a : A) : keeps h I (Ret a).
Proof. intros w tr r w' Hrun. inversion Hrun; subst. exact I_nil. Qed.

Lemma keeps_raise {A : Type} e : keeps h I (Raise e : Prog A).
Proof. intros w tr r w' Hrun. inversion Hrun; subst. exact I_nil. Qed.

Lemma keeps_out o : I [EvOut o] -> keeps h I (out o).
Proof. intros Ho w tr r w' Hrun. inversion Hrun; subst. exact Ho. Qed.

Lemma keeps_call {X : Type} (op : Op Whitelist NVD Resource File X) :
  (forall r, I [EvCall op r]) -> keeps h I (call op).
Proof.
  intros Hop w tr r w' Hrun. rewrite interp_call in Hrun.
  inversion Hrun; subst. apply Hop.
Qed.

Lemma keeps_bind {A B : Type} (p : Prog A) (f : A -> Prog B) :
  keeps h I p -> (forall a, keeps h I (f a)) -> keeps h I (bind_prog p f).
Proof.
  intros Hp Hf w tr r w' Hrun. rewrite interp_bind in Hrun.
  destruct (interp h p w) as [[tr1 r1] w1] eqn:H1. apply Hp in H1.
  destruct r1 as [e|a].
  - inversion Hrun; subst. exact H1.
  - destruct (interp h (f a) w1) as [[tr2 r2] w2] eqn:H2. apply Hf in H2.
    inversion Hrun; subst. apply I_app; assumption.
Qed.

Lemma keeps_for_each {X : Type} (xs : list X) (body : X -> Prog unit) :
  (forall x, keeps h I (body x)) -> keeps h I (for_each xs body).
Proof.
  intros Hbody. induction xs as [|x xs IH].
  - apply keeps_ret.
  - apply (keeps_bind (body x)); [apply Hbody | intros _; exact IH].
Qed.

Lemma keeps_for_fold {X S : Type} (xs : list X) (body : S -> X -> Prog S) :
  (forall acc x, keeps h I (body acc x)) ->
  forall acc, keeps h I (for_fold xs acc body).
Proof.
  intros Hbody. induction xs as [|x xs IH]; intros acc.
  - apply keeps_ret.
  - apply (keeps_bind (body acc x)); [apply Hbody | exact IH].
Qed.

Lemma keeps_with {A : Type} enter exit (body : Prog A) :
  (forall r, I [EvCall enter r]) ->
  (forall exc r, I [EvCall (exit exc) r]) ->
  keeps h I body -> keeps h I (with_ enter exit body).
Proof.
  intros Henter Hexit Hbody w tr r w' Hrun. rewrite interp_with in Hrun.
  destruct (h unit enter w) as [[e|u] w1].
  - inversion Hrun; subst. apply Henter.
  - destruct (interp h body w1) as [[trb rb] w2] eqn:Hb. apply Hbody in Hb.
    cbv zeta in Hrun.
    set (exc := match rb with inl e => Some e | inr _ => None end) in Hrun.
    destruct (h unit (exit exc) w2) as [x w3].
    inversion Hrun; subst tr r w'.
    apply (I_app [EvCall enter (inr u)]); [apply Henter|].
    apply I_app; [exact Hb | apply Hexit].
Qed.

Lemma keeps_try_except {A : Type} (p : Prog A) handler :
  keeps h I p ->
  (forall e q, handler e = Some q -> keeps h I q) ->
  keeps h I (try_except p handler).
Proof.
  intros Hp Hh w tr r w' Hrun. rewrite interp_try_except in Hrun.
  destruct (interp h p w) as [[tr1 r1] w1] eqn:H1. apply Hp in H1.
  destruct r1 as [e|a].
  - destruct (handler e) as [q|] eqn:Hq.
    + destruct (interp h q w1) as [[tr2 r2] w2] eqn:H2.
      apply (Hh _ _ Hq) in H2. inversion Hrun; subst.
      apply I_app; assumption.
    + inversion Hrun; subst. exact H1.
  - inversion Hrun; subst. exact H1.
Qed.

End KeepsFacts.

Section ConfinedFacts.

Context {Whitelist NVD Resource File : Type}.

Local Abbreviation event := (event Whitelist NVD Resource File).

Lemma forallb_nil_app (P : event -> bool) :
  forallb P [] = true /\
  forall tr1 tr2 : list event,
    forallb P tr1 = true -> forallb P tr2 = true ->
    forallb P (tr1 ++ tr2) = true.
Proof.
  split; [reflexivity|]. intros tr1 tr2 H1 H2.
  rewrite forallb_app, H1, H2. reflexivity.
Qed.

End ConfinedFacts.

(** ** What the parts of the driver touch *)

Lemma flat_map_nil_app {A B : Type} (f : A -> list B) (l1 l2 : list A) :
  flat_map f l1 = [] -> flat_map f l2 = [] -> flat_map f (l1 ++ l2) = [].
Proof. intros H1 H2. rewrite flat_map_app, H1, H2. reflexivity. Qed.

Ltac keeps_side :=
  try solve [ reflexivity
            | apply forallb_nil_app
            | intros; reflexivity
            | intros; apply forallb_nil_app; assumption
            | intros; apply flat_map_nil_app; assumption ].

Ltac keeps_step :=
  lazymatch goal with
  | |- keeps _ _ (Ret _) => apply keeps_ret; keeps_side
  | |- keeps _ _ (Raise _) => apply keeps_raise; keeps_side
  | |- keeps _ _ (sys_exit _) => apply keeps_raise; keeps_side
  | |- keeps _ _ (out _) => apply keeps_out; keeps_side
  | |- keeps _ _ (call _) => apply keeps_call; keeps_side
  | |- keeps _ _ (with_ _ _ _) => apply keeps_with; keeps_side
  | |- keeps _ _ (for_fold _ _ _) => apply keeps_for_fold; keeps_side
  | |- keeps _ _ (for_each _ _) => apply keeps_for_each; keeps_side
  | |- keeps _ _ (bind_prog _ _) => apply keeps_bind; keeps_side
  | |- keeps _ _ (if ?c then _ else _) => destruct c
  | |- keeps _ _ (match ?c with Some _ => _ | None => _ end) => destruct c
  | |- keeps _ _ (let (_, _) := ?c in _) => destruct c
  | |- keeps _ _ (let _ := _ in _) => cbv zeta
  end; intros.


Section TouchFacts.

Context {Whitelist NVD Resource File World : Type}.
Variable h : forall X : Type,
  Op Whitelist NVD Resource File X -> World -> result X * World.

Variable Derivation_lt : Derivation -> Derivation -> bool.
Variables (cve_url : string -> string) (vulnix_version : string).
Variable json_dumps : JSON -> string.

Local Abbreviation Prog := (Prog Whitelist NVD Resource File).
Local Abbreviation event := (event Whitelist NVD Resource File).

(** X7: the human-readable output only writes lines to the terminal with
    [click]: it calls no collaborator, prints no JSON, logs nothing, never
    raises, and leaves the world as it is. *)
Theorem output_only_writes_lines affected whitelisted show_whitelisted
    verbose w tr r w' :
  interp h
    (output Derivation_lt cve_url affected whitelisted show_whitelisted verbose)
    w = (tr, r, w') ->
  r = inr tt /\ w' = w /\ forallb click_event tr = true.
Proof.
  intros Hrun.
  destruct (prints_output h Derivation_lt cve_url affected whitelisted
              show_whitelisted verbose) as (outs & [] & Hp).
  rewrite Hp in Hrun. inversion Hrun; subst tr r w'.
  split; [reflexivity|]. split; [reflexivity|].
  revert Hp. intros Hp.
  assert (Hk : keeps h (fun tr : list event => forallb click_event tr = true)
                 (output Derivation_lt cve_url affected whitelisted
                    show_whitelisted verbose)).
  { unfold output, print_derivation, print_masked.
    cbn [bind ret Monad_Prog]. repeat keeps_step. }
  apply (Hk w _ _ _ (Hp w)).
Qed.

Lemma nvd_entered_app (tr1 tr2 : list event) :
  nvd_entered (tr1 ++ tr2) = (nvd_entered tr1 ++ nvd_entered tr2)%list.
Proof. apply flat_map_app. Qed.

Lemma nvd_exited_app (tr1 tr2 : list event) :
  nvd_exited (tr1 ++ tr2) = (nvd_exited tr1 ++ nvd_exited tr2)%list.
Proof. apply flat_map_app. Qed.

Lemma nvd_balanced_app (tr1 tr2 : list event) :
  nvd_entered tr1 = nvd_exited tr1 ->
  nvd_entered tr2 = nvd_exited tr2 ->
  nvd_entered (tr1 ++ tr2) = nvd_exited (tr1 ++ tr2).
Proof.
  intros H1 H2. rewrite nvd_entered_app, nvd_exited_app, H1, H2. reflexivity.
Qed.

Lemma outside_nvd_neutral (tr : list event) :
  forallb outside_nvd tr = true -> nvd_entered tr = [] /\ nvd_exited tr = [].
Proof.
  induction tr as [|ev tr IH]; simpl; [auto|].
  intros H. apply andb_prop in H. destruct H as [Hev Htr].
  destruct (IH Htr) as (-> & ->).
  destruct ev as [o|X op r]; simpl in *; [auto|].
  destruct op; simpl in *; try discriminate; auto.
Qed.

Lemma keeps_with_nvd {A : Type} nvd (body : Prog A) :
  keeps h (fun tr : list event => forallb outside_nvd tr = true) body ->
  keeps h (fun tr : list event => nvd_entered tr = nvd_exited tr)
    (with_ (NVD_enter nvd) (NVD_exit nvd) body).
Proof.
  intros Hbody w tr r w' Hrun. rewrite interp_with in Hrun.
  destruct (h unit (NVD_enter nvd) w) as [[e|u] w1].
  - inversion Hrun; subst. reflexivity.
  - destruct (interp h body w1) as [[trb rb] w2] eqn:Hb. apply Hbody in Hb.
    apply outside_nvd_neutral in Hb. destruct Hb as [Hin Hout].
    cbv zeta in Hrun.
    set (exc := match rb with inl e => Some e | inr _ => None end) in Hrun.
    destruct (h unit (NVD_exit nvd exc) w2) as [x w3].
    inversion Hrun; subst tr r w'.
    change (EvCall (NVD_enter nvd) (inr u) :: trb ++ [EvCall (NVD_exit nvd exc) x])%list
      with ([EvCall (NVD_enter nvd) (inr u)] ++ trb ++ [EvCall (NVD_exit nvd exc) x])%list.
    rewrite !nvd_entered_app, !nvd_exited_app, Hin, Hout. reflexivity.
Qed.

Ltac balanced_step :=
  first
    [ lazymatch goal with
      | |- keeps _ _ (with_ (NVD_enter _) _ _) => apply keeps_with_nvd
      | |- keeps _ _ (bind_prog _ _) =>
          apply keeps_bind; [apply nvd_balanced_app | | intros]
      | |- keeps _ _ (with_ _ _ _) =>
          apply keeps_with;
          [apply nvd_balanced_app | intros; reflexivity | intros; reflexivity |]
      | |- keeps _ _ (for_fold _ _ _) =>
          apply keeps_for_fold; [reflexivity | apply nvd_balanced_app | intros]
      | |- keeps _ _ (for_each _ _) =>
          apply keeps_for_each; [reflexivity | apply nvd_balanced_app | intros]
      | |- keeps _ _ (try_except _ _) =>
          apply keeps_try_except; [apply nvd_balanced_app | | intros]
      end
    | keeps_step ].

(** X8: every NVD context that [main] enters is left again, whatever
    happens inside it: in every run, the contexts whose [__enter__] returned
    are the contexts whose [__exit__] was called. *)
Theorem nvd_context_is_always_left
    verbose gc_roots system path mirror cache_dir requisites
    whitelist write_whitelist version json show_whitelisted
    default_whitelist notfixed w tr r w' :
  interp h
    (main Derivation_lt cve_url vulnix_version json_dumps
       verbose gc_roots system path mirror cache_dir requisites
       whitelist write_whitelist version json show_whitelisted
       default_whitelist notfixed) w = (tr, r, w') ->
  nvd_entered tr = nvd_exited tr.
Proof.
  revert w tr r w'.
  change (keeps h (fun tr : list event => nvd_entered tr = nvd_exited tr)
            (main Derivation_lt cve_url vulnix_version json_dumps
               verbose gc_roots system path mirror cache_dir requisites
               whitelist write_whitelist version json show_whitelisted
               default_whitelist notfixed)).
  unfold main, howto, init_logging, with_Timer, populate_store, run,
    output_json, output, print_derivation, print_masked.
  cbn [bind ret Monad_Prog].
  repeat balanced_step.
  destruct e; try discriminate. injection H as <-.
  intros w tr r w' Hq. inversion Hq. reflexivity.
Qed.

End TouchFacts.

(** ** What the output shows *)

Section ShowsFacts.

Context {Whitelist NVD Resource File World : Type}.
Variable h : forall X : Type,
  Op Whitelist NVD Resource File X -> World -> result X * World.

Variable Derivation_lt : Derivation -> Derivation -> bool.
Variable cve_url : string -> string.

Local Abbreviation Prog := (Prog Whitelist NVD Resource File).
Local Abbreviation event := (event Whitelist NVD Resource File).

Lemma shows_out o : shows h o (out o : Prog unit).
Proof. intros w tr r w' Hrun. inversion Hrun; subst. left. reflexivity. Qed.

Lemma shows_bind_l {A B : Type} o (p : Prog A) (f : A -> Prog B) :
  shows h o p -> shows h o (bind_prog p f).
Proof.
  intros Hp w tr r w' Hrun. rewrite interp_bind in Hrun.
  destruct (interp h p w) as [[tr1 r1] w1] eqn:H1. apply Hp in H1.
  destruct r1 as [e|a].
  - inversion Hrun; subst. exact H1.
  - destruct (interp h (f a) w1) as [[tr2 r2] w2].
    inversion Hrun; subst. rewrite emitted_app. apply in_or_app. left. exact H1.
Qed.

Lemma shows_bind_r {A B : Type} o (p : Prog A) (f : A -> Prog B) :
  prints h p -> (forall a, shows h o (f a)) -> shows h o (bind_prog p f).
Proof.
  intros (outs & a & Hp) Hf w tr r w' Hrun. rewrite interp_bind, Hp in Hrun.
  destruct (interp h (f a) w) as [[tr2 r2] w2] eqn:H2. apply Hf in H2.
  inversion Hrun; subst. rewrite emitted_app. apply in_or_app. right. exact H2.
Qed.

Lemma shows_for_each {X : Type} o (xs : list X) (body : X -> Prog unit) x :
  In x xs -> (forall y, prints h (body y)) -> shows h o (body x) ->
  shows h o (for_each xs body).
Proof.
  intros Hin Hprints Hx. induction xs as [|y xs IH]; [contradiction|].
  cbn [for_each bind ret Monad_Prog]. destruct Hin as [->|Hin].
  - apply shows_bind_l. exact Hx.
  - apply shows_bind_r; [apply Hprints | intros _; apply IH, Hin].
Qed.

(** X9: the human-readable output leaves out no finding: the name of every
    affected derivation is shown, and so is every CVE identifier of the
    derivation (as a link when the output is verbose). *)
Theorem output_shows_every_finding affected whitelisted show_whitelisted
    verbose d w tr r w' :
  In d affected ->
  interp h
    (output Derivation_lt cve_url affected whitelisted show_whitelisted verbose)
    w = (tr, r, w') ->
  In (Secho (name d ++ nl) "yellow") (emitted tr) /\
  forall cve, In cve (affected_by d) ->
    In (Echo (tab ++ (if (0 <? verbose)%nat then cve_url cve else cve)) true)
       (emitted tr).
Proof.
  intros Hin Hrun.
  assert (Hsorted : In d (sorted Derivation_lt affected))
    by (apply sorted_In; exact Hin).
  assert (Hall : forall o,
            shows h o (print_derivation cve_url d verbose : Prog unit) ->
            In o (emitted tr)).
  { intros o Ho. revert Hrun. unfold output. cbv zeta.
    destruct affected as [|d0 affected]; [contradiction|].
    cbn [List.length Nat.eqb andb bind ret Monad_Prog].
    revert w tr r w'.
    apply shows_bind_r; [apply prints_out | intros _].
    apply shows_bind_l.
    apply shows_for_each with (x := d);
      [exact Hsorted | intros; apply prints_print_derivation | exact Ho]. }
  split.
  - apply Hall. unfold print_derivation. cbn [bind ret Monad_Prog].
    apply shows_bind_r; [apply prints_out | intros _].
    apply shows_bind_l. apply shows_out.
  - intros cve Hcve. apply Hall.
    unfold print_derivation. cbn [bind ret Monad_Prog].
    apply shows_bind_r; [apply prints_out | intros _].
    apply shows_bind_r; [apply prints_out | intros _].
    apply shows_bind_r;
      [destruct (1 <=? verbose)%nat; [apply prints_out | apply prints_ret]
      | intros _].
    apply shows_bind_r; [apply prints_out | intros _].
    cbv zeta.
    apply shows_for_each with (x := cve);
      [exact Hcve | intros; apply prints_out |].
    destruct (0 <? verbose)%nat; apply shows_out.
Qed.

(** X10: masked findings are not passed over in silence: when asked to show
    them, the output has a line for each; otherwise it says how many there
    are. *)
Theorem output_accounts_for_masked affected whitelisted show_whitelisted
    verbose w tr r w' :
  whitelisted <> [] ->
  interp h
    (output Derivation_lt cve_url affected whitelisted show_whitelisted verbose)
    w = (tr, r, w') ->
  if show_whitelisted then
    forall masked, In masked whitelisted ->
      In (Echo (name (deriv masked) ++ " (whitelisted"
                ++ (if matchtype_eqb (matchtype masked) MATCH_TEMP
                    then " until " ++ str_until (until (rule masked))
                    else "")
                ++ ")" ++ nl) true) (emitted tr)
  else
    In (Secho ("Nothing to show, but " ++ str_of_nat (List.length whitelisted)
               ++ " left out due to whitelisting") "blue") (emitted tr) \/
    In (Secho (nl ++ "...and " ++ str_of_nat (List.length whitelisted)
               ++ " more whitelisted (use `--show-whitelisted` to display)")
          "blue") (emitted tr).
Proof.
  intros Hne Hrun.
  assert (Hnonempty : nonempty whitelisted = true)
    by (destruct whitelisted; [contradiction | reflexivity]).
  revert Hrun. unfold output. cbv zeta. rewrite Hnonempty.
  cbn [negb bind ret Monad_Prog].
  destruct show_whitelisted.
  - rewrite andb_false_r. intros Hrun masked Hin.
    revert w tr r w' Hrun.
    apply shows_bind_r; [apply prints_out | intros _].
    apply shows_bind_r;
      [apply prints_for_each; intros; apply prints_print_derivation
      | intros _].
    apply shows_bind_r; [apply prints_out | intros _].
    apply shows_for_each with (x := masked);
      [exact Hin | intros; apply prints_print_masked |].
    unfold print_masked. cbn [bind ret Monad_Prog]. cbv zeta.
    apply shows_bind_r; [apply prints_out | intros _].
    apply shows_bind_l. apply shows_out.
  - rewrite andb_true_r.
    destruct (List.length affected =? 0)%nat.
    + intros Hrun. left. inversion Hrun; subst. left. reflexivity.
    + intros Hrun. right. revert w tr r w' Hrun.
      apply shows_bind_r; [apply prints_out | intros _].
      apply shows_bind_r;
        [apply prints_for_each; intros; apply prints_print_derivation
        | intros _].
      apply shows_out.
Qed.

End ShowsFacts.

(** ** The headings of the output *)

Section HeadingFacts.

Context {Whitelist NVD Resource File World : Type}.
Variable h : forall X : Type,
  Op Whitelist NVD Resource File X -> World -> result X * World.

Variable Derivation_lt : Derivation -> Derivation -> bool.
Variable cve_url : string -> string.

Local Abbreviation Prog := (Prog Whitelist NVD Resource File).
Local Abbreviation event := (event Whitelist NVD Resource File).

Lemma headings_app (tr1 tr2 : list event) :
  headings (tr1 ++ tr2) = (headings tr1 ++ headings tr2)%list.
Proof. apply flat_map_app. Qed.

Lemma heads_ret {A : Type} (a : A) : heads h [] (Ret a).
Proof. exists [], a. split; reflexivity. Qed.

Lemma heads_out o : heads h (headings [EvOut o : event]) (out o).
Proof. exists [o], tt. split; reflexivity. Qed.

Lemma heads_bind {A B : Type} l1 l2 (p : Prog A) (f : A -> Prog B) :
  heads h l1 p -> (forall a, heads h l2 (f a)) ->
  heads h (l1 ++ l2) (bind_prog p f).
Proof.
  intros (outs1 & a & Hp & H1) Hf.
  destruct (Hf a) as (outs2 & b & Hq & H2).
  exists (outs1 ++ outs2)%list, b. split.
  - intros w. rewrite interp_bind, Hp, Hq, map_app. reflexivity.
  - rewrite map_app, headings_app, H1, H2. reflexivity.
Qed.

Lemma heads_for_each {X : Type} (f : X -> list string) (xs : list X)
    (body : X -> Prog unit) :
  (forall x, heads h (f x) (body x)) ->
  heads h (flat_map f xs) (for_each xs body).
Proof.
  intros Hbody. induction xs as [|x xs IH].
  - apply heads_ret.
  - apply (heads_bind (f x) (flat_map f xs) (body x)); [apply Hbody|].
    intros _. exact IH.
Qed.

Lemma heads_eq {A : Type} l l' (p : Prog A) :
  heads h l p -> l = l' -> heads h l' p.
Proof. intros Hp <-. exact Hp. Qed.

Lemma flat_map_none {X Y : Type} (xs : list X) :
  flat_map (fun _ : X => @nil Y) xs = [].
Proof. induction xs; simpl; auto. Qed.

Lemma flat_map_one {X Y : Type} (g : X -> Y) (xs : list X) :
  flat_map (fun x => [g x]) xs = map g xs.
Proof. induction xs as [|x xs IH]; simpl; [|rewrite IH]; reflexivity. Qed.

Lemma heads_lines {X : Type} (g : X -> string) (xs : list X) :
  heads h [] (for_each xs (fun x => out (Echo (g x) true)) : Prog unit).
Proof.
  apply heads_eq with (l := flat_map (fun _ : X => @nil string) xs);
    [|apply flat_map_none].
  apply heads_for_each. intros x. apply (heads_out (Echo (g x) true)).
Qed.

Lemma heads_print_derivation d verbose :
  heads h [name d ++ nl] (print_derivation cve_url d verbose : Prog unit).
Proof.
  unfold print_derivation. cbn [bind ret Monad_Prog].
  apply (heads_bind [] [name d ++ nl]); [apply (heads_out (Echo _ true))|].
  intros _.
  apply (heads_bind [name d ++ nl] []);
    [apply (heads_out (Secho (name d ++ nl) "yellow"))|].
  intros _.
  apply (heads_bind [] []).
  { destruct (1 <=? verbose)%nat;
      [apply (heads_out (Secho _ "magenta")) | apply heads_ret]. }
  intros _.
  apply (heads_bind [] []); [apply (heads_out (Echo _ true))|].
  intros _. cbv zeta. apply heads_lines.
Qed.

Lemma heads_print_masked masked verbose :
  heads h [] (print_masked cve_url masked verbose : Prog unit).
Proof.
  unfold print_masked. cbn [bind ret Monad_Prog]. cbv zeta.
  apply (heads_bind [] []); [apply (heads_out (Echo _ true))|]. intros _.
  apply (heads_bind [] []); [apply (heads_out (Echo _ true))|]. intros _.
  apply (heads_bind [] []).
  { destruct (1 <=? verbose)%nat;
      [apply (heads_out (Echo _ true)) | apply heads_ret]. }
  intros _.
  apply (heads_bind [] []); [apply (heads_out (Echo _ true))|]. intros _.
  apply (heads_bind [] []); [apply heads_lines|]. intros _.
  apply (heads_bind [] []).
  { destruct (nonempty _); [|apply heads_ret].
    apply (heads_bind [] []); [apply (heads_out (Echo _ true))|]. intros _.
    apply heads_lines. }
  intros _.
  destruct (nonempty _); [|apply heads_ret].
  apply (heads_bind [] []); [apply (heads_out (Echo _ true))|]. intros _.
  apply heads_lines.
Qed.

(** X11: the human-readable output has one heading for each affected
    derivation, its name, and the headings come in the sorted order of the
    derivations; masked derivations get no heading. *)
Theorem output_heads_findings_in_order affected whitelisted show_whitelisted
    verbose w tr r w' :
  interp h
    (output Derivation_lt cve_url affected whitelisted show_whitelisted verbose)
    w = (tr, r, w') ->
  headings tr = map (fun d => name d ++ nl) (sorted Derivation_lt affected).
Proof.
  assert (Hh : heads h (map (fun d => name d ++ nl) (sorted Derivation_lt affected))
                 (output Derivation_lt cve_url affected whitelisted
                    show_whitelisted verbose : Prog unit)).
  { unfold output. cbv zeta.
    destruct ((List.length affected =? 0)%nat && negb show_whitelisted)
      eqn:Hnone.
    - apply andb_prop in Hnone. destruct Hnone as [Hlen _].
      apply Nat.eqb_eq in Hlen. destruct affected; [|discriminate].
      destruct (nonempty whitelisted);
        [apply (heads_out (Secho _ "blue")) | apply (heads_out (Secho _ "green"))].
    - cbn [bind ret Monad_Prog].
      apply (heads_bind []
               (map (fun d => name d ++ nl) (sorted Derivation_lt affected)));
        [apply (heads_out (Secho _ "red"))|].
      intros _.
      apply heads_eq
        with (l := app (map (fun d => name d ++ nl)
                          (sorted Derivation_lt affected)) []);
        [|apply app_nil_r].
      apply heads_bind.
      + rewrite <- flat_map_one. apply heads_for_each.
        intros d. apply heads_print_derivation.
      + intros _. destruct (negb (nonempty whitelisted)); [apply heads_ret|].
        destruct show_whitelisted; [|apply (heads_out (Secho _ "blue"))].
        apply (heads_bind [] []); [apply (heads_out (Secho _ "blue"))|].
        intros _.
        apply heads_eq
          with (l := flat_map (fun _ : Masked => @nil string) whitelisted);
          [|apply flat_map_none].
        apply heads_for_each. intros m. apply heads_print_masked. }
  destruct Hh as (outs & a & Hrun & Hheads).
  rewrite Hrun. intros Heq. inversion Heq; subst. exact Hheads.
Qed.

End HeadingFacts.

(** ** Stopping at the first failure; populating the store *)

Section StoreFacts.

Context {Whitelist NVD Resource File World : Type}.
Variable h : forall X : Type,
  Op Whitelist NVD Resource File X -> World -> result X * World.

Local Abbreviation Prog := (Prog Whitelist NVD Resource File).
Local Abbreviation event := (event Whitelist NVD Resource File).

Lemma fails_fast_ret {A : Type} (a : A) : fails_fast h (Ret a).
Proof. intros w tr r w' Hrun. inversion Hrun; subst. reflexivity. Qed.

Lemma fails_fast_call {X : Type} (op : Op Whitelist NVD Resource File X) :
  fails_fast h (call op).
Proof.
  intros w tr r w' Hrun. rewrite interp_call in Hrun.
  inversion Hrun; subst. destruct (fst (h X op w)) as [e|x].
  - exists [], X, op. auto.
  - reflexivity.
Qed.

Lemma fails_fast_bind {A B : Type} (p : Prog A) (f : A -> Prog B) :
  fails_fast h p -> (forall a, fails_fast h (f a)) ->
  fails_fast h (bind_prog p f).
Proof.
  intros Hp Hf w tr r w' Hrun. rewrite interp_bind in Hrun.
  destruct (interp h p w) as [[tr1 r1] w1] eqn:H1. apply Hp in H1.
  destruct r1 as [e|a].
  - inversion Hrun; subst. exact H1.
  - destruct (interp h (f a) w1) as [[tr2 r2] w2] eqn:H2. apply Hf in H2.
    inversion Hrun; subst. destruct r as [e|b].
    + destruct H2 as (tr0 & X & op & -> & Hok).
      exists (tr1 ++ tr0)%list, X, op. split; [apply app_assoc|].
      rewrite failures_app, H1, Hok. reflexivity.
    + rewrite failures_app, H1, H2. reflexivity.
Qed.

Lemma fails_fast_for_fold {X S : Type} (xs : list X) (body : S -> X -> Prog S) :
  (forall acc x, fails_fast h (body acc x)) ->
  forall acc, fails_fast h (for_fold xs acc body).
Proof.
  intros Hbody. induction xs as [|x xs IH]; intros acc.
  - apply fails_fast_ret.
  - apply (fails_fast_bind (body acc x)); [apply Hbody | exact IH].
Qed.

Lemma store_calls_app (tr1 tr2 : list event) :
  store_calls (tr1 ++ tr2) = (store_calls tr1 ++ store_calls tr2)%list.
Proof. apply flat_map_app. Qed.

(** The loop of [populate_store] when no call raises. *)
Lemma add_path_loop paths : forall store w tr store' w',
  interp h
    (for_fold paths store
       (fun (store : Store) (path : string) =>
          call (Store_add_path store path))) w = (tr, inr store', w') ->
  store_calls tr = map AddPath paths.
Proof.
  induction paths as [|path paths IH]; intros store w tr store' w' Hrun.
  - inversion Hrun; subst. reflexivity.
  - cbn [for_fold bind ret Monad_Prog] in Hrun.
    rewrite interp_bind, interp_call in Hrun.
    destruct (h _ (Store_add_path store path) w) as [[e|store1] w1];
      cbn [fst snd] in Hrun; [discriminate|].
    destruct (interp h (for_fold paths store1 _) w1) as [[tr2 r2] w2] eqn:Hrest.
    destruct r2 as [e|store2]; [discriminate|].
    inversion Hrun; subst. apply IH in Hrest.
    simpl. f_equal. exact Hrest.
Qed.

(** The calls a [populate_store] that returns has made into the store. *)
Lemma populate_store_calls gc_roots paths requisites w tr store w' :
  interp h (populate_store gc_roots paths requisites) w = (tr, inr store, w') ->
  store_calls tr
  = (StoreNew requisites
     :: (if gc_roots then [AddGcRoots] else []) ++ map AddPath paths)%list.
Proof.
  unfold populate_store. cbn [bind ret Monad_Prog].
  rewrite interp_bind, interp_call.
  destruct (h _ (Store_new requisites) w) as [[e|s0] w0]; cbn [fst snd];
    [discriminate|].
  rewrite interp_bind.
  destruct (interp h (if gc_roots then call (Store_add_gc_roots s0) else Ret s0)
              w0) as [[trG rG] wG] eqn:HG.
  destruct rG as [e|s1]; [discriminate|].
  assert (HcG : store_calls trG = if gc_roots then [AddGcRoots] else []).
  { destruct gc_roots.
    - rewrite interp_call in HG. inversion HG; subst. reflexivity.
    - inversion HG; subst. reflexivity. }
  rewrite interp_bind.
  destruct (interp h (for_fold paths s1 _) wG) as [[trP rP] wP] eqn:HP.
  destruct rP as [e|s2]; [discriminate|].
  apply add_path_loop in HP.
  cbn [interp]. intros Heq. inversion Heq; subst.
  change (EvCall (Store_new requisites) (inr s0) :: (trG ++ trP ++ []))%list
    with ([EvCall (Store_new requisites) (inr s0)] ++ trG ++ trP ++ [])%list.
  rewrite !store_calls_app, HcG, HP, app_nil_r. reflexivity.
Qed.

(** X12: a [populate_store] that returns has made a new store with the
    requisites flag, added the GC roots if and only if asked to, and then
    added every path once, in the order given; and it has done nothing
    else. *)
Theorem populate_store_adds_roots_and_paths gc_roots paths requisites
    w tr store w' :
  interp h (populate_store gc_roots paths requisites) w = (tr, inr store, w') ->
  store_calls tr
  = (StoreNew requisites
     :: (if gc_roots then [AddGcRoots] else []) ++ map AddPath paths)%list /\
  forallb store_event tr = true /\
  failures tr = [].
Proof.
  intros Hrun. split; [|split].
  - apply (populate_store_calls _ _ _ _ _ _ _ Hrun).
  - revert w tr store w' Hrun.
    assert (Hk : keeps h (fun tr : list event => forallb store_event tr = true)
                   (populate_store gc_roots paths requisites)).
    { unfold populate_store. cbn [bind ret Monad_Prog].
      apply keeps_bind; [apply forallb_nil_app | | intros s0].
      { apply keeps_call. reflexivity. }
      apply keeps_bind; [apply forallb_nil_app | | intros s1].
      { destruct gc_roots;
          [apply keeps_call; reflexivity | apply keeps_ret; reflexivity]. }
      apply keeps_bind; [apply forallb_nil_app | | intros s2].
      { apply keeps_for_fold; [reflexivity | apply forallb_nil_app |].
        intros. apply keeps_call. reflexivity. }
      apply keeps_ret. reflexivity. }
    intros w tr store w' Hrun. apply (Hk _ _ _ _ Hrun).
  - assert (Hff : fails_fast h (populate_store gc_roots paths requisites)).
    { unfold populate_store. cbn [bind ret Monad_Prog].
      apply fails_fast_bind; [apply fails_fast_call | intros s0].
      apply fails_fast_bind;
        [destruct gc_roots; [apply fails_fast_call | apply fails_fast_ret]
        | intros s1].
      apply fails_fast_bind;
        [apply fails_fast_for_fold; intros; apply fails_fast_call
        | intros s2; apply fails_fast_ret]. }
    apply (Hff _ _ _ _ Hrun).
Qed.

(** X13: when a call into the store raises, [populate_store] raises the
    same exception at once: the failing call is the last thing it does, and
    no call before it had raised. *)
Theorem populate_store_stops_at_failure gc_roots paths requisites
    w tr e w' :
  interp h (populate_store gc_roots paths requisites) w = (tr, inl e, w') ->
  exists tr0 X (op : Op Whitelist NVD Resource File X),
    tr = (tr0 ++ [EvCall op (inl e)])%list /\
    failures tr0 = [] /\
    store_event (EvCall op (inl e)) = true.
Proof.
  intros Hrun.
  assert (Hff : fails_fast h (populate_store gc_roots paths requisites)).
  { unfold populate_store. cbn [bind ret Monad_Prog].
    apply fails_fast_bind; [apply fails_fast_call | intros s0].
    apply fails_fast_bind;
      [destruct gc_roots; [apply fails_fast_call | apply fails_fast_ret]
      | intros s1].
    apply fails_fast_bind;
      [apply fails_fast_for_fold; intros; apply fails_fast_call
      | intros s2; apply fails_fast_ret]. }
  assert (Hk : keeps h (fun tr : list event => forallb store_event tr = true)
                 (populate_store gc_roots paths requisites)).
  { unfold populate_store. cbn [bind ret Monad_Prog].
    apply keeps_bind; [apply forallb_nil_app | | intros s0].
    { apply keeps_call. reflexivity. }
    apply keeps_bind; [apply forallb_nil_app | | intros s1].
    { destruct gc_roots;
        [apply keeps_call; reflexivity | apply keeps_ret; reflexivity]. }
    apply keeps_bind; [apply forallb_nil_app | | intros s2].
    { apply keeps_for_fold; [reflexivity | apply forallb_nil_app |].
      intros. apply keeps_call. reflexivity. }
    apply keeps_ret. reflexivity. }
  pose proof (Hff _ _ _ _ Hrun) as (tr0 & X & op & -> & Hok).
  exists tr0, X, op. split; [reflexivity|]. split; [exact Hok|].
  pose proof (Hk _ _ _ _ Hrun) as Hall. cbv beta in Hall.
  rewrite forallb_app in Hall. apply andb_prop in Hall.
  destruct Hall as [_ Hlast]. simpl in Hlast.
  rewrite andb_true_r in Hlast. exact Hlast.
Qed.

End StoreFacts.

(** ** How the parts of [main] fit together *)

Section ComposeFacts.

Context {Whitelist NVD Resource File World : Type}.
Variable h : forall X : Type,
  Op Whitelist NVD Resource File X -> World -> result X * World.

Variable Derivation_lt : Derivation -> Derivation -> bool.
Variables (cve_url : string -> string) (vulnix_version : string).
Variable json_dumps : JSON -> string.

Local Abbreviation Prog := (Prog Whitelist NVD Resource File).
Local Abbreviation event := (event Whitelist NVD Resource File).

(** The trace of a scan that returns, part by part. *)
Lemma main_scan_trace gc_roots paths mirror cache_dir requisites whitelist
    w tr wl affected masked w' :
  interp h (main_scan gc_roots paths mirror cache_dir requisites whitelist) w
  = (tr, inr (wl, (affected, masked)), w') ->
  exists trA wA trB store wB nvd wD trU wU trR derivs wT wR,
    interp h
      (with_Timer "Load whitelists"
         (bind_prog (call Whitelist_new)
            (fun whitelist0 : Whitelist =>
               for_fold whitelist whitelist0
                 (fun (whitelist1 : Whitelist) (wl : Resource) =>
                    bind_prog (call (Whitelist_load wl))
                      (fun loaded : Whitelist =>
                         call (Whitelist_merge whitelist1 loaded)))))) w
    = (trA, inr wl, wA) /\
    interp h
      (with_Timer "Load derivations"
         (populate_store gc_roots paths requisites)) wA
    = (trB, inr store, wB) /\
    interp h (with_Timer "Load NVD data" (call (NVD_update nvd))) wD
    = (trU, inr tt, wU) /\
    interp h (run nvd store) wT = (trR, inr derivs, wR) /\
    tr = (trA ++ trB
          ++ EvCall (NVD_new mirror cache_dir) (inr nvd)
          :: EvCall (NVD_enter nvd) (inr tt)
          :: trU
          ++ EvCall (Timer_enter "Scan vulnerabilities") (inr tt)
          :: trR
          ++ [ EvCall (Whitelist_filter wl derivs) (inr (affected, masked));
               EvCall (Timer_exit "Scan vulnerabilities" None) (inr tt);
               EvCall (NVD_exit nvd None) (inr tt) ])%list.
Proof.
  unfold main_scan. cbn [bind ret Monad_Prog]. rewrite interp_bind.
  destruct (interp h (with_Timer "Load whitelists" _) w)
    as [[trA [e|wl0]] wA] eqn:HA; [discriminate|].
  rewrite interp_bind.
  destruct (interp h (with_Timer "Load derivations" _) wA)
    as [[trB [e|store]] wB] eqn:HB; [discriminate|].
  rewrite interp_bind, interp_call.
  destruct (h _ (NVD_new mirror cache_dir) wB) as [[e|nvd] wC]; cbn [fst snd];
    [discriminate|].
  rewrite interp_bind, interp_with.
  destruct (h unit (NVD_enter nvd) wC) as [[e|u] wD]; [discriminate|].
  rewrite interp_bind.
  destruct (interp h (with_Timer "Load NVD data" _) wD)
    as [[trU [e|uU]] wU] eqn:HU.
  { cbv zeta. destruct (h unit (NVD_exit nvd (Some e)) wU) as [[e'|u'] wX];
      discriminate. }
  unfold with_Timer at 1. rewrite interp_with.
  destruct (h unit (Timer_enter "Scan vulnerabilities") wU) as [[e|uT] wT].
  { cbv zeta. destruct (h unit (NVD_exit nvd (Some e)) wT) as [[e'|u'] wX];
      discriminate. }
  rewrite interp_bind.
  destruct (interp h (run nvd store) wT) as [[trR [e|derivs]] wR] eqn:HR.
  { cbv zeta.
    destruct (h unit (Timer_exit "Scan vulnerabilities" (Some e)) wR)
      as [[e1|u1] wX1];
      [destruct (h unit (NVD_exit nvd (Some e1)) wX1) as [[e'|u'] wX]
      |destruct (h unit (NVD_exit nvd (Some e)) wX1) as [[e'|u'] wX]];
      discriminate. }
  rewrite interp_call.
  destruct (h _ (Whitelist_filter wl0 derivs) wR) as [[e|found] wF];
    cbn [fst snd]; cbv zeta.
  { destruct (h unit (Timer_exit "Scan vulnerabilities" (Some e)) wF)
      as [[e1|u1] wX1];
      [destruct (h unit (NVD_exit nvd (Some e1)) wX1) as [[e'|u'] wX]
      |destruct (h unit (NVD_exit nvd (Some e)) wX1) as [[e'|u'] wX]];
      discriminate. }
  destruct (h unit (Timer_exit "Scan vulnerabilities" None) wF)
    as [[e1|u1] wX1].
  { destruct (h unit (NVD_exit nvd (Some e1)) wX1) as [[e'|u'] wX];
      discriminate. }
  destruct (h unit (NVD_exit nvd None) wX1) as [[e'|u'] wX]; [discriminate|].
  cbn [interp]. intros Heq. inversion Heq; subst. clear Heq.
  destruct u, uT, u1, u'.
  destruct uU.
  exists trA, wA, trB, store, wB, nvd, wD, trU, wU, trR, derivs, wT, wR.
  split; [first [exact HA | reflexivity]|].
  split; [first [exact HB | reflexivity]|].
  split; [first [exact HU | reflexivity]|].
  split; [first [exact HR | reflexivity]|].
  rewrite app_nil_r. repeat (rewrite <- ?app_assoc; cbn [app]). reflexivity.
Qed.

Lemma with_Timer_returns {A : Type} label (body : Prog A) w tr a w' :
  interp h (with_Timer label body) w = (tr, inr a, w') ->
  exists trb w1 w2,
    interp h body w1 = (trb, inr a, w2) /\
    tr = (EvCall (Timer_enter label) (inr tt) :: trb
          ++ [EvCall (Timer_exit label None) (inr tt)])%list.
Proof.
  unfold with_Timer. rewrite interp_with.
  destruct (h unit (Timer_enter label) w) as [[e|u] w1]; [discriminate|].
  destruct (interp h body w1) as [[trb [e|b]] w2] eqn:Hb; cbv zeta.
  - destruct (h unit (Timer_exit label (Some e)) w2) as [[e'|u'] w3];
      discriminate.
  - destruct (h unit (Timer_exit label None) w2) as [[e'|u'] w3];
      [discriminate|].
    intros Heq. inversion Heq; subst. destruct u, u'.
    exists trb, w1, w2. split; [exact Hb | reflexivity].
Qed.

Lemma report_event_readers (tr : list event) :
  forallb report_event tr = true ->
  store_calls tr = [] /\ loaded tr = [] /\ filter_calls tr = [] /\
  checked tr = [] /\ check_calls tr = [].
Proof.
  induction tr as [|ev tr IH]; simpl; [auto 6|].
  intros H. apply andb_prop in H. destruct H as [Hev Htr].
  destruct (IH Htr) as (-> & -> & -> & -> & ->).
  destruct ev as [o|X op r]; simpl in *; [auto 6|].
  destruct op; simpl in *; try discriminate; auto 6.
Qed.

(** A run of [main] that no collaborator disturbs is a scan that returns,
    followed by events of the report. *)
Lemma main_scanned verbose gc_roots system path mirror cache_dir requisites
    whitelist write_whitelist json show_whitelisted default_whitelist notfixed
    w tr r w' :
  gc_roots || system || nonempty path = true ->
  interp h
    (main Derivation_lt cve_url vulnix_version json_dumps
       verbose gc_roots system path mirror cache_dir requisites
       whitelist write_whitelist false json show_whitelisted
       default_whitelist notfixed) w = (tr, r, w') ->
  failures tr = [] ->
  exists trS wl affected masked w1 rest,
    interp h
      (main_scan gc_roots
         (if system then (path ++ [CURRENT_SYSTEM])%list else path)
         mirror cache_dir requisites whitelist) w
    = (trS, inr (wl, (affected, masked)), w1) /\
    tr = (EvOut (SetLevel "requests" ERROR)
          :: EvOut (BasicConfig (verbosity_level verbose))
          :: trS ++ rest)%list /\
    forallb report_event rest = true.
Proof.
  intros Htarget Hrun Hok. revert Hrun.
  rewrite (interp_main h _ _ _ _ _ _ _ _ _ _ _ _ _ _ _ _ _ _ Htarget).
  cbv zeta. rewrite interp_try_except, interp_bind.
  destruct (interp h (main_scan _ _ _ _ _ _) w) as [[trS rS] wS] eqn:HS.
  destruct rS as [e|[wl [affected masked]]].
  - intros Hrun. exfalso.
    pose proof (scans_main_scan h _ _ _ _ _ _ _ _ _ _ HS) as [_ Hlast].
    assert (Hf : failures trS = []).
    { destruct e; cbn in Hrun; inversion Hrun; subst;
        match type of Hok with
        | failures (?a :: ?b :: ?l) = _ =>
            change (a :: b :: l) with ([a; b] ++ l)%list in Hok
        end;
        rewrite !failures_app in Hok;
        apply app_eq_nil in Hok; destruct Hok as [_ Hok];
        try (apply app_eq_nil in Hok; destruct Hok as [Hok _]); exact Hok. }
    rewrite (last_failure_nil _ Hf) in Hlast. discriminate.
  - cbn [fst snd].
    destruct (interp h (main_report _ _ _ _ _ _ _ _ _ _) wS)
      as [[trR rR] wR] eqn:HR.
    assert (Hk : forallb report_event trR = true).
    { revert HR.
      generalize wS (trR) (rR) (wR).
      change (keeps h (fun tr : list event => forallb report_event tr = true)
                (main_report Derivation_lt cve_url json_dumps verbose wl
                   write_whitelist json show_whitelisted affected masked)).
      unfold main_report, output_json, output, print_derivation, print_masked.
      cbn [bind ret Monad_Prog]. repeat keeps_step. }
    destruct rR as [e|u].
    + intros Hrun. exists trS, wl, affected, masked, wS.
      exists (trR ++ caught e)%list. split; [reflexivity|].
      split; [|rewrite forallb_app, Hk; destruct e; reflexivity].
      destruct e; cbn in Hrun; inversion Hrun; subst; cbn [caught];
        rewrite ?app_nil_r, <- ?app_assoc; reflexivity.
    + intros Hrun. inversion Hrun; subst.
      exists trS, wl, affected, masked, wS, trR. auto.
Qed.

End ComposeFacts.

(** ** A run of [main] that no collaborator disturbs, part by part *)

Ltac by_keeps H :=
  lazymatch type of H with
  | interp ?h ?p ?w = (?tr, ?r, ?w') =>
      lazymatch goal with
      | |- ?G =>
          lazymatch eval pattern tr in G with
          | ?f _ => refine ((_ : keeps h f p) w tr r w' H)
          end
      end
  end;
  unfold with_Timer, populate_store, run; cbn [bind ret Monad_Prog];
  repeat keeps_step.

Section PartsFacts.

Context {Whitelist NVD Resource File World : Type}.
Variable h : forall X : Type,
  Op Whitelist NVD Resource File X -> World -> result X * World.

Variable Derivation_lt : Derivation -> Derivation -> bool.
Variables (cve_url : string -> string) (vulnix_version : string).
Variable json_dumps : JSON -> string.

Local Abbreviation Prog := (Prog Whitelist NVD Resource File).
Local Abbreviation event := (event Whitelist NVD Resource File).

Lemma loaded_app (tr1 tr2 : list event) :
  loaded (tr1 ++ tr2) = (loaded tr1 ++ loaded tr2)%list.
Proof. apply flat_map_app. Qed.

Lemma load_results_app (tr1 tr2 : list event) :
  load_results (tr1 ++ tr2) = (load_results tr1 ++ load_results tr2)%list.
Proof. apply flat_map_app. Qed.

Lemma merged_app (tr1 tr2 : list event) :
  merged (tr1 ++ tr2) = (merged tr1 ++ merged tr2)%list.
Proof. apply flat_map_app. Qed.

Lemma filter_calls_app (tr1 tr2 : list event) :
  filter_calls (tr1 ++ tr2) = (filter_calls tr1 ++ filter_calls tr2)%list.
Proof. apply flat_map_app. Qed.

Lemma report_event_whitelists (tr : list event) :
  forallb report_event tr = true ->
  load_results tr = [] /\ merged tr = [] /\
  nvd_entered tr = [] /\ nvd_exited tr = [].
Proof.
  induction tr as [|ev tr IH]; simpl; [auto 6|].
  intros H. apply andb_prop in H. destruct H as [Hev Htr].
  destruct (IH Htr) as (-> & -> & -> & ->).
  destruct ev as [o|X op r]; simpl in *; [auto 6|].
  destruct op; simpl in *; try discriminate; auto 6.
Qed.

(** The parts of a run of [main] that no collaborator disturbs: logging is
    set up, the whitelists are loaded, the store is populated, the NVD is
    made, entered and updated, the derivations are checked and filtered, the
    NVD is left, and the report follows. *)
Lemma main_parts verbose gc_roots system path mirror cache_dir requisites
    whitelist write_whitelist json show_whitelisted default_whitelist notfixed
    w tr r w' :
  gc_roots || system || nonempty path = true ->
  interp h
    (main Derivation_lt cve_url vulnix_version json_dumps
       verbose gc_roots system path mirror cache_dir requisites
       whitelist write_whitelist false json show_whitelisted
       default_whitelist notfixed) w = (tr, r, w') ->
  failures tr = [] ->
  exists trA wl wA trB store wB nvd wD trU wU trR derivs wT wR
         affected masked rest,
    interp h
      (with_Timer "Load whitelists"
         (bind_prog (call Whitelist_new)
            (fun whitelist0 : Whitelist =>
               for_fold whitelist whitelist0
                 (fun (whitelist1 : Whitelist) (wl : Resource) =>
                    bind_prog (call (Whitelist_load wl))
                      (fun loaded : Whitelist =>
                         call (Whitelist_merge whitelist1 loaded)))))) w
    = (trA, inr wl, wA) /\
    interp h
      (with_Timer "Load derivations"
         (populate_store gc_roots
            (if system then (path ++ [CURRENT_SYSTEM])%list else path)
            requisites)) wA
    = (trB, inr store, wB) /\
    interp h (with_Timer "Load NVD data" (call (NVD_update nvd))) wD
    = (trU, inr tt, wU) /\
    interp h (run nvd store) wT = (trR, inr derivs, wR) /\
    forallb report_event rest = true /\
    tr = ([ EvOut (SetLevel "requests" ERROR);
            EvOut (BasicConfig (verbosity_level verbose)) ]
          ++ trA ++ trB
          ++ [ EvCall (NVD_new mirror cache_dir) (inr nvd);
               EvCall (NVD_enter nvd) (inr tt) ]
          ++ trU
          ++ [ EvCall (Timer_enter "Scan vulnerabilities") (inr tt) ]
          ++ trR
          ++ [ EvCall (Whitelist_filter wl derivs) (inr (affected, masked));
               EvCall (Timer_exit "Scan vulnerabilities" None) (inr tt);
               EvCall (NVD_exit nvd None) (inr tt) ]
          ++ rest)%list.
Proof.
  intros Htarget Hrun Hok.
  destruct (main_scanned h Derivation_lt cve_url vulnix_version json_dumps
              _ _ _ _ _ _ _ _ _ _ _ _ _ _ _ _ _ Htarget Hrun Hok)
    as (trS & wl & affected & masked & w1 & rest & HS & -> & Hrest).
  destruct (main_scan_trace h _ _ _ _ _ _ _ _ _ _ _ _ HS)
    as (trA & wA & trB & store & wB & nvd & wD & trU & wU & trR & derivs
        & wT & wR & HA & HB & HU & HR & ->).
  exists trA, wl, wA, trB, store, wB, nvd, wD, trU, wU, trR, derivs, wT, wR,
    affected, masked, rest.
  repeat (split; [assumption|]).
  cbn [app]. repeat (rewrite <- ?app_assoc; cbn [app]). reflexivity.
Qed.

(** X14: the scan targets of the command line reach the store: a run of
    [main] that no collaborator disturbs makes one store with the requisites
    flag, adds the GC roots if and only if [--gc-roots] is given, then adds
    the paths of the command line in order, and last the current system if
    [--system] is given; it makes no other call into the store. *)
Theorem main_populates_store
    verbose gc_roots system path mirror cache_dir requisites
    whitelist write_whitelist json show_whitelisted default_whitelist notfixed
    w tr r w' :
  gc_roots || system || nonempty path = true ->
  interp h
    (main Derivation_lt cve_url vulnix_version json_dumps
       verbose gc_roots system path mirror cache_dir requisites
       whitelist write_whitelist false json show_whitelisted
       default_whitelist notfixed) w = (tr, r, w') ->
  failures tr = [] ->
  store_calls tr
  = (StoreNew requisites
     :: (if gc_roots then [AddGcRoots] else [])
     ++ map AddPath path
     ++ (if system then [AddPath CURRENT_SYSTEM] else []))%list.
Proof.
  intros Htarget Hrun Hok.
  destruct (main_parts _ _ _ _ _ _ _ _ _ _ _ _ _ _ _ _ _ Htarget Hrun Hok)
    as (trA & wl & wA & trB & store & wB & nvd & wD & trU & wU & trR & derivs
        & wT & wR & affected & masked & rest
        & HA & HB & HU & HR & Hrest & ->).
  assert (HsA : store_calls trA = []) by (by_keeps HA).
  assert (HsU : store_calls trU = []) by (by_keeps HU).
  assert (HsR : store_calls trR = []) by (by_keeps HR).
  destruct (report_event_readers _ Hrest) as (HsT & _).
  apply with_Timer_returns in HB.
  destruct HB as (trb & wb1 & wb2 & HB & ->).
  apply populate_store_calls in HB.
  change (EvCall (Timer_enter "Load derivations") (inr tt) :: trb
          ++ [EvCall (Timer_exit "Load derivations" None) (inr tt)])%list
    with ([EvCall (Timer_enter "Load derivations") (inr tt)] ++ trb
          ++ [EvCall (Timer_exit "Load derivations" None) (inr tt)])%list.
  rewrite !store_calls_app, HsA, HsU, HsR, HsT, HB.
  cbn [store_calls flat_map app]. rewrite !app_nil_r.
  destruct system; [|rewrite app_nil_r; reflexivity].
  rewrite map_app. reflexivity.
Qed.

(** The loop of [main] over the whitelist sources, when no call raises. *)
Lemma load_loop (whitelist : list Resource) : forall (wl0 : Whitelist) w tr wl w',
  interp h
    (for_fold whitelist wl0
       (fun (whitelist1 : Whitelist) (src : Resource) =>
          bind_prog (call (Whitelist_load src))
            (fun loaded : Whitelist =>
               call (Whitelist_merge whitelist1 loaded)))) w
  = (tr, inr wl, w') ->
  loaded tr = whitelist /\
  merged tr = load_results tr /\
  List.length (merged tr) = List.length whitelist.
Proof.
  induction whitelist as [|src whitelist IH]; intros wl0 w tr wl w' Hrun.
  - inversion Hrun; subst. auto.
  - cbn [for_fold bind ret Monad_Prog] in Hrun.
    rewrite interp_bind, interp_bind, interp_call in Hrun.
    destruct (h _ (Whitelist_load src) w) as [[e|wl1] w1];
      cbn [fst snd] in Hrun; [discriminate|].
    rewrite interp_call in Hrun.
    destruct (h _ (Whitelist_merge wl0 wl1) w1) as [[e|wl2] w2];
      cbn [fst snd] in Hrun; [discriminate|].
    destruct (interp h (for_fold whitelist wl2 _) w2)
      as [[tr2 r2] w3] eqn:Hrest.
    destruct r2 as [e|wl3]; [discriminate|].
    inversion Hrun; subst. apply IH in Hrest.
    destruct Hrest as (Hl & Hm & Hlen).
    cbn [app loaded merged load_results flat_map List.length].
    fold (loaded tr2) (merged tr2) (load_results tr2).
    rewrite Hl, <- Hm. cbn [List.length]. rewrite Hlen. auto.
Qed.

(** X15: every whitelist source of the command line is loaded, once and in
    the order given, and every whitelist that was loaded is merged, in the
    same order: no [--whitelist] option is dropped by a run that no
    collaborator disturbs. *)
Theorem main_loads_every_whitelist
    verbose gc_roots system path mirror cache_dir requisites
    whitelist write_whitelist json show_whitelisted default_whitelist notfixed
    w tr r w' :
  gc_roots || system || nonempty path = true ->
  interp h
    (main Derivation_lt cve_url vulnix_version json_dumps
       verbose gc_roots system path mirror cache_dir requisites
       whitelist write_whitelist false json show_whitelisted
       default_whitelist notfixed) w = (tr, r, w') ->
  failures tr = [] ->
  loaded tr = whitelist /\
  merged tr = load_results tr /\
  List.length (merged tr) = List.length whitelist.
Proof.
  intros Htarget Hrun Hok.
  destruct (main_parts _ _ _ _ _ _ _ _ _ _ _ _ _ _ _ _ _ Htarget Hrun Hok)
    as (trA & wl & wA & trB & store & wB & nvd & wD & trU & wU & trR & derivs
        & wT & wR & affected & masked & rest
        & HA & HB & HU & HR & Hrest & ->).
  assert (HlB : loaded trB = []) by (by_keeps HB).
  assert (HmB : merged trB = []) by (by_keeps HB).
  assert (HrB : load_results trB = []) by (by_keeps HB).
  assert (HlU : loaded trU = []) by (by_keeps HU).
  assert (HmU : merged trU = []) by (by_keeps HU).
  assert (HrU : load_results trU = []) by (by_keeps HU).
  assert (HlR : loaded trR = []) by (by_keeps HR).
  assert (HmR : merged trR = []) by (by_keeps HR).
  assert (HrR : load_results trR = []) by (by_keeps HR).
  destruct (report_event_readers _ Hrest) as (_ & HlT & _).
  destruct (report_event_whitelists _ Hrest) as (HrT & HmT & _).
  apply with_Timer_returns in HA.
  destruct HA as (tra & wa1 & wa2 & HA & ->).
  rewrite interp_bind, interp_call in HA.
  destruct (h _ Whitelist_new wa1) as [[e|wl0] wa3]; cbn [fst snd] in HA;
    [discriminate|].
  destruct (interp h (for_fold whitelist wl0 _) wa3)
    as [[trl rl] wa4] eqn:Hloop.
  destruct rl as [e|wl']; [discriminate|].
  inversion HA; subst. apply load_loop in Hloop.
  destruct Hloop as (Hl & Hm & Hlen).
  change (EvCall (Timer_enter "Load whitelists") (inr tt)
          :: (EvCall Whitelist_new (inr wl0) :: trl)
          ++ [EvCall (Timer_exit "Load whitelists" None) (inr tt)])%list
    with ([EvCall (Timer_enter "Load whitelists") (inr tt);
           EvCall Whitelist_new (inr wl0)] ++ trl
          ++ [EvCall (Timer_exit "Load whitelists" None) (inr tt)])%list.
  rewrite !loaded_app, !merged_app, !load_results_app.
  rewrite HlB, HmB, HrB, HlU, HmU, HrU, HlR, HmR, HrR, HlT, HmT, HrT.
  cbn [loaded merged load_results flat_map app].
  rewrite !app_nil_r. auto.
Qed.

Lemma report_event_outside_nvd (tr : list event) :
  forallb report_event tr = true -> forallb outside_nvd tr = true.
Proof.
  induction tr as [|ev tr IH]; simpl; [auto|].
  intros H. apply andb_prop in H. destruct H as [Hev Htr].
  rewrite (IH Htr), andb_true_r.
  destruct ev as [o|X op r]; simpl in *; [reflexivity|].
  destruct op; simpl in *; try discriminate; reflexivity.
Qed.

(** X16: what [run] found is what is filtered: in a run of [main] that no
    collaborator disturbs, [Whitelist.filter] is called once, with the
    affected derivations among those checked, one per name. *)
Theorem main_filters_the_findings
    verbose gc_roots system path mirror cache_dir requisites
    whitelist write_whitelist json show_whitelisted default_whitelist notfixed
    w tr r w' :
  gc_roots || system || nonempty path = true ->
  interp h
    (main Derivation_lt cve_url vulnix_version json_dumps
       verbose gc_roots system path mirror cache_dir requisites
       whitelist write_whitelist false json show_whitelisted
       default_whitelist notfixed) w = (tr, r, w') ->
  failures tr = [] ->
  filter_calls tr
  = [values (dict_of name (filter is_affected (checked tr)))].
Proof.
  intros Htarget Hrun Hok.
  destruct (main_parts _ _ _ _ _ _ _ _ _ _ _ _ _ _ _ _ _ Htarget Hrun Hok)
    as (trA & wl & wA & trB & store & wB & nvd & wD & trU & wU & trR & derivs
        & wT & wR & affected & masked & rest
        & HA & HB & HU & HR & Hrest & ->).
  assert (HfA : filter_calls trA = []) by (by_keeps HA).
  assert (HfB : filter_calls trB = []) by (by_keeps HB).
  assert (HfU : filter_calls trU = []) by (by_keeps HU).
  assert (HfR : filter_calls trR = []) by (by_keeps HR).
  assert (HcA : checked trA = []) by (by_keeps HA).
  assert (HcB : checked trB = []) by (by_keeps HB).
  assert (HcU : checked trU = []) by (by_keeps HU).
  destruct (report_event_readers _ Hrest) as (_ & _ & HfT & HcT & _).
  apply interp_run in HR. destruct HR as (idss & Hlen & -> & ->).
  rewrite !filter_calls_app, !checked_app.
  rewrite HfA, HfB, HfU, HfR, HfT, HcA, HcB, HcU, HcT.
  cbn [filter_calls checked flat_map app]. rewrite !app_nil_r.
  rewrite checked_check_events. reflexivity.
Qed.

(** X17: the checks are made inside the NVD context and after the update:
    a run of [main] that no collaborator disturbs makes one NVD from the
    mirror and the cache directory, enters it, updates it, and only then
    checks the derivations, every one against this NVD; it leaves the
    context before it reports, and enters no other. *)
Theorem main_checks_inside_nvd_context
    verbose gc_roots system path mirror cache_dir requisites
    whitelist write_whitelist json show_whitelisted default_whitelist notfixed
    w tr r w' :
  gc_roots || system || nonempty path = true ->
  interp h
    (main Derivation_lt cve_url vulnix_version json_dumps
       verbose gc_roots system path mirror cache_dir requisites
       whitelist write_whitelist false json show_whitelisted
       default_whitelist notfixed) w = (tr, r, w') ->
  failures tr = [] ->
  exists nvd pre upd scan post,
    tr = (pre
          ++ EvCall (NVD_new mirror cache_dir) (inr nvd)
          :: EvCall (NVD_enter nvd) (inr tt)
          :: upd
          ++ EvCall (NVD_update nvd) (inr tt)
          :: scan
          ++ EvCall (NVD_exit nvd None) (inr tt)
          :: post)%list /\
    check_calls pre = [] /\ check_calls upd = [] /\ check_calls post = [] /\
    Forall (fun c => snd c = nvd) (check_calls scan) /\
    forallb outside_nvd (pre ++ upd ++ scan ++ post) = true /\
    forallb report_event post = true /\
    emitted (upd ++ scan) = [].
Proof.
  intros Htarget Hrun Hok.
  destruct (main_parts _ _ _ _ _ _ _ _ _ _ _ _ _ _ _ _ _ Htarget Hrun Hok)
    as (trA & wl & wA & trB & store & wB & nvd & wD & trU & wU & trR & derivs
        & wT & wR & affected & masked & rest
        & HA & HB & HU & HR & Hrest & ->).
  assert (HcA : check_calls trA = []) by (by_keeps HA).
  assert (HcB : check_calls trB = []) by (by_keeps HB).
  assert (HoA : forallb outside_nvd trA = true) by (by_keeps HA).
  assert (HoB : forallb outside_nvd trB = true) by (by_keeps HB).
  assert (HoR : forallb outside_nvd trR = true) by (by_keeps HR).
  assert (HeR : emitted trR = []) by (by_keeps HR).
  destruct (report_event_readers _ Hrest) as (_ & _ & _ & _ & HcT).
  pose proof (report_event_outside_nvd _ Hrest) as HoT.
  apply with_Timer_returns in HU.
  destruct HU as (tru & wu1 & wu2 & HU & ->).
  rewrite interp_call in HU. inversion HU as [[Htru Hres Hw]]. clear HU.
  apply interp_run in HR. destruct HR as (idss & Hlen & -> & ->).
  exists nvd,
    ([ EvOut (SetLevel "requests" ERROR);
       EvOut (BasicConfig (verbosity_level verbose)) ] ++ trA ++ trB)%list,
    [EvCall (Timer_enter "Load NVD data") (inr tt)],
    ([ EvCall (Timer_exit "Load NVD data" None) (inr tt);
       EvCall (Timer_enter "Scan vulnerabilities") (inr tt) ]
     ++ check_events nvd (values (derivations store)) idss
     ++ [ EvCall (Whitelist_filter wl
                    (values (dict_of name
                       (filter is_affected
                          (check_outcomes (values (derivations store)) idss)))))
            (inr (affected, masked));
          EvCall (Timer_exit "Scan vulnerabilities" None) (inr tt) ])%list,
    rest.
  split.
  { rewrite Hres. cbn [app].
    repeat (rewrite <- ?app_assoc; cbn [app]). reflexivity. }
  split.
  { rewrite !check_calls_app, HcA, HcB. reflexivity. }
  split; [reflexivity|]. split; [exact HcT|].
  split.
  { rewrite !check_calls_app, check_calls_check_events by exact Hlen.
    cbn [check_calls flat_map app]. rewrite app_nil_r.
    apply Forall_forall. intros c Hin. apply in_map_iff in Hin.
    destruct Hin as (d & <- & _). reflexivity. }
  split.
  { rewrite !forallb_app, HoA, HoB, HoR, HoT. reflexivity. }
  split; [exact Hrest|].
  rewrite !emitted_app, HeR. reflexivity.
Qed.

End PartsFacts.

(** ** Without [--write-whitelist] *)

Section NoWriteFacts.

Context {Whitelist NVD Resource File World : Type}.
Variable h : forall X : Type,
  Op Whitelist NVD Resource File X -> World -> result X * World.

Variable Derivation_lt : Derivation -> Derivation -> bool.
Variables (cve_url : string -> string) (vulnix_version : string).
Variable json_dumps : JSON -> string.

Local Abbreviation Prog := (Prog Whitelist NVD Resource File).
Local Abbreviation event := (event Whitelist NVD Resource File).

Lemma keeps_main_except (I : list event -> Prop) e (q : Prog unit) :
  (forall e', I [EvOut (LogCritical e')]) ->
  main_except e = Some q -> keeps h I q.
Proof.
  intros Hlog Hq. destruct e; try discriminate. injection Hq as <-.
  intros w tr r w' Hrun. inversion Hrun. apply Hlog.
Qed.

Ltac keeps_main :=
  unfold main, howto, init_logging, with_Timer, populate_store, run,
    output_json, output, print_derivation, print_masked;
  cbn [bind ret Monad_Prog]; cbv iota;
  repeat first
    [ lazymatch goal with
      | |- keeps _ _ (try_except _ _) =>
          apply keeps_try_except;
          [ intros; apply flat_map_nil_app; assumption
          |
          | intros e q Hq;
            apply (keeps_main_except _ e q); [intros; reflexivity | exact Hq] ]
      end
    | keeps_step ].

(** X18: without [--write-whitelist], [main] writes no file and adds
    nothing to the whitelist, in any run. *)
Theorem no_write_whitelist_writes_nothing
    verbose gc_roots system path mirror cache_dir requisites
    whitelist version json show_whitelisted default_whitelist notfixed
    w tr r w' :
  interp h
    (main Derivation_lt cve_url vulnix_version json_dumps
       verbose gc_roots system path mirror cache_dir requisites
       whitelist None version json show_whitelisted
       default_whitelist notfixed) w = (tr, r, w') ->
  file_writes tr = [] /\ add_from_calls tr = [].
Proof.
  intros Hrun. split.
  - revert w tr r w' Hrun.
    change (keeps h (fun tr : list event => file_writes tr = [])
              (main Derivation_lt cve_url vulnix_version json_dumps
                 verbose gc_roots system path mirror cache_dir requisites
                 whitelist None version json show_whitelisted
                 default_whitelist notfixed)).
    keeps_main.
  - revert w tr r w' Hrun.
    change (keeps h (fun tr : list event => add_from_calls tr = [])
              (main Derivation_lt cve_url vulnix_version json_dumps
                 verbose gc_roots system path mirror cache_dir requisites
                 whitelist None version json show_whitelisted
                 default_whitelist notfixed)).
    keeps_main.
Qed.

End NoWriteFacts.

(** * The theorems at work on the small installation *)

Lemma run_checks_every_derivation_witness :
  failures (fst (fst Toy.run_disk)) = [] /\
  check_calls (fst (fst Toy.run_disk))
  = map (fun d => (d, Toy.nvd0)) (values Toy.disk) /\
  exists res, snd (fst Toy.run_disk) = inr res /\
    (forall d, In d res ->
               In d (checked (fst (fst Toy.run_disk))) /\ affected_by d <> []) /\
    (forall d, In d (checked (fst (fst Toy.run_disk))) ->
               affected_by d <> [] -> In (name d) (map name res)).
Proof.
  split; [reflexivity|].
  apply (run_checks_every_derivation Toy.handle Toy.nvd0 (mkStore Toy.disk)
           Toy.world0 _ _ (snd Toy.run_disk)); reflexivity.
Defined.

Lemma run_one_derivation_per_name_witness :
  let res := [ set_affected_by Toy.openssl_b (Toy.cves "openssl");
               set_affected_by Toy.bash (Toy.cves "bash") ] in
  let tr := fst (fst Toy.run_disk) in
  Toy.run_disk = (tr, inr res, Toy.world0) /\
  Forall2 (fun d0 d => d = set_affected_by d0 (affected_by d))
          (values Toy.disk) (checked tr) /\
  NoDup (map name res) /\
  (forall n, In n (map name res)
             <-> In n (map name (filter is_affected (checked tr)))) /\
  (forall d, In d res
             <-> find (fun x => String.eqb (name x) (name d))
                      (rev (filter is_affected (checked tr)))
                 = Some d).
Proof.
  split; [reflexivity|].
  apply (run_one_derivation_per_name Toy.handle Toy.nvd0 (mkStore Toy.disk)
           Toy.world0 _ _ Toy.world0).
  reflexivity.
Defined.

Lemma version_compare_total_order_witness :
  (Version.compare "1.2-rc1" "1.2" = Lt /\
   Version.compare "1.2" "1.10" = Lt /\
   Version.compare "1.2-rc1" "1.10" = Lt) /\
  (Version.compare "1.2" "1.2.0" = Eq /\
   Version.compare "1.2.0" "1.02" = Eq /\
   Version.compare "1.2" "1.02" = Eq) /\
  Version.compare "1.2" "1.2.1" = Version.compare "1.2.0" "1.2.1".
Proof.
  destruct version_compare_total_order
    as (_ & _ & Hlt & Heq & Hcompat & _ & _).
  split; [|split].
  - split; [reflexivity|]. split; [reflexivity|].
    apply (Hlt "1.2-rc1" "1.2" "1.10"); reflexivity.
  - split; [reflexivity|]. split; [reflexivity|].
    apply (Heq "1.2" "1.2.0" "1.02"); reflexivity.
  - apply (Hcompat "1.2" "1.2.0" "1.2.1"); reflexivity.
Defined.

Lemma exit_status_reflects_findings_witness :
  false || false || nonempty ["./result"] = true /\
  failures (fst (fst Toy.frozen_scan)) = [] /\
  false && false = false /\
  exists affected masked,
    filter_results (fst (fst Toy.frozen_scan)) = [(affected, masked)] /\
    snd (fst Toy.frozen_scan)
    = inl (SystemExit
             match affected, masked with
             | _ :: _, _ => 2
             | [], _ :: _ => 1
             | [], [] => 0
             end).
Proof.
  split; [reflexivity|]. split; [reflexivity|]. split; [reflexivity|].
  apply (exit_status_reflects_findings Toy.handle Toy.lt Toy.cve_url "1.10.1"
           Toy.dumps 0 false false ["./result"]
           "https://nvd.nist.gov/feeds/" "~/.cache/vulnix" true
           [["bash-4.3"]] (Some "whitelist.toml") false false true false
           Toy.world0 _ _ (snd Toy.frozen_scan)); reflexivity.
Defined.

Lemma runtime_error_exits_2_witness :
  false || false || nonempty ["./result"] = true /\
  last_failure (fst (fst Toy.broken_scan))
  = Some (RuntimeError "mirror unreachable") /\
  snd (fst Toy.broken_scan) = inl (SystemExit 2) /\
  exit_code (snd (fst Toy.broken_scan)) = 2%Z /\
  stack_trace (snd (fst Toy.broken_scan)) = false /\
  exists outs,
    emitted (fst (fst Toy.broken_scan))
    = (outs ++ [LogCritical (RuntimeError "mirror unreachable")])%list.
Proof.
  split; [reflexivity|]. split; [reflexivity|].
  apply (runtime_error_exits_2 Toy.handle Toy.lt Toy.cve_url "1.10.1"
           Toy.dumps 0 false false ["./result"]
           "https://nvd.nist.gov/feeds/" "~/.cache/vulnix" true
           [] None false false true false
           Toy.world_broken _ _ (snd Toy.broken_scan));
    [reflexivity | reflexivity | left; reflexivity].
Defined.

Lemma write_whitelist_adds_affected_witness :
  false || false || nonempty ["./result"] = true /\
  failures (fst (fst Toy.frozen_scan)) = [] /\
  false && false = false /\
  exists tr0 wl derivs affected masked wls text,
    List.length wls = List.length affected /\
    fst (fst Toy.frozen_scan)
    = (tr0 ++ add_from_events wl affected wls
       ++ [ EvCall (Whitelist_str (List.last wls wl)) (inr text);
            EvCall (File_write "whitelist.toml" text) (inr tt) ])%list /\
    In (EvCall (Whitelist_filter wl derivs) (inr (affected, masked))) tr0 /\
    filter_results tr0 = [(affected, masked)] /\
    add_from_calls tr0 = [] /\
    file_writes tr0 = [] /\
    add_from_calls (fst (fst Toy.frozen_scan)) = affected /\
    file_writes (fst (fst Toy.frozen_scan)) = [("whitelist.toml", text)].
Proof.
  split; [reflexivity|]. split; [reflexivity|]. split; [reflexivity|].
  apply (write_whitelist_adds_affected Toy.handle Toy.lt Toy.cve_url "1.10.1"
           Toy.dumps 0 false false ["./result"]
           "https://nvd.nist.gov/feeds/" "~/.cache/vulnix" true
           [["bash-4.3"]] "whitelist.toml" false false true false
           Toy.world0 _ (snd (fst Toy.frozen_scan)) (snd Toy.frozen_scan));
    reflexivity.
Defined.

Lemma json_show_whitelisted_is_refused_witness :
  false || false || nonempty ["./result"] = true /\
  failures (fst (fst Toy.json_scan)) = [] /\
  (forall text, ~ In (Print text) (emitted (fst (fst Toy.json_scan)))) /\
  snd (fst Toy.json_scan) = inl (SystemExit 2) /\
  exists outs,
    emitted (fst (fst Toy.json_scan))
    = (outs ++ [LogCritical (RuntimeError refusal)])%list.
Proof.
  split; [reflexivity|]. split; [reflexivity|].
  destruct (json_show_whitelisted_is_refused Toy.handle Toy.lt Toy.cve_url
              "1.10.1" Toy.dumps 0 false false ["./result"]
              "https://nvd.nist.gov/feeds/" "~/.cache/vulnix" true
              [] None true false
              Toy.world0 _ _ (snd Toy.json_scan) eq_refl eq_refl)
    as (_ & Hprint & Hexit).
  split; [exact Hprint|]. apply Hexit. reflexivity.
Defined.

(** * The further properties at work *)

Lemma verbosity_saturates_witness :
  2 <= 5 /\
  main (Whitelist := Toy.Whitelist) (NVD := Toy.NVD) (Resource := Toy.Resource)
    (File := Toy.File) Toy.lt Toy.cve_url "1.10.1" Toy.dumps
    5 false true [] "https://nvd.nist.gov/feeds/" "~/.cache/vulnix" true
    [] None false false true true false
  = main Toy.lt Toy.cve_url "1.10.1" Toy.dumps
      2 false true [] "https://nvd.nist.gov/feeds/" "~/.cache/vulnix" true
      [] None false false true true false.
Proof.
  split; [lia|]. apply verbosity_saturates. lia.
Defined.

Lemma main_never_returns_witness :
  exists e, snd (fst Toy.broken_scan) = inl e /\
            forall msg, e <> RuntimeError msg.
Proof.
  apply (main_never_returns Toy.handle Toy.lt Toy.cve_url "1.10.1" Toy.dumps
           0 false false ["./result"]
           "https://nvd.nist.gov/feeds/" "~/.cache/vulnix" true
           [] None false false false true false
           Toy.world_broken (fst (fst Toy.broken_scan)) _
           (snd Toy.broken_scan)).
  reflexivity.
Defined.

Lemma other_exceptions_leave_main_witness :
  false || false || nonempty ["./result"] = true /\
  last_failure (fst (fst Faulty.scan)) = Some (OtherError "KeyError" "bash") /\
  snd (fst Faulty.scan) = inl (OtherError "KeyError" "bash") /\
  stack_trace (snd (fst Faulty.scan)) = true.
Proof.
  split; [reflexivity|]. split; [reflexivity|].
  apply (other_exceptions_leave_main Faulty.handle Toy.lt Toy.cve_url "1.10.1"
           Toy.dumps 0 false false ["./result"]
           "https://nvd.nist.gov/feeds/" "~/.cache/vulnix" true
           [] None false false true false
           Toy.world0 (fst (fst Faulty.scan)) _ (snd Faulty.scan)
           (OtherError "KeyError" "bash"));
    [reflexivity | reflexivity | reflexivity | discriminate].
Defined.

Lemma json_mode_prints_one_document_witness :
  let scan := Toy.vulnix 1 false false ["./result"] [["bash-4.3"]] None
                false true false Toy.world0 in
  false || false || nonempty ["./result"] = true /\
  failures (fst (fst scan)) = [] /\
  exists affected masked,
    filter_results (fst (fst scan)) = [(affected, masked)] /\
    emitted (fst (fst scan))
    = [ SetLevel "requests" ERROR;
        BasicConfig (verbosity_level 1);
        Print (Toy.dumps
                 (JList (map json_record (sorted_key pname affected)))) ].
Proof.
  cbv zeta. split; [reflexivity|]. split; [reflexivity|].
  apply (json_mode_prints_one_document Toy.handle Toy.lt Toy.cve_url "1.10.1"
           Toy.dumps 1 false false ["./result"]
           "https://nvd.nist.gov/feeds/" "~/.cache/vulnix" true
           [["bash-4.3"]] None true false
           Toy.world0 _
           (snd (fst (Toy.vulnix 1 false false ["./result"] [["bash-4.3"]]
                        None false true false Toy.world0)))
           (snd (Toy.vulnix 1 false false ["./result"] [["bash-4.3"]]
                   None false true false Toy.world0)));
    reflexivity.
Defined.

Lemma run_keeps_distinct_names_witness :
  let store := mkStore [("a", Toy.hello); ("b", Toy.bash); ("c", Toy.openssl_a)] in
  let found := interp Toy.handle (run Toy.nvd0 store) Toy.world0 in
  NoDup (map name (filter is_affected (checked (fst (fst found))))) /\
  [ set_affected_by Toy.bash (Toy.cves "bash");
    set_affected_by Toy.openssl_a (Toy.cves "openssl") ]
  = filter is_affected (checked (fst (fst found))).
Proof.
  cbv zeta.
  assert (Hnd : NoDup
            (map name
               (filter is_affected
                  (checked
                     (fst (fst (interp Toy.handle
                                  (run Toy.nvd0
                                     (mkStore [("a", Toy.hello);
                                               ("b", Toy.bash);
                                               ("c", Toy.openssl_a)]))
                                  Toy.world0))))))).
  { vm_compute. constructor.
    - intros [H|[]]. discriminate H.
    - constructor; [intros [] | constructor]. }
  split; [exact Hnd|].
  apply (run_keeps_distinct_names Toy.handle Toy.nvd0
           (mkStore [("a", Toy.hello); ("b", Toy.bash); ("c", Toy.openssl_a)])
           Toy.world0 _ _ Toy.world0); [reflexivity | exact Hnd].
Defined.

Lemma run_stops_at_failing_check_witness :
  exists ds1 d ds2 tr0,
    values Toy.disk = (ds1 ++ d :: ds2)%list /\
    fst (fst Faulty.run_disk)
    = (tr0 ++ [EvCall (Derivation_check d Toy.nvd0)
                 (inl (OtherError "KeyError" "bash"))])%list /\
    check_calls tr0 = map (fun d => (d, Toy.nvd0)) ds1 /\
    List.length (checked tr0) = List.length ds1 /\
    failures (fst (fst Faulty.run_disk)) = [OtherError "KeyError" "bash"].
Proof.
  apply (run_stops_at_failing_check Faulty.handle Toy.nvd0 (mkStore Toy.disk)
           Toy.world0 _ _ (snd Faulty.run_disk)).
  reflexivity.
Defined.

Lemma output_only_writes_lines_witness :
  let shown :=
    interp Toy.handle
      (output Toy.lt Toy.cve_url
         [set_affected_by Toy.openssl_a (Toy.cves "openssl")]
         [Toy.mask (set_affected_by Toy.bash (Toy.cves "bash"))] true 1)
      Toy.world0 in
  snd (fst shown) = inr tt /\ snd shown = Toy.world0 /\
  forallb click_event (fst (fst shown)) = true.
Proof.
  cbv zeta.
  apply (output_only_writes_lines Toy.handle Toy.lt Toy.cve_url
           [set_affected_by Toy.openssl_a (Toy.cves "openssl")]
           [Toy.mask (set_affected_by Toy.bash (Toy.cves "bash"))] true 1
           Toy.world0).
  reflexivity.
Defined.

Lemma nvd_context_is_always_left_witness :
  nvd_entered (fst (fst Toy.broken_scan)) = [Toy.nvd0] /\
  nvd_entered (fst (fst Toy.broken_scan))
  = nvd_exited (fst (fst Toy.broken_scan)).
Proof.
  split; [reflexivity|].
  apply (nvd_context_is_always_left Toy.handle Toy.lt Toy.cve_url "1.10.1"
           Toy.dumps 0 false false ["./result"]
           "https://nvd.nist.gov/feeds/" "~/.cache/vulnix" true
           [] None false false false true false
           Toy.world_broken _ (snd (fst Toy.broken_scan))
           (snd Toy.broken_scan)).
  reflexivity.
Defined.

Lemma output_shows_every_finding_witness :
  let d := set_affected_by Toy.openssl_a (Toy.cves "openssl") in
  let affected := [set_affected_by Toy.bash (Toy.cves "bash"); d] in
  let shown :=
    interp Toy.handle (output Toy.lt Toy.cve_url affected [] false 1)
      Toy.world0 in
  In d affected /\
  In (Secho (name d ++ nl) "yellow") (emitted (fst (fst shown))) /\
  forall cve, In cve (affected_by d) ->
    In (Echo (tab ++ Toy.cve_url cve) true) (emitted (fst (fst shown))).
Proof.
  cbv zeta. split; [right; left; reflexivity|].
  apply (output_shows_every_finding Toy.handle Toy.lt Toy.cve_url
           [ set_affected_by Toy.bash (Toy.cves "bash");
             set_affected_by Toy.openssl_a (Toy.cves "openssl") ]
           [] false 1
           (set_affected_by Toy.openssl_a (Toy.cves "openssl"))
           Toy.world0 _ (inr tt) Toy.world0);
    [right; left; reflexivity | reflexivity].
Defined.

Lemma output_accounts_for_masked_witness :
  let whitelisted := [Toy.mask (set_affected_by Toy.bash (Toy.cves "bash"))] in
  let shown :=
    interp Toy.handle (output Toy.lt Toy.cve_url [] whitelisted false 0)
      Toy.world0 in
  whitelisted <> [] /\
  (In (Secho ("Nothing to show, but " ++ str_of_nat (List.length whitelisted)
              ++ " left out due to whitelisting") "blue")
      (emitted (fst (fst shown))) \/
   In (Secho (nl ++ "...and " ++ str_of_nat (List.length whitelisted)
              ++ " more whitelisted (use `--show-whitelisted` to display)")
         "blue") (emitted (fst (fst shown)))).
Proof.
  cbv zeta. split; [discriminate|].
  apply (output_accounts_for_masked Toy.handle Toy.lt Toy.cve_url []
           [Toy.mask (set_affected_by Toy.bash (Toy.cves "bash"))] false 0
           Toy.world0 _ (inr tt) Toy.world0);
    [discriminate | reflexivity].
Defined.

Lemma output_heads_findings_in_order_witness :
  let affected := [ set_affected_by Toy.openssl_a (Toy.cves "openssl");
                    set_affected_by Toy.bash (Toy.cves "bash") ] in
  let shown :=
    interp Toy.handle
      (output Toy.lt Toy.cve_url affected
         [Toy.mask (set_affected_by Toy.hello ["CVE-2010-0001"])] true 2)
      Toy.world0 in
  sorted Toy.lt affected
  = [ set_affected_by Toy.bash (Toy.cves "bash");
      set_affected_by Toy.openssl_a (Toy.cves "openssl") ] /\
  headings (fst (fst shown))
  = map (fun d => name d ++ nl) (sorted Toy.lt affected).
Proof.
  cbv zeta. split; [reflexivity|].
  apply (output_heads_findings_in_order Toy.handle Toy.lt Toy.cve_url
           [ set_affected_by Toy.openssl_a (Toy.cves "openssl");
             set_affected_by Toy.bash (Toy.cves "bash") ]
           [Toy.mask (set_affected_by Toy.hello ["CVE-2010-0001"])] true 2
           Toy.world0 _ (inr tt) Toy.world0).
  reflexivity.
Defined.

Lemma populate_store_adds_roots_and_paths_witness :
  let populated :=
    interp Toy.handle (populate_store true ["./result"; "./other"] false)
      Toy.world0 in
  snd (fst populated) = inr (mkStore Toy.disk) /\
  store_calls (fst (fst populated))
  = [StoreNew false; AddGcRoots; AddPath "./result"; AddPath "./other"] /\
  forallb store_event (fst (fst populated)) = true /\
  failures (fst (fst populated)) = [].
Proof.
  cbv zeta. split; [reflexivity|].
  apply (populate_store_adds_roots_and_paths Toy.handle true
           ["./result"; "./other"] false Toy.world0 _ (mkStore Toy.disk)
           Toy.world0).
  reflexivity.
Defined.

Lemma populate_store_stops_at_failure_witness :
  snd (fst Faulty.populate) = inl (RuntimeError "path does not exist") /\
  store_calls (fst (fst Faulty.populate))
  = [StoreNew true; AddGcRoots; AddPath "./result"; AddPath "/missing"] /\
  exists tr0 X (op : Op Toy.Whitelist Toy.NVD Toy.Resource Toy.File X),
    fst (fst Faulty.populate)
    = (tr0 ++ [EvCall op (inl (RuntimeError "path does not exist"))])%list /\
    failures tr0 = [] /\
    store_event (EvCall op (inl (RuntimeError "path does not exist"))) = true.
Proof.
  split; [reflexivity|]. split; [reflexivity|].
  apply (populate_store_stops_at_failure Faulty.handle true
           ["./result"; "/missing"; "./other"] true Toy.world0 _ _
           (snd Faulty.populate)).
  reflexivity.
Defined.

Lemma main_populates_store_witness :
  let scan := Toy.vulnix 0 true true ["./result"; "./other"] [] None
                false false false Toy.world0 in
  true || true || nonempty ["./result"; "./other"] = true /\
  failures (fst (fst scan)) = [] /\
  store_calls (fst (fst scan))
  = [ StoreNew true; AddGcRoots; AddPath "./result"; AddPath "./other";
      AddPath CURRENT_SYSTEM ].
Proof.
  cbv zeta. split; [reflexivity|]. split; [reflexivity|].
  apply (main_populates_store Toy.handle Toy.lt Toy.cve_url "1.10.1"
           Toy.dumps 0 true true ["./result"; "./other"]
           "https://nvd.nist.gov/feeds/" "~/.cache/vulnix" true
           [] None false false true false
           Toy.world0 _
           (snd (fst (Toy.vulnix 0 true true ["./result"; "./other"] [] None
                        false false false Toy.world0)))
           (snd (Toy.vulnix 0 true true ["./result"; "./other"] [] None
                   false false false Toy.world0)));
    reflexivity.
Defined.

Lemma main_loads_every_whitelist_witness :
  let scan := Toy.vulnix 0 false false ["./result"]
                [["bash-4.3"]; []; ["hello-2.10"; "bash-4.3"]] None
                false false false Toy.world0 in
  false || false || nonempty ["./result"] = true /\
  failures (fst (fst scan)) = [] /\
  loaded (fst (fst scan)) = [["bash-4.3"]; []; ["hello-2.10"; "bash-4.3"]] /\
  merged (fst (fst scan)) = load_results (fst (fst scan)) /\
  List.length (merged (fst (fst scan))) = 3.
Proof.
  cbv zeta. split; [reflexivity|]. split; [reflexivity|].
  apply (main_loads_every_whitelist Toy.handle Toy.lt Toy.cve_url "1.10.1"
           Toy.dumps 0 false false ["./result"]
           "https://nvd.nist.gov/feeds/" "~/.cache/vulnix" true
           [["bash-4.3"]; []; ["hello-2.10"; "bash-4.3"]] None
           false false true false
           Toy.world0 _
           (snd (fst (Toy.vulnix 0 false false ["./result"]
                        [["bash-4.3"]; []; ["hello-2.10"; "bash-4.3"]] None
                        false false false Toy.world0)))
           (snd (Toy.vulnix 0 false false ["./result"]
                   [["bash-4.3"]; []; ["hello-2.10"; "bash-4.3"]] None
                   false false false Toy.world0)));
    reflexivity.
Defined.

Lemma main_filters_the_findings_witness :
  false || false || nonempty ["./result"] = true /\
  failures (fst (fst Toy.frozen_scan)) = [] /\
  filter_calls (fst (fst Toy.frozen_scan))
  = [values (dict_of name
               (filter is_affected (checked (fst (fst Toy.frozen_scan)))))] /\
  filter_calls (fst (fst Toy.frozen_scan))
  = [[ set_affected_by Toy.openssl_b (Toy.cves "openssl");
       set_affected_by Toy.bash (Toy.cves "bash") ]].
Proof.
  split; [reflexivity|]. split; [reflexivity|]. split; [|reflexivity].
  apply (main_filters_the_findings Toy.handle Toy.lt Toy.cve_url "1.10.1"
           Toy.dumps 0 false false ["./result"]
           "https://nvd.nist.gov/feeds/" "~/.cache/vulnix" true
           [["bash-4.3"]] (Some "whitelist.toml") false false true false
           Toy.world0 _ (snd (fst Toy.frozen_scan)) (snd Toy.frozen_scan));
    reflexivity.
Defined.

Lemma main_checks_inside_nvd_context_witness :
  false || false || nonempty ["./result"] = true /\
  failures (fst (fst Toy.frozen_scan)) = [] /\
  exists nvd pre upd scan post,
    fst (fst Toy.frozen_scan)
    = (pre
       ++ EvCall (NVD_new "https://nvd.nist.gov/feeds/" "~/.cache/vulnix")
            (inr nvd)
       :: EvCall (NVD_enter nvd) (inr tt)
       :: upd
       ++ EvCall (NVD_update nvd) (inr tt)
       :: scan
       ++ EvCall (NVD_exit nvd None) (inr tt)
       :: post)%list /\
    check_calls pre = [] /\ check_calls upd = [] /\ check_calls post = [] /\
    Forall (fun c => snd c = nvd) (check_calls scan) /\
    forallb outside_nvd (pre ++ upd ++ scan ++ post) = true /\
    forallb report_event post = true /\
    emitted (upd ++ scan) = [].
Proof.
  split; [reflexivity|]. split; [reflexivity|].
  apply (main_checks_inside_nvd_context Toy.handle Toy.lt Toy.cve_url "1.10.1"
           Toy.dumps 0 false false ["./result"]
           "https://nvd.nist.gov/feeds/" "~/.cache/vulnix" true
           [["bash-4.3"]] (Some "whitelist.toml") false false true false
           Toy.world0 _ (snd (fst Toy.frozen_scan)) (snd Toy.frozen_scan));
    reflexivity.
Defined.

Lemma no_write_whitelist_writes_nothing_witness :
  let scan := Toy.vulnix 0 false false ["./result"] [["bash-4.3"]] None
                false false false Toy.world0 in
  snd scan = Toy.world0 /\
  file_writes (fst (fst scan)) = [] /\ add_from_calls (fst (fst scan)) = [].
Proof.
  cbv zeta. split; [reflexivity|].
  apply (no_write_whitelist_writes_nothing Toy.handle Toy.lt Toy.cve_url
           "1.10.1" Toy.dumps 0 false false ["./result"]
           "https://nvd.nist.gov/feeds/" "~/.cache/vulnix" true
           [["bash-4.3"]] false false false true false
           Toy.world0 _
           (snd (fst (Toy.vulnix 0 false false ["./result"] [["bash-4.3"]] None
                        false false false Toy.world0)))
           (snd (Toy.vulnix 0 false false ["./result"] [["bash-4.3"]] None
                   false false false Toy.world0))).
  reflexivity.
Defined.
